(** * NVIDIA VFX super-resolution wrapper (StreamFX)

    A shallow embedding of [source/nvidia/vfx/nvidia-vfx-superresolution.cpp]:
    the scale-factor table and its nearest-match scans, the strength and scale
    setters, the resolution negotiator [size], the buffer lifecycle [resize],
    [load] and the per-frame pipeline [process].

    - [float] and [double] are IEEE 754 binary32 and binary64, computed with
      the operations of the standard library's [SpecFloat] (round to nearest,
      ties to even);
    - [uint32_t] is a [Z] with the wrap-around of each conversion written out;
    - the object is a record of its members, and the three reference
      parameters of [size] are references into a store, so that the call
      [size(_cache_input_size, _cache_input_size, _cache_output_size)] made
      by [resize] aliases as it does in the source;
    - the vendor engine is an oracle giving the status of its n-th call; every
      call is appended to a trace;
    - a C++ exception, and behaviour the language leaves undefined, are
      outcomes of their own, returned with the state at that point. *)

From Stdlib Require Import ZArith List Bool Lia String.
From Stdlib Require Import Floats.SpecFloat.
Import ListNotations.
Local Open Scope Z_scope.

(* ================================================================= *)
(** ** Floating point *)

(** Values of both formats are [spec_float]s; the format only enters through
    the precision and exponent range of each operation. *)
Definition float := spec_float.
Definition double := spec_float.

Module F32.
Definition prec : Z := 24.
Definition emax : Z := 128.
Definition valid (x : float) : bool := valid_binary prec emax x.
Definition of_Z (z : Z) : float := binary_normalize prec emax z 0 false.
Definition dyadic (m e : Z) : float := binary_normalize prec emax m e false.
Definition sub : float -> float -> float := SFsub prec emax.
Definition mul : float -> float -> float := SFmul prec emax.
Definition div : float -> float -> float := SFdiv prec emax.
Definition abs : float -> float := SFabs.
Definition ltb : float -> float -> bool := SFltb.
Definition leb : float -> float -> bool := SFleb.
Definition eqb : float -> float -> bool := SFeqb.
(** [static_cast<float>(double)]. *)
Definition of_double (d : double) : float :=
  match d with
  | S754_finite s m e => binary_normalize prec emax (cond_Zopp s (Zpos m)) e s
  | _ => d
  end.
(** [std::numeric_limits<float>::max()]. *)
Definition max_value : float := Eval vm_compute in SFmax_float prec emax.
End F32.

Module F64.
Definition prec : Z := 53.
Definition emax : Z := 1024.
Definition of_Z (z : Z) : double := binary_normalize prec emax z 0 false.
Definition mul : double -> double -> double := SFmul prec emax.
Definition div : double -> double -> double := SFdiv prec emax.
Definition ltb : double -> double -> bool := SFltb.
(** The implicit promotion of a [float] operand to [double] (exact). *)
Definition of_float (f : float) : double :=
  match f with
  | S754_finite s m e => binary_normalize prec emax (cond_Zopp s (Zpos m)) e s
  | _ => f
  end.
End F64.

Definition is_nan (x : spec_float) : bool :=
  match x with S754_nan => true | _ => false end.

(** [long] has 32 bits on the platform the effect is built for. *)
Definition LONG_MIN : Z := - 2 ^ 31.
Definition LONG_MAX : Z := 2 ^ 31 - 1.

(** [std::lround]: the nearest integer, halfway cases away from zero.  The
    result is unspecified ([None]) for a NaN, an infinity or a value outside
    [long]. *)
Definition lround (x : spec_float) : option Z :=
  match x with
  | S754_zero _ => Some 0
  | S754_finite s m e =>
      let n := match e with
               | Zneg p =>
                   let d := 2 ^ Zpos p in
                   let q := Zpos m / d in
                   let r := Zpos m mod d in
                   if d <=? 2 * r then q + 1 else q
               | _ => Zpos m * 2 ^ e
               end in
      let v := if s then - n else n in
      if (LONG_MIN <=? v) && (v <=? LONG_MAX) then Some v else None
  | _ => None
  end.

(** [static_cast<uint32_t>] of a [long]. *)
Definition to_uint32 (v : Z) : Z := v mod 2 ^ 32.

(** [std::clamp<uint32_t>] and [std::clamp<float>]:
    [(v < lo) ? lo : (hi < v) ? hi : v]. *)
Definition clamp_u32 (v lo hi : Z) : Z :=
  if v <? lo then lo else if hi <? v then hi else v.
Definition clamp_float (v lo hi : float) : float :=
  if F32.ltb v lo then lo else if F32.ltb hi v then hi else v.

(** Literals of the source. *)
Definition f_0 : float := S754_zero false.
Definition f_1 : float := Eval vm_compute in F32.of_Z 1.
Definition f_4 : float := Eval vm_compute in F32.of_Z 4.
Definition f_half : float := Eval vm_compute in F32.dyadic 1 (-1).
Definition f_1_5 : float := Eval vm_compute in F32.dyadic 3 (-1).
(** [0.01f], and the [double] literal [0.00001] converted to [float]. *)
Definition f_0_01 : float := Eval vm_compute in F32.div (F32.of_Z 1) (F32.of_Z 100).
Definition f_0_00001 : float :=
  Eval vm_compute in F32.of_double (F64.div (F64.of_Z 1) (F64.of_Z 100000)).
Definition d_2 : double := Eval vm_compute in F64.of_Z 2.
Definition d_3 : double := Eval vm_compute in F64.of_Z 3.

(** Modelled from the spec: [::streamfx::util::math::is_close] is declared in
    [util/utility.hpp], which is not among the sources.  The spec reads it as
    "differs by no more than the tolerance" ("differs from the previous one by
    more than 0.01", "equal within 1e-5"). *)
Definition is_close (target value delta : float) : bool :=
  F32.leb (F32.abs (F32.sub target value)) delta.

(* ================================================================= *)
(** ** Supported scale factors *)

(** [static std::vector<float> supported_scale_factors{4. / 3., 1.5, 2., 3., 4.}]:
    each entry is a [double] constant narrowed to [float]. *)
Definition supported_scale_factors : list float :=
  Eval vm_compute in
    [ F32.of_double (F64.div (F64.of_Z 4) (F64.of_Z 3));
      F32.of_double (SFmul F64.prec F64.emax (F64.of_Z 3) (binary_normalize F64.prec F64.emax 1 (-1) false));
      F32.of_double (F64.of_Z 2);
      F32.of_double (F64.of_Z 3);
      F32.of_double (F64.of_Z 4) ].

(** One iteration of the scan of [find_closest_scale_factor]: [minimal] is the
    pair (entry, distance).  The argument of [abs] is a [float], so the call
    is to the [float] overload that [<cmath>] declares. *)
Definition closest_step (factor : float) (minimal : float * float) (delta : float)
  : float * float :=
  let value := F32.abs (F32.sub delta factor) in
  if F32.ltb value (snd minimal) then (delta, value) else minimal.

Definition find_closest_scale_factor (factor : float) : float :=
  fst (fold_left (closest_step factor) supported_scale_factors (f_0, F32.max_value)).

(** The index variant walks [idx] from 0 to [size() - 1]; [minimal] is the
    pair (index, distance). *)
Fixpoint closest_index_loop (factor : float) (rest : list float) (idx : nat)
  (minimal : nat * float) : nat * float :=
  match rest with
  | [] => minimal
  | delta :: rest' =>
      let value := F32.abs (F32.sub delta factor) in
      closest_index_loop factor rest' (S idx)
        (if F32.ltb value (snd minimal) then (idx, value) else minimal)
  end.

Definition find_closest_scale_factor_index (factor : float) : nat :=
  fst (closest_index_loop factor supported_scale_factors 0%nat (0%nat, F32.max_value)).

(* ================================================================= *)
(** ** Buffers, the object and the machine *)

Inductive pixel_format := RGBA | BGR.
Inductive component_type := UINT8 | FP32.
Inductive component_layout := PLANAR | INTERLEAVED.

(** What a buffer was constructed as: a [cv::image] with its format on the
    GPU (batch 1), or a [cv::texture] of a graphics format. *)
Inductive buffer_kind :=
| cv_image (pf : pixel_format) (ct : component_type) (cl : component_layout)
| cv_texture_GS_RGBA_UNORM.

Record buffer := mk_buffer { width : Z; height : Z; kind : buffer_kind }.

(** Modelled from the spec: the [resize(width, height)] member of the image
    and texture wrappers (their sources are not in the repository excerpt)
    resizes in place, preserving the format. *)
Definition buffer_resize (b : buffer) (w h : Z) : buffer :=
  mk_buffer w h (kind b).

Record superresolution := mk_superresolution {
  _dirty : bool;
  _input : option buffer;
  _convert_to_fp32 : option buffer;
  _source : option buffer;
  _destination : option buffer;
  _convert_to_u8 : option buffer;
  _output : option buffer;
  _tmp : option buffer;
  _strength : float;
  _scale : float;
  _cache_input_size : Z * Z;
  _cache_output_size : Z * Z;
  _cache_scale : float
}.

Definition with_dirty (v : bool) (o : superresolution) :=
  mk_superresolution v (_input o) (_convert_to_fp32 o) (_source o) (_destination o)
    (_convert_to_u8 o) (_output o) (_tmp o) (_strength o) (_scale o)
    (_cache_input_size o) (_cache_output_size o) (_cache_scale o).
Definition with_input (v : option buffer) (o : superresolution) :=
  mk_superresolution (_dirty o) v (_convert_to_fp32 o) (_source o) (_destination o)
    (_convert_to_u8 o) (_output o) (_tmp o) (_strength o) (_scale o)
    (_cache_input_size o) (_cache_output_size o) (_cache_scale o).
Definition with_convert_to_fp32 (v : option buffer) (o : superresolution) :=
  mk_superresolution (_dirty o) (_input o) v (_source o) (_destination o)
    (_convert_to_u8 o) (_output o) (_tmp o) (_strength o) (_scale o)
    (_cache_input_size o) (_cache_output_size o) (_cache_scale o).
Definition with_source (v : option buffer) (o : superresolution) :=
  mk_superresolution (_dirty o) (_input o) (_convert_to_fp32 o) v (_destination o)
    (_convert_to_u8 o) (_output o) (_tmp o) (_strength o) (_scale o)
    (_cache_input_size o) (_cache_output_size o) (_cache_scale o).
Definition with_destination (v : option buffer) (o : superresolution) :=
  mk_superresolution (_dirty o) (_input o) (_convert_to_fp32 o) (_source o) v
    (_convert_to_u8 o) (_output o) (_tmp o) (_strength o) (_scale o)
    (_cache_input_size o) (_cache_output_size o) (_cache_scale o).
Definition with_convert_to_u8 (v : option buffer) (o : superresolution) :=
  mk_superresolution (_dirty o) (_input o) (_convert_to_fp32 o) (_source o) (_destination o)
    v (_output o) (_tmp o) (_strength o) (_scale o)
    (_cache_input_size o) (_cache_output_size o) (_cache_scale o).
Definition with_output (v : option buffer) (o : superresolution) :=
  mk_superresolution (_dirty o) (_input o) (_convert_to_fp32 o) (_source o) (_destination o)
    (_convert_to_u8 o) v (_tmp o) (_strength o) (_scale o)
    (_cache_input_size o) (_cache_output_size o) (_cache_scale o).
Definition with_tmp (v : option buffer) (o : superresolution) :=
  mk_superresolution (_dirty o) (_input o) (_convert_to_fp32 o) (_source o) (_destination o)
    (_convert_to_u8 o) (_output o) v (_strength o) (_scale o)
    (_cache_input_size o) (_cache_output_size o) (_cache_scale o).
Definition with_strength (v : float) (o : superresolution) :=
  mk_superresolution (_dirty o) (_input o) (_convert_to_fp32 o) (_source o) (_destination o)
    (_convert_to_u8 o) (_output o) (_tmp o) v (_scale o)
    (_cache_input_size o) (_cache_output_size o) (_cache_scale o).
Definition with_scale (v : float) (o : superresolution) :=
  mk_superresolution (_dirty o) (_input o) (_convert_to_fp32 o) (_source o) (_destination o)
    (_convert_to_u8 o) (_output o) (_tmp o) (_strength o) v
    (_cache_input_size o) (_cache_output_size o) (_cache_scale o).
Definition with_cache_input_size (v : Z * Z) (o : superresolution) :=
  mk_superresolution (_dirty o) (_input o) (_convert_to_fp32 o) (_source o) (_destination o)
    (_convert_to_u8 o) (_output o) (_tmp o) (_strength o) (_scale o)
    v (_cache_output_size o) (_cache_scale o).
Definition with_cache_output_size (v : Z * Z) (o : superresolution) :=
  mk_superresolution (_dirty o) (_input o) (_convert_to_fp32 o) (_source o) (_destination o)
    (_convert_to_u8 o) (_output o) (_tmp o) (_strength o) (_scale o)
    (_cache_input_size o) v (_cache_scale o).
Definition with_cache_scale (v : float) (o : superresolution) :=
  mk_superresolution (_dirty o) (_input o) (_convert_to_fp32 o) (_source o) (_destination o)
    (_convert_to_u8 o) (_output o) (_tmp o) (_strength o) (_scale o)
    (_cache_input_size o) (_cache_output_size o) v.

(** [nvidia::cv::result]: success, or one of the engine's error codes. *)
Inductive cv_result := SUCCESS | FAILURE (code : Z).

Definition is_success (r : cv_result) : bool :=
  match r with SUCCESS => true | FAILURE _ => false end.

Inductive buffer_name :=
| name_input | name_convert_to_fp32 | name_source | name_destination
| name_convert_to_u8 | name_output.

Inductive image_parameter := PARAMETER_INPUT_IMAGE_0 | PARAMETER_OUTPUT_IMAGE_0.

(** The calls into the vendor engine that report a status. *)
Inductive engine_call :=
| call_set_strength (value : Z)
| call_set_image (p : image_parameter) (b : buffer)
| call_load
| call_run
| call_transfer (src dst : buffer_name).

(** A [std::pair<uint32_t, uint32_t>&] argument of [size]: a member of the
    object or a variable of the caller. *)
Inductive pair_ref :=
| ref_cache_input_size
| ref_cache_output_size
| ref_local (n : nat).

Record machine := mk_machine {
  self : superresolution;
  locals : nat -> Z * Z;
  engine : nat -> cv_result;
  trace : list (engine_call * cv_result);
  log : list string
}.

Definition with_self (o : superresolution) (m : machine) :=
  mk_machine o (locals m) (engine m) (trace m) (log m).
Definition with_locals (l : nat -> Z * Z) (m : machine) :=
  mk_machine (self m) l (engine m) (trace m) (log m).
Definition with_trace (t : list (engine_call * cv_result)) (m : machine) :=
  mk_machine (self m) (locals m) (engine m) t (log m).
Definition with_log (l : list string) (m : machine) :=
  mk_machine (self m) (locals m) (engine m) (trace m) l.

Definition read_ref (r : pair_ref) (m : machine) : Z * Z :=
  match r with
  | ref_cache_input_size => _cache_input_size (self m)
  | ref_cache_output_size => _cache_output_size (self m)
  | ref_local n => locals m n
  end.

Definition write_ref (r : pair_ref) (v : Z * Z) (m : machine) : machine :=
  match r with
  | ref_cache_input_size => with_self (with_cache_input_size v (self m)) m
  | ref_cache_output_size => with_self (with_cache_output_size v (self m)) m
  | ref_local n => with_locals (fun k => if Nat.eqb k n then v else locals m k) m
  end.

(* ================================================================= *)
(** ** Outcomes and the state monad of the member functions *)

Inductive outcome (A : Type) :=
| Ok (a : A)
| Throw (what : string)
| Undefined (why : string)
| OutOfFuel.
Arguments Ok {A} a.
Arguments Throw {A} what.
Arguments Undefined {A} why.
Arguments OutOfFuel {A}.

Definition M (A : Type) := machine -> outcome A * machine.

Definition ret {A} (a : A) : M A := fun m => (Ok a, m).
Definition bind {A B} (c : M A) (k : A -> M B) : M B :=
  fun m =>
    match c m with
    | (Ok a, m') => k a m'
    | (Throw w, m') => (Throw w, m')
    | (Undefined w, m') => (Undefined w, m')
    | (OutOfFuel, m') => (OutOfFuel, m')
    end.
Definition throw {A} (what : string) : M A := fun m => (Throw what, m).
Definition undefined {A} (why : string) : M A := fun m => (Undefined why, m).
Definition out_of_fuel {A} : M A := fun m => (OutOfFuel, m).

Declare Scope monad_scope.
Delimit Scope monad_scope with monad.
Notation "x <- c ;; k" := (bind c (fun x => k))
  (at level 61, c at next level, right associativity) : monad_scope.
Notation "c ;; k" := (bind c (fun _ => k))
  (at level 61, right associativity) : monad_scope.
Local Open Scope monad_scope.

Definition gets {A} (f : superresolution -> A) : M A := fun m => (Ok (f (self m)), m).
Definition modify (f : superresolution -> superresolution) : M unit :=
  fun m => (Ok tt, with_self (f (self m)) m).
Definition read (r : pair_ref) : M (Z * Z) := fun m => (Ok (read_ref r m), m).
Definition write (r : pair_ref) (v : Z * Z) : M unit := fun m => (Ok tt, write_ref r v m).
Definition write_first (r : pair_ref) (v : Z) : M unit :=
  fun m => (Ok tt, write_ref r (v, snd (read_ref r m)) m).
Definition write_second (r : pair_ref) (v : Z) : M unit :=
  fun m => (Ok tt, write_ref r (fst (read_ref r m), v) m).
Definition when (b : bool) (c : M unit) : M unit := if b then c else ret tt.

(** A call into the engine: the oracle gives its status, the trace records it. *)
Definition invoke (c : engine_call) : M cv_result :=
  fun m =>
    let res := engine m (List.length (trace m)) in
    (Ok res, with_trace (trace m ++ [(c, res)]) m).

(** [D_LOG_ERROR]. *)
Definition D_LOG_ERROR (line : string) : M unit :=
  fun m => (Ok tt, with_log (log m ++ [line]) m).

Definition lround_checked (x : spec_float) : M Z :=
  match lround x with
  | Some v => ret v
  | None => undefined "lround: result is not representable"
  end.

(** Dereferencing a [std::shared_ptr] member. *)
Definition deref (p : option buffer) : M buffer :=
  match p with
  | Some b => ret b
  | None => undefined "null pointer dereference"
  end.

(* ================================================================= *)
(** ** The member functions *)

(** [strength = (strength >= .5f) ? 1.f : 0.f]. *)
Definition binarize (strength : float) : float :=
  if F32.leb f_half strength then f_1 else f_0.

Definition set_strength (strength : float) : M unit :=
  let strength := binarize strength in
  (* std::swap(_strength, strength) *)
  previous <- gets _strength ;;
  modify (with_strength strength) ;;
  (* If anything was changed, flag the effect as dirty. *)
  current <- gets _strength ;;
  when (negb (is_close current previous f_0_01)) (modify (with_dirty true)) ;;
  (* Update Effect *)
  current <- gets _strength ;;
  let value := if F32.leb f_half current then 1 else 0 in
  res <- invoke (call_set_strength value) ;;
  when (negb (is_success res)) (D_LOG_ERROR "Failed to set '%s' to %lu.").

Definition strength : M float := gets _strength.

Definition set_scale (scale : float) : M unit :=
  (* Limit to acceptable range. *)
  let scale := clamp_float scale f_1 f_4 in
  (* Match to nearest scale. *)
  let factor := find_closest_scale_factor scale in
  (* If anything was changed, flag the effect as dirty. *)
  current <- gets _scale ;;
  when (negb (is_close current factor f_0_01)) (modify (with_dirty true)) ;;
  (* Save new scale factor. *)
  modify (with_scale factor).

Definition scale : M float := gets _scale.

Definition min_width : Z := 160.
Definition min_height : Z := 90.

(** The upper boundaries for the resolution, by [_scale]. *)
Definition max_size (scale : float) : Z * Z :=
  if F64.ltb d_3 (F64.of_float scale) then (960, 540)
  else if F64.ltb d_2 (F64.of_float scale) then (1280, 720)
  else (1920, 1080).

(** The check that opens [size]: it compares the pair behind [input_size]
    with the cached input size, and [_scale] with the cached scale. *)
Definition cache_matches (input_size : pair_ref) : M bool :=
  i <- read input_size ;;
  c <- gets _cache_input_size ;;
  s <- gets _scale ;;
  cs <- gets _cache_scale ;;
  ret ((fst i =? fst c) && (snd i =? snd c) && F32.eqb s cs).

Definition return_cached (input_size output_size : pair_ref) : M unit :=
  ci <- gets _cache_input_size ;;
  write input_size ci ;;
  co <- gets _cache_output_size ;;
  write output_size co ;;
  cs <- gets _cache_scale ;;
  modify (with_scale cs).

(** "Calculate Input Size". *)
Definition calculate_input_size (input_size : pair_ref) (max_width max_height : Z) : M unit :=
  i <- read input_size ;;
  if snd i <? fst i then
    (* Dominant Width *)
    let ar := F64.div (F64.of_Z (snd i)) (F64.of_Z (fst i)) in
    write_first input_size (clamp_u32 (fst i) min_width max_width) ;;
    i <- read input_size ;;
    r <- lround_checked (F64.mul (F64.of_Z (fst i)) ar) ;;
    write_second input_size (clamp_u32 (to_uint32 r) min_height max_height)
  else
    (* Dominant Height *)
    let ar := F64.div (F64.of_Z (fst i)) (F64.of_Z (snd i)) in
    write_second input_size (clamp_u32 (snd i) min_height max_height) ;;
    i <- read input_size ;;
    r <- lround_checked (F64.mul (F64.of_Z (snd i)) ar) ;;
    write_first input_size (clamp_u32 (to_uint32 r) min_width max_width).

(** "Calculate Output Size". *)
Definition calculate_output_size (input_size output_size : pair_ref) : M unit :=
  i <- read input_size ;;
  s <- gets _scale ;;
  r <- lround_checked (F32.mul (F32.of_Z (fst i)) s) ;;
  write_first output_size (to_uint32 r) ;;
  i <- read input_size ;;
  s <- gets _scale ;;
  r <- lround_checked (F32.mul (F32.of_Z (snd i)) s) ;;
  write_second output_size (to_uint32 r).

(** "Verify that this is a valid scale factor": both ratios are close to
    [_scale]. *)
Definition scale_is_valid (input_size output_size : pair_ref) : M bool :=
  o <- read output_size ;;
  i <- read input_size ;;
  let width_mul := F32.div (F32.of_Z (fst o)) (F32.of_Z (fst i)) in
  let height_mul := F32.div (F32.of_Z (snd o)) (F32.of_Z (snd i)) in
  s <- gets _scale ;;
  ret (is_close width_mul s f_0_00001 && is_close height_mul s f_0_00001).

(** "Update last stored values". *)
Definition update_cache (input_size output_size : pair_ref) : M unit :=
  i <- read input_size ;;
  modify (with_cache_input_size i) ;;
  o <- read output_size ;;
  modify (with_cache_output_size o) ;;
  s <- gets _scale ;;
  modify (with_cache_scale s).

(** One pass of the negotiation, from "Define lower and upper boundaries for
    resolution" to "Calculate Output Size". *)
Definition negotiate_once (size_ref input_size output_size : pair_ref) : M unit :=
  (* Define lower and upper boundaries for resolution. *)
  s <- gets _scale ;;
  let max_width := fst (max_size s) in
  let max_height := snd (max_size s) in
  (* Restore Input Size *)
  r <- read size_ref ;;
  write_first input_size (fst r) ;;
  r <- read size_ref ;;
  write_second input_size (snd r) ;;
  calculate_input_size input_size max_width max_height ;;
  calculate_output_size input_size output_size.

(** [size] calls itself on a failed verification; [fuel] bounds the depth of
    the recursion ([size_rec_terminates] shows that [size_fuel] is never used
    up).  Reading [supported_scale_factors[scale_idx + 1]] past the end of the
    vector is undefined behaviour. *)
Fixpoint size_rec (fuel : nat) (size_ref input_size output_size : pair_ref) : M unit :=
  match fuel with
  | O => out_of_fuel
  | S fuel' =>
      (* Check if the size has actually changed at all. *)
      hit <- cache_matches input_size ;;
      if hit then return_cached input_size output_size
      else
        negotiate_once size_ref input_size output_size ;;
        (* Verify that this is a valid scale factor. *)
        valid <- scale_is_valid input_size output_size ;;
        when (negb valid)
          (s <- gets _scale ;;
           let scale_idx := find_closest_scale_factor_index s in
           when (Nat.ltb scale_idx (List.length supported_scale_factors))
             (match nth_error supported_scale_factors (scale_idx + 1) with
              | None => undefined "supported_scale_factors: index out of range"
              | Some next =>
                  modify (with_scale next) ;;
                  size_rec fuel' size_ref input_size output_size
              end)) ;;
        (* Update last stored values. *)
        update_cache input_size output_size
  end.

Definition size_fuel : nat := S (List.length supported_scale_factors).

Definition size (size_ref input_size output_size : pair_ref) : M unit :=
  size_rec size_fuel size_ref input_size output_size.

(** One block of [resize]: the buffer is allocated when there is none, and
    resized in place when a dimension differs.  The result says whether the
    block was entered. *)
Definition ensure_buffer (k : buffer_kind) (wh : Z * Z) (cur : option buffer)
  : option buffer * bool :=
  match cur with
  | None => (Some (mk_buffer (fst wh) (snd wh) k), true)
  | Some b =>
      if negb (width b =? fst wh) || negb (height b =? snd wh)
      then (Some (buffer_resize b (fst wh) (snd wh)), true)
      else (Some b, false)
  end.

(** The pattern around every engine call but the one of [set_strength]:
    [if (auto res = call; res != SUCCESS) { D_LOG_ERROR(line); throw
    std::runtime_error(what); }]. *)
Definition checked (c : engine_call) (line what : string) : M unit :=
  res <- invoke c ;;
  if is_success res then ret tt
  else D_LOG_ERROR line ;; throw what.

Definition set_image (p : image_parameter) (b : option buffer) (line : string) : M unit :=
  b <- deref b ;;
  checked (call_set_image p b) line "SetImage failed.".

(** The blocks of [resize], one per buffer, in the order of the source. *)
Definition ensure_tmp : M unit :=
  tmp <- gets _tmp ;;
  out <- gets _cache_output_size ;;
  when (match tmp with None => true | Some _ => false end)
    (modify (with_tmp (Some (mk_buffer (fst out) (snd out) (cv_image RGBA UINT8 PLANAR))))).

Definition ensure_input : M unit :=
  i <- gets _cache_input_size ;;
  b <- gets _input ;;
  modify (with_input (fst (ensure_buffer cv_texture_GS_RGBA_UNORM i b))).

Definition ensure_convert_to_fp32 : M unit :=
  i <- gets _cache_input_size ;;
  b <- gets _convert_to_fp32 ;;
  modify (with_convert_to_fp32 (fst (ensure_buffer (cv_image RGBA FP32 PLANAR) i b))).

Definition ensure_source : M unit :=
  i <- gets _cache_input_size ;;
  b <- gets _source ;;
  let e := ensure_buffer (cv_image BGR FP32 PLANAR) i b in
  when (snd e)
    (modify (with_source (fst e)) ;;
     set_image PARAMETER_INPUT_IMAGE_0 (fst e) "Failed to set input image due to error: %s" ;;
     modify (with_dirty true)).

Definition ensure_destination : M unit :=
  o <- gets _cache_output_size ;;
  b <- gets _destination ;;
  let e := ensure_buffer (cv_image BGR FP32 PLANAR) o b in
  when (snd e)
    (modify (with_destination (fst e)) ;;
     set_image PARAMETER_OUTPUT_IMAGE_0 (fst e) "Failed to set output image due to error: %s" ;;
     modify (with_dirty true)).

Definition ensure_convert_to_u8 : M unit :=
  o <- gets _cache_output_size ;;
  b <- gets _convert_to_u8 ;;
  modify (with_convert_to_u8 (fst (ensure_buffer (cv_image RGBA UINT8 INTERLEAVED) o b))).

Definition ensure_output : M unit :=
  o <- gets _cache_output_size ;;
  b <- gets _output ;;
  modify (with_output (fst (ensure_buffer cv_texture_GS_RGBA_UNORM o b))).

Definition resize (width height : Z) : M unit :=
  modify (with_cache_input_size (width, height)) ;;
  size ref_cache_input_size ref_cache_input_size ref_cache_output_size ;;
  ensure_tmp ;;
  ensure_input ;;
  ensure_convert_to_fp32 ;;
  ensure_source ;;
  ensure_destination ;;
  ensure_convert_to_u8 ;;
  ensure_output.

Definition load : M unit :=
  checked call_load "Failed to initialize effect due to error: %s" "Load failed." ;;
  modify (with_dirty false).

Definition transfer (src dst : buffer_name) (line : string) : M unit :=
  checked (call_transfer src dst) line "Transfer failed.".

(** The conversions and the inference of one frame, once the buffers are in
    place and the effect is loaded; the result is the output texture. *)
Definition convert_and_run : M buffer :=
  (* Copy parameter to input. *)
  b <- gets _input ;;
  deref b ;;
  (* Convert Input to Source format *)
  transfer name_input name_convert_to_fp32
    "Failed to transfer processing result to output due to error: %s" ;;
  (* Copy input to source. *)
  transfer name_convert_to_fp32 name_source
    "Failed to transfer input to processing source due to error: %s" ;;
  (* Process source to destination. *)
  checked call_run "Failed to process due to error: %s" "Run failed." ;;
  (* Convert Destination to Output format *)
  transfer name_destination name_convert_to_u8
    "Failed to transfer processing result to output due to error: %s" ;;
  (* Copy destination to output. *)
  transfer name_convert_to_u8 name_output
    "Failed to transfer processing result to output due to error: %s" ;;
  (* Return output. *)
  b <- gets _output ;;
  deref b.

(** [process]: the input texture is given by its dimensions. *)
Definition process (in_width in_height : Z) : M buffer :=
  (* Resize if the size or scale was changed. *)
  resize in_width in_height ;;
  (* Reload effect if dirty. *)
  dirty <- gets _dirty ;;
  when dirty load ;;
  convert_and_run.

(** The members as the constructor's initialiser list leaves them. *)
Definition initial : superresolution :=
  mk_superresolution true None None None None None None None
    f_1 f_1_5 (0, 0) (0, 0) f_0.

Definition constructor : M unit :=
  s <- gets _strength ;;
  set_strength s ;;
  s <- gets _scale ;;
  set_scale s ;;
  resize 160 90 ;;
  load.

(** A machine about to run the constructor, over a given engine. *)
Definition boot (e : nat -> cv_result) : machine :=
  mk_machine initial (fun _ => (0, 0)) e [] [].

Definition healthy : nat -> cv_result := fun _ => SUCCESS.

(* ================================================================= *)
(** ** Specification vocabulary *)

(** How a run ended, whatever its result type. *)
Inductive status := st_ok | st_throw | st_undefined | st_out_of_fuel.

Definition status_of {A} (r : outcome A) : status :=
  match r with
  | Ok _ => st_ok
  | Throw _ => st_throw
  | Undefined _ => st_undefined
  | OutOfFuel => st_out_of_fuel
  end.

(** A property of runs, relating the machine before, the way the run ended
    and the machine after. *)
Definition run_property := machine -> status -> machine -> Prop.

Definition satisfies (Q : run_property) {A} (c : M A) : Prop :=
  forall m, Q m (status_of (fst (c m))) (snd (c m)).

(** Properties that hold of an empty run and compose along a sequence can be
    checked statement by statement. *)
Class Sequential (Q : run_property) : Prop := {
  seq_ret : forall m, Q m st_ok m;
  seq_bind : forall m1 m2 m3 s, Q m1 st_ok m2 -> Q m2 s m3 -> Q m1 s m3
}.

(** What [size] leaves alone: everything but the cached sizing, [_scale] and
    the caller's pairs. *)
Definition size_frame : run_property := fun m _ m' =>
  _dirty (self m') = _dirty (self m) /\
  _input (self m') = _input (self m) /\
  _convert_to_fp32 (self m') = _convert_to_fp32 (self m) /\
  _source (self m') = _source (self m) /\
  _destination (self m') = _destination (self m) /\
  _convert_to_u8 (self m') = _convert_to_u8 (self m) /\
  _output (self m') = _output (self m) /\
  _tmp (self m') = _tmp (self m) /\
  _strength (self m') = _strength (self m) /\
  engine m' = engine m /\ trace m' = trace m /\ log m' = log m.

Definition keeps_tmp : run_property := fun m _ m' =>
  forall b, _tmp (self m) = Some b -> _tmp (self m') = Some b.

Definition keeps_dirty : run_property := fun m _ m' =>
  _dirty (self m) = true -> _dirty (self m') = true.

Definition keeps_scale : run_property := fun m _ m' =>
  _scale (self m') = _scale (self m).

Definition never_throws : run_property := fun _ s _ => s <> st_throw.

Definition never_out_of_fuel : run_property := fun _ s _ => s <> st_out_of_fuel.

(** The engine calls whose failure the source answers with an exception. *)
Definition raising (c : engine_call) : bool :=
  match c with call_set_strength _ => false | _ => true end.

Definition failed (ev : engine_call * cv_result) : bool :=
  raising (fst ev) && negb (is_success (snd ev)).

Definition all_passed (evs : list (engine_call * cv_result)) : Prop :=
  forallb (fun ev => negb (failed ev)) evs = true.

(** The run extends the trace; it throws exactly when its last engine call
    failed, every call before having passed. *)
Definition throws_at_failure : run_property := fun m s m' =>
  engine m' = engine m /\
  exists evs, trace m' = trace m ++ evs /\
    match s with
    | st_throw => exists evs0 ev, evs = evs0 ++ [ev] /\ all_passed evs0 /\ failed ev = true
    | _ => all_passed evs
    end.

(** Every failing call of a raising kind made during the run ends the run
    in an exception, and is the last call the run makes. *)
Definition aborts_on_engine_failure {A} (op : M A) : Prop :=
  forall m, exists evs,
    trace (snd (op m)) = trace m ++ evs /\
    forall c res, In (c, res) evs -> raising c = true -> is_success res = false ->
      (exists what, fst (op m) = Throw what) /\ exists evs0, evs = evs0 ++ [(c, res)].

(** A run that finds the dirty flag set and leaves it clear made a
    successful load call. *)
Definition cleared_by_load : run_property := fun m _ m' =>
  exists evs, trace m' = trace m ++ evs /\
    (_dirty (self m) = true -> _dirty (self m') = false -> In (call_load, SUCCESS) evs).

(** The buffer exists and has the given dimensions. *)
Definition sized (p : option buffer) (wh : Z * Z) : Prop :=
  exists b, p = Some b /\ width b = fst wh /\ height b = snd wh.

(** Arguments used in examples: [0.3f] and [2.f]. *)
Definition f_0_3 : float := Eval vm_compute in F32.div (F32.of_Z 3) (F32.of_Z 10).
Definition f_2 : float := Eval vm_compute in F32.of_Z 2.

(** Engines for examples: one whose n-th call fails, one that refuses
    everything. *)
Definition fails_at (n : nat) : nat -> cv_result :=
  fun k => if Nat.eqb k n then FAILURE 1 else SUCCESS.
Definition always_fails : nat -> cv_result := fun _ => FAILURE 1.

(** The [double] 1. *)
Definition d_1 : double := Eval vm_compute in F64.of_Z 1.

(** The value of a finite binary32 number in units of 2^-149, the smallest
    positive binary32 number: an integer. *)
Definition scaled (x : float) : Z :=
  match x with
  | S754_finite s m e => (if s then -1 else 1) * (Zpos m * 2 ^ (e + 149))
  | _ => 0
  end.

(** The exact distance between two binary32 numbers, in the same units. *)
Definition distance (a b : float) : Z := Z.abs (scaled a - scaled b).

(** [r] is the entry of the list nearest to [c], the earliest one among
    those at the least distance. *)
Definition nearest_supported (c r : float) : Prop :=
  exists i, nth_error supported_scale_factors i = Some r /\
    forall j e, nth_error supported_scale_factors j = Some e ->
      distance r c <= distance e c /\ ((j < i)%nat -> distance r c < distance e c).

(** Zero, or a positive normal number in canonical form. *)
Definition regular (x : float) : Prop :=
  match x with
  | S754_zero _ => True
  | S754_finite false m e => Zpos (digits2_pos m) = 24 /\ -149 <= e
  | _ => False
  end.

(** A binary32 number between 1 and 4, in canonical form. *)
Definition in_range (x : float) : Prop :=
  match x with
  | S754_finite false m e =>
      Zpos (digits2_pos m) = 24 /\ -23 <= e <= -21 /\ (e = -21 -> m = 8388608%positive)
  | _ => False
  end.

(** What a setter of the scale leaves alone: the buffers, the cached sizing,
    the strength, the caller's variables and the engine with its trace and
    log. *)
Definition setter_frame (m m' : machine) : Prop :=
  _input (self m') = _input (self m) /\
  _convert_to_fp32 (self m') = _convert_to_fp32 (self m) /\
  _source (self m') = _source (self m) /\
  _destination (self m') = _destination (self m) /\
  _convert_to_u8 (self m') = _convert_to_u8 (self m) /\
  _output (self m') = _output (self m) /\
  _tmp (self m') = _tmp (self m) /\
  _strength (self m') = _strength (self m) /\
  _cache_input_size (self m') = _cache_input_size (self m) /\
  _cache_output_size (self m') = _cache_output_size (self m) /\
  _cache_scale (self m') = _cache_scale (self m) /\
  locals m' = locals m /\ engine m' = engine m /\ trace m' = trace m /\ log m' = log m.

Definition f_2_5 : float := Eval vm_compute in F32.dyadic 5 (-1).

(** The object as the constructor leaves it over an engine that accepts
    every call: sized for 160x90 at scale 1.5, loaded and clean. *)
Definition constructed : machine := snd (constructor (boot healthy)).

(** The bounds of the negotiated input size, by the scale in force. *)
Definition within_bounds (s : float) (input : Z * Z) : bool :=
  (min_width <=? fst input) && (fst input <=? fst (max_size s)) &&
  (min_height <=? snd input) && (snd input <=? snd (max_size s)).

(** A caller of [size] that holds the request in its first pair. *)
Definition caller (request : Z * Z) : machine :=
  with_locals (fun k => if Nat.eqb k 0 then request else (0, 0)) (boot healthy).

(** The object after the constructor and [set_scale(x)], with a caller that
    holds the request. *)
Definition prepared (x : float) (request : Z * Z) : machine :=
  snd ((constructor ;; set_scale x) (caller request)).

(** At scale 4, asked for 1280x720. *)
Definition at_scale_4 : machine := prepared f_4 (1280, 720).

(** The values [set_scale] can leave in [_scale]: a supported factor, or the
    0 that the scan of [find_closest_scale_factor] starts from. *)
Definition storable (s : float) : Prop := In s supported_scale_factors \/ s = f_0.

(** The verification of one axis, for an input dimension [n] at scale [s]:
    the rounded output dimension over [n] is close to [s]. *)
Definition axis_verifies (s : float) (n : Z) : bool :=
  match lround (F32.mul (F32.of_Z n) s) with
  | Some v => is_close (F32.div (F32.of_Z (to_uint32 v)) (F32.of_Z n)) s f_0_00001
  | None => false
  end.

(** The storable scales whose product with a dimension is an integer: 0, 2,
    3 and 4. *)
Definition whole_scales : list float := f_0 :: skipn 2 supported_scale_factors.

(** How a run ends that reads [supported_scale_factors] past its end. *)
Definition out_of_range : outcome unit :=
  Undefined "supported_scale_factors: index out of range".

(** The verification of [size] as a function of a sizing: both ratios of
    output to input are close to the scale. *)
Definition valid_sizing (input output : Z * Z) (s : float) : bool :=
  is_close (F32.div (F32.of_Z (fst output)) (F32.of_Z (fst input))) s f_0_00001 &&
  is_close (F32.div (F32.of_Z (snd output)) (F32.of_Z (snd input))) s f_0_00001.

(** The cached sizing passes the verification. *)
Definition cache_valid (m : machine) : Prop :=
  valid_sizing (_cache_input_size (self m)) (_cache_output_size (self m))
    (_cache_scale (self m)) = true.

(** The sizing behind the caller's pairs passes the verification at the
    scale in force. *)
Definition answer_valid (i o : pair_ref) (m : machine) : Prop :=
  valid_sizing (read_ref i m) (read_ref o m) (_scale (self m)) = true.

(** What the buffer blocks of [resize] leave alone: the sizing, cached and in
    force. *)
Definition keeps_sizing : run_property := fun m _ m' =>
  _cache_input_size (self m') = _cache_input_size (self m) /\
  _cache_output_size (self m') = _cache_output_size (self m) /\
  _scale (self m') = _scale (self m) /\
  _cache_scale (self m') = _cache_scale (self m).

(** The buffer blocks of [resize], all that follows the call of [size]. *)
Definition ensure_buffers : M unit :=
  ensure_tmp ;;
  ensure_input ;;
  ensure_convert_to_fp32 ;;
  ensure_source ;;
  ensure_destination ;;
  ensure_convert_to_u8 ;;
  ensure_output.

(** The engine calls of one frame, in the order [process] makes them. *)
Definition frame_calls : list engine_call :=
  [ call_transfer name_input name_convert_to_fp32;
    call_transfer name_convert_to_fp32 name_source;
    call_run;
    call_transfer name_destination name_convert_to_u8;
    call_transfer name_convert_to_u8 name_output ].

(** A run of calls that all succeeded. *)
Definition passed (calls : list engine_call) : list (engine_call * cv_result) :=
  map (fun c => (c, SUCCESS)) calls.

(** The object as a completed [resize] leaves it: the cached scale is the
    scale in force, a number; the scratch buffer exists; the other six
    buffers have the dimensions of their size class. *)
Definition sized_up (m : machine) : Prop :=
  _cache_scale (self m) = _scale (self m) /\
  F32.eqb (_scale (self m)) (_scale (self m)) = true /\
  (exists b, _tmp (self m) = Some b) /\
  sized (_input (self m)) (_cache_input_size (self m)) /\
  sized (_convert_to_fp32 (self m)) (_cache_input_size (self m)) /\
  sized (_source (self m)) (_cache_input_size (self m)) /\
  sized (_destination (self m)) (_cache_output_size (self m)) /\
  sized (_convert_to_u8 (self m)) (_cache_output_size (self m)) /\
  sized (_output (self m)) (_cache_output_size (self m)).

(** The set-image call that binds a buffer, if there is one. *)
Definition binding (p : image_parameter) (b : option buffer) (entered : bool)
  : list (engine_call * cv_result) :=
  match b with
  | Some b => if entered then [(call_set_image p b, SUCCESS)] else []
  | None => []
  end.

(** What the blocks of the buffers that are not bound to the engine leave
    alone. *)
Definition keeps_binding : run_property := fun m s m' =>
  _source (self m') = _source (self m) /\
  _destination (self m') = _destination (self m) /\
  _dirty (self m') = _dirty (self m) /\
  trace m' = trace m /\
  keeps_sizing m s m'.

(** The engine calls of the constructor over an engine that accepts the
    images and the load; the status of the strength call is the engine's. *)
Definition constructor_calls (strength_status : cv_result) : list (engine_call * cv_result) :=
  [ (call_set_strength 1, strength_status);
    (call_set_image PARAMETER_INPUT_IMAGE_0 (mk_buffer 160 90 (cv_image BGR FP32 PLANAR)), SUCCESS);
    (call_set_image PARAMETER_OUTPUT_IMAGE_0 (mk_buffer 240 135 (cv_image BGR FP32 PLANAR)), SUCCESS);
    (call_load, SUCCESS) ].

(** The supported scale factors as fractions, in the order of the table. *)
Definition ratios : list (Z * Z) := [(4, 3); (3, 2); (2, 1); (3, 1); (4, 1)].

(** For a dimension [n] that the denominator divides: the output dimension
    at scale [s] is [n] times the fraction, and the ratio verifies. *)
Definition fits (s : float) (pq : Z * Z) (n : Z) : bool :=
  negb (n mod snd pq =? 0) ||
  match lround (F32.mul (F32.of_Z n) s) with
  | Some v => (v =? fst pq * n / snd pq) &&
      is_close (F32.div (F32.of_Z (fst pq * n / snd pq)) (F32.of_Z n)) s f_0_00001
  | None => false
  end.

(** The pairs that [size] can be given as [input_size] and [output_size]
    without one standing for the cache member of the other. *)
Definition proper_pairs (i o : pair_ref) : Prop :=
  i <> o /\ i <> ref_cache_output_size /\ o <> ref_cache_input_size.

(* ================================================================= *)
(** ** Run properties compose *)

#[global] Instance size_frame_seq : Sequential size_frame.
Proof. split; unfold size_frame; intuition congruence. Qed.
#[global] Instance keeps_tmp_seq : Sequential keeps_tmp.
Proof. split; unfold keeps_tmp; auto. Qed.
#[global] Instance keeps_dirty_seq : Sequential keeps_dirty.
Proof. split; unfold keeps_dirty; auto. Qed.
#[global] Instance keeps_scale_seq : Sequential keeps_scale.
Proof. split; unfold keeps_scale; congruence. Qed.
#[global] Instance never_throws_seq : Sequential never_throws.
Proof. split; unfold never_throws; auto; discriminate. Qed.
#[global] Instance never_out_of_fuel_seq : Sequential never_out_of_fuel.
Proof. split; unfold never_out_of_fuel; auto; discriminate. Qed.

Lemma all_passed_app evs1 evs2 :
  all_passed (evs1 ++ evs2) <-> all_passed evs1 /\ all_passed evs2.
Proof. unfold all_passed. rewrite forallb_app, andb_true_iff. tauto. Qed.

#[global] Instance throws_at_failure_seq : Sequential throws_at_failure.
Proof.
  split.
  - intros m. split; [reflexivity|]. exists []. rewrite app_nil_r. split; reflexivity.
  - intros m1 m2 m3 s [E1 (evs1 & T1 & P1)] [E2 (evs2 & T2 & P2)].
    split; [congruence|]. exists (evs1 ++ evs2).
    split; [rewrite T2, T1, app_assoc; reflexivity|].
    destruct s; try (apply all_passed_app; split; assumption).
    destruct P2 as (evs0 & ev & -> & P0 & F).
    exists (evs1 ++ evs0), ev. rewrite app_assoc. repeat split; auto.
    apply all_passed_app; split; assumption.
Qed.

(* ================================================================= *)
(** ** Reasoning about runs *)

Lemma bind_run {A B} (c : M A) (k : A -> M B) m :
  bind c k m =
    match fst (c m) with
    | Ok a => k a (snd (c m))
    | Throw w => (Throw w, snd (c m))
    | Undefined w => (Undefined w, snd (c m))
    | OutOfFuel => (OutOfFuel, snd (c m))
    end.
Proof. unfold bind. destruct (c m) as [[a|w|w|] m']; reflexivity. Qed.

Lemma bind_ok {A B} (c : M A) (k : A -> M B) m a m' :
  c m = (Ok a, m') -> bind c k m = k a m'.
Proof. intros H. unfold bind. rewrite H. reflexivity. Qed.

Lemma bind_ok_inv {A B} (c : M A) (k : A -> M B) m b m' :
  bind c k m = (Ok b, m') ->
  exists a m1, c m = (Ok a, m1) /\ k a m1 = (Ok b, m').
Proof.
  unfold bind. destruct (c m) as [[a|w|w|] m1]; intros H; try discriminate.
  exists a, m1. auto.
Qed.

Section Sequencing.
Context (Q : run_property) `{Sequential Q}.

Lemma satisfies_ret {A} (a : A) : satisfies Q (ret a).
Proof. intros m. apply seq_ret. Qed.

Lemma satisfies_bind {A B} (c : M A) (k : A -> M B) :
  satisfies Q c -> (forall a, satisfies Q (k a)) -> satisfies Q (bind c k).
Proof.
  intros Hc Hk m. rewrite bind_run. specialize (Hc m).
  destruct (fst (c m)) as [a|w|w|]; cbn in *; auto.
  eapply seq_bind; [exact Hc | apply Hk].
Qed.

Lemma satisfies_when b (c : M unit) : satisfies Q c -> satisfies Q (when b c).
Proof. destruct b; cbn; auto using satisfies_ret. Qed.

Lemma satisfies_gets {A} (f : superresolution -> A) : satisfies Q (gets f).
Proof. intros m. apply seq_ret. Qed.

Lemma satisfies_read r : satisfies Q (read r).
Proof. intros m. apply seq_ret. Qed.
End Sequencing.

Ltac unfold_blocks :=
  repeat progress unfold cache_matches, return_cached, calculate_input_size,
    calculate_output_size, scale_is_valid, update_cache, negotiate_once,
    set_image, transfer, ensure_tmp, ensure_input, ensure_convert_to_fp32,
    ensure_source, ensure_destination, ensure_convert_to_u8, ensure_output,
    load, checked, lround_checked, deref in *.

Ltac unfold_monad :=
  unfold bind, ret, gets, modify, read, write, write_first, write_second, when,
    invoke, D_LOG_ERROR, throw, undefined, out_of_fuel in *.

Ltac destruct_innermost :=
  match goal with
  | |- context [match ?x with _ => _ end] =>
      lazymatch x with
      | context [match _ with _ => _ end] => fail
      | _ => destruct x eqn:?
      end
  end.

Ltac unfold_properties :=
  unfold size_frame, keeps_tmp, keeps_dirty, keeps_scale, never_throws,
    never_out_of_fuel.

(** A statement without inner calls: run it. *)
Ltac satisfies_leaf :=
  let m := fresh "m" in
  intro m;
  unfold_properties; unfold_blocks; unfold_monad; unfold write_ref;
  repeat destruct_innermost;
  cbn; intuition (try discriminate; try congruence).

Ltac satisfies_step :=
  match goal with
  | |- satisfies _ (bind _ _) => apply satisfies_bind; [typeclasses eauto | | intro]
  | |- satisfies _ (when _ _) => apply satisfies_when; [typeclasses eauto | ]
  | |- satisfies _ (ret _) => apply satisfies_ret; typeclasses eauto
  | |- satisfies _ (gets _) => apply satisfies_gets; typeclasses eauto
  | |- satisfies _ (read _) => apply satisfies_read; typeclasses eauto
  | |- satisfies _ (if ?b then _ else _) => destruct b
  | |- satisfies _ (match ?x with _ => _ end) => destruct x
  | |- satisfies _ (let _ := _ in _) => cbv zeta
  end.

Ltac satisfies_auto :=
  repeat first
    [ solve [auto 1]
    | satisfies_step
    | progress unfold cache_matches, return_cached, calculate_input_size,
        calculate_output_size, scale_is_valid, update_cache, negotiate_once
    | satisfies_leaf ].

Lemma size_rec_frame fuel sz i o : satisfies size_frame (size_rec fuel sz i o).
Proof.
  induction fuel as [|fuel IH]; cbn [size_rec]; satisfies_auto.
Qed.

Lemma size_rec_never_throws fuel sz i o : satisfies never_throws (size_rec fuel sz i o).
Proof.
  induction fuel as [|fuel IH]; cbn [size_rec]; satisfies_auto.
Qed.

Lemma size_keeps_tmp sz i o : satisfies keeps_tmp (size sz i o).
Proof.
  intros m b Hb.
  destruct (size_rec_frame size_fuel sz i o m) as (_ & _ & _ & _ & _ & _ & _ & H & _).
  unfold size. congruence.
Qed.

Lemma size_keeps_dirty sz i o : satisfies keeps_dirty (size sz i o).
Proof.
  intros m Hb.
  destruct (size_rec_frame size_fuel sz i o m) as (H & _).
  unfold size. congruence.
Qed.

Lemma size_throws_at_failure sz i o : satisfies throws_at_failure (size sz i o).
Proof.
  intros m.
  destruct (size_rec_frame size_fuel sz i o m) as (_ & _ & _ & _ & _ & _ & _ & _ & _ & E & T & _).
  pose proof (size_rec_never_throws size_fuel sz i o m) as N.
  unfold size, never_throws in *. split; [exact E|].
  exists []. rewrite app_nil_r. split; [exact T|].
  destruct (status_of _); try reflexivity. congruence.
Qed.

Lemma resize_keeps_tmp w h : satisfies keeps_tmp (resize w h).
Proof.
  pose proof size_keeps_tmp. unfold resize. satisfies_auto.
Qed.

Lemma resize_keeps_dirty w h : satisfies keeps_dirty (resize w h).
Proof.
  pose proof size_keeps_dirty. unfold resize. satisfies_auto.
Qed.

Lemma process_keeps_tmp w h : satisfies keeps_tmp (process w h).
Proof.
  pose proof (resize_keeps_tmp w h). unfold process, convert_and_run. satisfies_auto.
Qed.

Lemma checked_throws_at_failure c line what :
  raising c = true -> satisfies throws_at_failure (checked c line what).
Proof.
  intros Hc m. unfold checked. unfold_monad. cbn.
  destruct (is_success (engine m (List.length (trace m)))) eqn:E; cbn.
  - split; [reflexivity|]. eexists; split; [reflexivity|].
    unfold all_passed, failed; cbn. rewrite E. cbn. rewrite andb_false_r. reflexivity.
  - split; [reflexivity|]. eexists; split; [reflexivity|].
    exists [], (c, engine m (List.length (trace m))). repeat split.
    unfold failed; cbn. rewrite Hc, E. reflexivity.
Qed.

Lemma modify_throws_at_failure f : satisfies throws_at_failure (modify f).
Proof.
  intros m. split; [reflexivity|]. exists []. cbn. rewrite app_nil_r. split; reflexivity.
Qed.

(** A statement that calls nothing and throws nothing leaves the trace as
    it is. *)
Ltac silent_leaf :=
  let m := fresh "m" in
  intro m; unfold throws_at_failure;
  unfold_monad; unfold write_ref, lround_checked, deref;
  unfold_monad; cbn;
  repeat (destruct_innermost; cbn);
  (split; [reflexivity | exists []; rewrite app_nil_r; split; reflexivity]).

Ltac throws_at_failure_auto :=
  repeat first
    [ solve [auto 1]
    | apply checked_throws_at_failure; reflexivity
    | satisfies_step
    | progress unfold set_image, transfer, ensure_tmp, ensure_input,
        ensure_convert_to_fp32, ensure_source, ensure_destination,
        ensure_convert_to_u8, ensure_output, load
    | silent_leaf ].

Lemma resize_throws_at_failure w h : satisfies throws_at_failure (resize w h).
Proof.
  pose proof size_throws_at_failure. unfold resize. throws_at_failure_auto.
Qed.

Lemma load_throws_at_failure : satisfies throws_at_failure load.
Proof. throws_at_failure_auto. Qed.

Lemma convert_and_run_throws_at_failure : satisfies throws_at_failure convert_and_run.
Proof. unfold convert_and_run. throws_at_failure_auto. Qed.

Lemma process_throws_at_failure w h : satisfies throws_at_failure (process w h).
Proof.
  pose proof (resize_throws_at_failure w h).
  pose proof convert_and_run_throws_at_failure.
  unfold process. throws_at_failure_auto.
Qed.

Lemma set_strength_run x m :
  set_strength x m =
    (Ok tt,
     let o := with_strength (binarize x) (self m) in
     let o := if is_close (binarize x) (_strength (self m)) f_0_01 then o else with_dirty true o in
     let v := if F32.leb f_half (binarize x) then 1 else 0 in
     let res := engine m (List.length (trace m)) in
     let m1 := with_trace (trace m ++ [(call_set_strength v, res)]) (with_self o m) in
     if is_success res then m1 else with_log (log m ++ ["Failed to set '%s' to %lu."%string]) m1).
Proof.
  unfold set_strength. unfold_monad. cbn.
  destruct (is_close (binarize x) (_strength (self m)) f_0_01); cbn;
  destruct (is_success (engine m (List.length (trace m)))); cbn; reflexivity.
Qed.

Lemma set_strength_throws_at_failure x : satisfies throws_at_failure (set_strength x).
Proof.
  intros m. rewrite set_strength_run. cbn.
  destruct (is_success (engine m (List.length (trace m)))); cbn;
    (split; [reflexivity | eexists; split; [reflexivity | reflexivity]]).
Qed.

Lemma set_scale_throws_at_failure x : satisfies throws_at_failure (set_scale x).
Proof. unfold set_scale. throws_at_failure_auto. Qed.

Lemma constructor_throws_at_failure : satisfies throws_at_failure constructor.
Proof.
  pose proof set_strength_throws_at_failure. pose proof set_scale_throws_at_failure.
  pose proof resize_throws_at_failure. pose proof load_throws_at_failure.
  unfold constructor. throws_at_failure_auto.
Qed.

Lemma all_passed_In evs ev : all_passed evs -> In ev evs -> failed ev = false.
Proof.
  unfold all_passed. rewrite forallb_forall. intros H I.
  apply H in I. now apply negb_true_iff in I.
Qed.

Lemma throws_at_failure_aborts {A} (op : M A) :
  satisfies throws_at_failure op -> aborts_on_engine_failure op.
Proof.
  intros H m. destruct (H m) as [_ (evs & T & P)]. exists evs. split; [exact T|].
  intros c res I Hc Hr.
  assert (F : failed (c, res) = true) by (unfold failed; cbn; rewrite Hc, Hr; reflexivity).
  destruct (fst (op m)) as [a|w|w|]; cbn in P;
    try (apply all_passed_In with (ev := (c, res)) in P; [congruence | assumption]).
  destruct P as (evs0 & ev & -> & P0 & Fev).
  split; [eauto|]. exists evs0.
  apply in_app_or in I. destruct I as [I | [<- | []]]; [|reflexivity].
  apply all_passed_In with (ev := (c, res)) in P0; [congruence | assumption].
Qed.

(** C3 (as amended): a transfer, load, run or set-image call that reports a
    non-success status makes [process], [resize], [load] and the constructor
    end in an exception, the failing call being the last one made; a failing
    set-parameter call inside [set_strength] is only logged, and
    [set_strength] returns normally. *)
Theorem engine_failures_abort_except_in_set_strength :
  (forall w h, aborts_on_engine_failure (process w h)) /\
  (forall w h, aborts_on_engine_failure (resize w h)) /\
  aborts_on_engine_failure load /\
  aborts_on_engine_failure constructor /\
  (forall x m,
     fst (set_strength x m) = Ok tt /\
     (is_success (engine m (List.length (trace m))) = false ->
      log (snd (set_strength x m)) = log m ++ ["Failed to set '%s' to %lu."%string])).
Proof.
  repeat split.
  - intros; apply throws_at_failure_aborts, process_throws_at_failure.
  - intros; apply throws_at_failure_aborts, resize_throws_at_failure.
  - apply throws_at_failure_aborts, load_throws_at_failure.
  - apply throws_at_failure_aborts, constructor_throws_at_failure.
  - rewrite set_strength_run; reflexivity.
  - intros E. rewrite set_strength_run. cbn. rewrite E. reflexivity.
Qed.

(** C3 (as stated) fails: with an engine that refuses every call,
    [set_strength] makes its set-parameter call, logs the failure and returns
    normally. *)
Lemma set_strength_swallows_engine_failure :
  engine (boot always_fails) 0 = FAILURE 1 /\
  set_strength f_1 (boot always_fails) =
    (Ok tt,
     mk_machine (with_strength f_1 initial) (fun _ => (0, 0)) always_fails
       [(call_set_strength 1, FAILURE 1)] ["Failed to set '%s' to %lu."%string]).
Proof. split; reflexivity. Qed.

Lemma binarize_cases x : binarize x = f_0 \/ binarize x = f_1.
Proof. unfold binarize; destruct (F32.leb f_half x); auto. Qed.

(** On the two values a binarized strength takes, "close within 0.01" is
    equality. *)
Lemma is_close_binarize x y :
  is_close (binarize x) (binarize y) f_0_01 = true <-> binarize x = binarize y.
Proof.
  destruct (binarize_cases x) as [-> | ->], (binarize_cases y) as [-> | ->];
    vm_compute; split; congruence.
Qed.

Lemma set_strength_stores x m :
  _strength (self (snd (set_strength x m))) = binarize x.
Proof.
  rewrite set_strength_run. cbn.
  destruct (is_close _ _ _), (is_success _); reflexivity.
Qed.

Lemma set_strength_flags x m :
  _dirty (self (snd (set_strength x m))) =
    _dirty (self m) || negb (is_close (binarize x) (_strength (self m)) f_0_01).
Proof.
  rewrite set_strength_run. cbn.
  destruct (is_close _ _ _), (is_success _); cbn;
    rewrite ?orb_false_r, ?orb_true_r; reflexivity.
Qed.

(** C7: [set_strength] stores 1.0 for an argument >= 0.5 and 0.0 otherwise,
    [strength] returns the stored value, and the call flags the effect dirty
    exactly when the binarized value is not within 0.01 of the one stored
    before; a second call with the same argument leaves the dirty flag as the
    first call left it, and after [set_strength(0.3)] twice [strength()] is
    0.0. *)
Theorem set_strength_binarizes (x : float) (m : machine) :
  let m1 := snd (set_strength x m) in
  let m2 := snd (set_strength x m1) in
  _strength (self m1) = (if F32.leb f_half x then f_1 else f_0) /\
  strength m1 = (Ok (_strength (self m1)), m1) /\
  _dirty (self m1) =
    (_dirty (self m) || negb (is_close (_strength (self m1)) (_strength (self m)) f_0_01)) /\
  (forall y, _dirty (self (snd (set_strength y m1))) = true <->
             _dirty (self m1) = true \/ binarize y <> binarize x) /\
  _dirty (self m2) = _dirty (self m1) /\
  fst (strength m2) = Ok (_strength (self m1)) /\
  fst (strength (snd (set_strength f_0_3 (snd (set_strength f_0_3 m))))) = Ok f_0.
Proof.
  cbv zeta. unfold strength, gets. cbn [fst snd].
  rewrite !set_strength_flags, !set_strength_stores.
  assert (C : is_close (binarize x) (binarize x) f_0_01 = true)
    by (apply is_close_binarize; reflexivity).
  repeat split; try reflexivity.
  - rewrite !set_strength_flags, !set_strength_stores.
    rewrite (orb_true_iff (_ || _)), negb_true_iff. intros [H | H]; [left; exact H | right].
    intros E. apply is_close_binarize in E. congruence.
  - rewrite !set_strength_flags, !set_strength_stores.
    rewrite (orb_true_iff (_ || _)), negb_true_iff. intros [H | H]; [left; exact H | right].
    destruct (is_close (binarize y) (binarize x) f_0_01) eqn:E; [|reflexivity].
    apply is_close_binarize in E. contradiction.
  - rewrite C. apply orb_false_r.
Qed.

Lemma ensure_buffer_sized k wh cur : sized (fst (ensure_buffer k wh cur)) wh.
Proof.
  unfold ensure_buffer, sized. destruct cur as [b|]; cbn.
  - destruct (width b =? fst wh) eqn:W, (height b =? snd wh) eqn:H; cbn; eauto.
    apply Z.eqb_eq in W, H. eauto.
  - eauto.
Qed.

(** An existing buffer keeps its format, a new one gets the block's. *)
Lemma ensure_buffer_kind k wh cur b :
  fst (ensure_buffer k wh cur) = Some b ->
  kind b = match cur with Some old => kind old | None => k end.
Proof.
  unfold ensure_buffer. destruct cur as [old|]; cbn.
  - destruct (negb _ || negb _); cbn; intros [= <-]; reflexivity.
  - intros [= <-]; reflexivity.
Qed.

Lemma ensure_buffer_skipped k wh cur :
  snd (ensure_buffer k wh cur) = false -> fst (ensure_buffer k wh cur) = cur.
Proof.
  unfold ensure_buffer. destruct cur as [b|]; cbn; [|discriminate].
  destruct (negb _ || negb _); cbn; [discriminate | reflexivity].
Qed.

Lemma resize_ok_inv w h m m' :
  resize w h m = (Ok tt, m') ->
  exists m1,
    size ref_cache_input_size ref_cache_input_size ref_cache_output_size
      (with_self (with_cache_input_size (w, h) (self m)) m) = (Ok tt, m1) /\
    _cache_input_size (self m') = _cache_input_size (self m1) /\
    _cache_output_size (self m') = _cache_output_size (self m1) /\
    _scale (self m') = _scale (self m1) /\
    _tmp (self m') =
      match _tmp (self m1) with
      | Some b => Some b
      | None => Some (mk_buffer (fst (_cache_output_size (self m1)))
                        (snd (_cache_output_size (self m1))) (cv_image RGBA UINT8 PLANAR))
      end /\
    _input (self m') = fst (ensure_buffer cv_texture_GS_RGBA_UNORM (_cache_input_size (self m1)) (_input (self m1))) /\
    _convert_to_fp32 (self m') = fst (ensure_buffer (cv_image RGBA FP32 PLANAR) (_cache_input_size (self m1)) (_convert_to_fp32 (self m1))) /\
    _source (self m') = fst (ensure_buffer (cv_image BGR FP32 PLANAR) (_cache_input_size (self m1)) (_source (self m1))) /\
    _destination (self m') = fst (ensure_buffer (cv_image BGR FP32 PLANAR) (_cache_output_size (self m1)) (_destination (self m1))) /\
    _convert_to_u8 (self m') = fst (ensure_buffer (cv_image RGBA UINT8 INTERLEAVED) (_cache_output_size (self m1)) (_convert_to_u8 (self m1))) /\
    _output (self m') = fst (ensure_buffer cv_texture_GS_RGBA_UNORM (_cache_output_size (self m1)) (_output (self m1))).
Proof.
  unfold resize. intros H.
  apply bind_ok_inv in H. destruct H as ([] & m0 & H0 & H). 
  unfold modify in H0. injection H0 as <-.
  apply bind_ok_inv in H. destruct H as ([] & m1 & H1 & H).
  exists m1. split; [exact H1|]. clear H1.
  unfold_blocks. unfold_monad. cbn in H.
  repeat match type of H with
         | context [match ?x with _ => _ end] =>
             lazymatch x with
             | context [match _ with _ => _ end] => fail
             | _ => destruct x eqn:?
             end; cbn in H
         end; try discriminate.
  all: injection H as <-; cbn.
  all: repeat match goal with
       | H : snd (ensure_buffer _ _ _) = false |- _ => apply ensure_buffer_skipped in H
       end.
  all: repeat split; congruence.
Qed.

(** C8: [resize] and [process] never replace or resize an existing scratch
    buffer [_tmp]; a [resize] that finds none allocates it with the output
    dimensions just negotiated; and a completed [resize] leaves each of the
    six other buffers with the dimensions of its size class, the cached input
    size or the cached output size.  After the constructor, [set_scale(2)]
    and [resize(160, 90)], the outputs are 320x180 while [_tmp] still is
    240x135. *)
Theorem scratch_buffer_allocated_once (w h : Z) (m : machine) :
  let m' := snd (resize w h m) in
  (forall b, _tmp (self m) = Some b ->
     _tmp (self m') = Some b /\ _tmp (self (snd (process w h m))) = Some b) /\
  (fst (resize w h m) = Ok tt -> _tmp (self m) = None ->
     _tmp (self m') =
       Some (mk_buffer (fst (_cache_output_size (self m'))) (snd (_cache_output_size (self m')))
               (cv_image RGBA UINT8 PLANAR))) /\
  (fst (resize w h m) = Ok tt ->
     sized (_input (self m')) (_cache_input_size (self m')) /\
     sized (_convert_to_fp32 (self m')) (_cache_input_size (self m')) /\
     sized (_source (self m')) (_cache_input_size (self m')) /\
     sized (_destination (self m')) (_cache_output_size (self m')) /\
     sized (_convert_to_u8 (self m')) (_cache_output_size (self m')) /\
     sized (_output (self m')) (_cache_output_size (self m'))) /\
  (let o := self (snd ((constructor ;; set_scale f_2 ;; resize 160 90) (boot healthy))) in
   _cache_output_size o = (320, 180) /\
   _output o = Some (mk_buffer 320 180 cv_texture_GS_RGBA_UNORM) /\
   _tmp o = Some (mk_buffer 240 135 (cv_image RGBA UINT8 PLANAR))).
Proof.
  cbv zeta. split; [|split; [|split]].
  - intros b Hb. split.
    + exact (resize_keeps_tmp w h m b Hb).
    + exact (process_keeps_tmp w h m b Hb).
  - intros Hr Ht.
    destruct (resize w h m) as [r m'] eqn:E. cbn in *. subst r.
    apply resize_ok_inv in E.
    destruct E as (m1 & S1 & _ & Eo & _ & Et & _).
    pose proof (size_rec_frame size_fuel ref_cache_input_size ref_cache_input_size
                  ref_cache_output_size
                  (with_self (with_cache_input_size (w, h) (self m)) m)) as F.
    unfold size in S1. rewrite S1 in F. unfold size_frame in F. cbn in F.
    destruct F as (_ & _ & _ & _ & _ & _ & _ & F & _).
    rewrite F, Ht in Et. rewrite Et, Eo. reflexivity.
  - intros Hr.
    destruct (resize w h m) as [r m'] eqn:E. cbn in *. subst r.
    apply resize_ok_inv in E.
    destruct E as (m1 & _ & Ei & Eo & _ & _ & E1 & E2 & E3 & E4 & E5 & E6).
    rewrite E1, E2, E3, E4, E5, E6, Ei, Eo.
    repeat split; apply ensure_buffer_sized.
  - vm_compute. repeat split; reflexivity.
Qed.

#[global] Instance cleared_by_load_seq : Sequential cleared_by_load.
Proof.
  split.
  - intros m. exists []. rewrite app_nil_r. split; [reflexivity | congruence].
  - intros m1 m2 m3 s (evs1 & T1 & P1) (evs2 & T2 & P2).
    exists (evs1 ++ evs2). split; [rewrite T2, T1, app_assoc; reflexivity|].
    intros D1 D3. apply in_or_app.
    destruct (_dirty (self m2)) eqn:D2; [right | left]; auto.
Qed.

(** A statement that makes no engine call and does not clear the flag. *)
Ltac unflagging_leaf :=
  let m := fresh "m" in
  intro m; unfold cleared_by_load;
  unfold_monad; unfold write_ref, lround_checked, deref, checked;
  unfold_monad; cbn;
  repeat (destruct_innermost; cbn);
  (eexists; split; [first [symmetry; apply app_nil_r | reflexivity] | cbn; congruence]).

Lemma load_cleared_by_load : satisfies cleared_by_load load.
Proof.
  intros m. unfold load, checked. unfold_monad. cbn.
  destruct (engine m (List.length (trace m))) eqn:E; cbn.
  - eexists; split; [reflexivity|]. intros _ _. left. reflexivity.
  - eexists; split; [reflexivity|]. cbn. congruence.
Qed.

Lemma size_cleared_by_load sz i o : satisfies cleared_by_load (size sz i o).
Proof.
  intros m.
  destruct (size_rec_frame size_fuel sz i o m) as (D & _ & _ & _ & _ & _ & _ & _ & _ & _ & T & _).
  exists []. rewrite app_nil_r. unfold size. split; [exact T | congruence].
Qed.

Ltac cleared_by_load_auto :=
  repeat first
    [ solve [auto 1]
    | satisfies_step
    | progress unfold set_image, transfer, ensure_tmp, ensure_input,
        ensure_convert_to_fp32, ensure_source, ensure_destination,
        ensure_convert_to_u8, ensure_output
    | unflagging_leaf ].

Lemma resize_cleared_by_load w h : satisfies cleared_by_load (resize w h).
Proof.
  pose proof size_cleared_by_load. unfold resize. cleared_by_load_auto.
Qed.

Lemma convert_and_run_cleared_by_load : satisfies cleared_by_load convert_and_run.
Proof. unfold convert_and_run. cleared_by_load_auto. Qed.

Lemma process_cleared_by_load w h : satisfies cleared_by_load (process w h).
Proof.
  pose proof (resize_cleared_by_load w h). pose proof load_cleared_by_load.
  pose proof convert_and_run_cleared_by_load.
  unfold process. cleared_by_load_auto.
Qed.

Lemma set_scale_cleared_by_load x : satisfies cleared_by_load (set_scale x).
Proof. unfold set_scale. cleared_by_load_auto. Qed.

Lemma set_strength_cleared_by_load x : satisfies cleared_by_load (set_strength x).
Proof.
  intros m. rewrite set_strength_run. cbn.
  eexists. split.
  - destruct (is_success _); cbn; reflexivity.
  - destruct (is_close _ _ _), (is_success _); cbn; congruence.
Qed.

Lemma load_fails m :
  is_success (engine m (List.length (trace m))) = false ->
  load m =
    (Throw "Load failed.",
     with_log (log m ++ ["Failed to initialize effect due to error: %s"%string])
       (with_trace (trace m ++ [(call_load, engine m (List.length (trace m)))]) m)).
Proof.
  intros E. unfold load, checked. unfold_monad. cbn. rewrite E. reflexivity.
Qed.

Lemma load_succeeds m :
  is_success (engine m (List.length (trace m))) = true ->
  load m =
    (Ok tt,
     with_self (with_dirty false (self m))
       (with_trace (trace m ++ [(call_load, engine m (List.length (trace m)))]) m)).
Proof.
  intros E. unfold load, checked. unfold_monad. cbn. rewrite E. reflexivity.
Qed.

Lemma process_reloads_when_dirty w h m m1 :
  resize w h m = (Ok tt, m1) ->
  _dirty (self m1) = true ->
  exists rest,
    trace (snd (process w h m)) =
    trace m1 ++ (call_load, engine m1 (List.length (trace m1))) :: rest.
Proof.
  intros R D. unfold process.
  rewrite (bind_ok _ _ _ _ _ R). unfold bind at 1. unfold gets at 1. rewrite D.
  cbn [when]. rewrite bind_run.
  destruct (is_success (engine m1 (List.length (trace m1)))) eqn:E.
  - rewrite (load_succeeds _ E). cbn [fst snd].
    match goal with |- context [convert_and_run ?m4] =>
      destruct (convert_and_run_throws_at_failure m4) as [_ (evs & T & _)] end.
    exists evs. rewrite T. cbn. rewrite <- app_assoc. reflexivity.
  - rewrite (load_fails _ E). cbn. exists []. reflexivity.
Qed.

Lemma process_load_fails w h m m1 :
  resize w h m = (Ok tt, m1) ->
  _dirty (self m1) = true ->
  is_success (engine m1 (List.length (trace m1))) = false ->
  process w h m =
    (Throw "Load failed.",
     with_log (log m1 ++ ["Failed to initialize effect due to error: %s"%string])
       (with_trace (trace m1 ++ [(call_load, engine m1 (List.length (trace m1)))]) m1)).
Proof.
  intros R D E. unfold process.
  rewrite (bind_ok _ _ _ _ _ R). unfold bind at 1. unfold gets at 1. rewrite D.
  cbn [when]. rewrite bind_run. rewrite (load_fails _ E). reflexivity.
Qed.

(** C9: a failing [effect::load] makes [load] throw with the object
    untouched, so the dirty flag stays set; [process] then throws
    "Load failed." and stays dirty, and the next [process] whose [resize]
    completes calls the engine's load again.  In every member function a
    dirty flag that is clear afterwards was cleared by a successful load call
    made during that run.  With an engine whose sixth call fails, the
    constructor, [set_scale(2)] and [process(160x90)] end in "Load failed."
    with the flag set, and the next [process] loads again and succeeds. *)
Theorem dirty_cleared_only_by_successful_load :
  (forall m, is_success (engine m (List.length (trace m))) = false ->
     fst (load m) = Throw "Load failed." /\ self (snd (load m)) = self m) /\
  (forall w h m m1,
     resize w h m = (Ok tt, m1) ->
     _dirty (self m1) = true ->
     is_success (engine m1 (List.length (trace m1))) = false ->
     let m2 := snd (process w h m) in
     fst (process w h m) = Throw "Load failed." /\
     _dirty (self m2) = true /\
     forall w' h' m3,
       resize w' h' m2 = (Ok tt, m3) ->
       exists rest,
         trace (snd (process w' h' m2)) =
         trace m3 ++ (call_load, engine m3 (List.length (trace m3))) :: rest) /\
  (satisfies cleared_by_load load /\
   (forall w h, satisfies cleared_by_load (process w h)) /\
   (forall w h, satisfies cleared_by_load (resize w h)) /\
   (forall sz i o, satisfies cleared_by_load (size sz i o)) /\
   (forall x, satisfies cleared_by_load (set_scale x)) /\
   (forall x, satisfies cleared_by_load (set_strength x))) /\
  (let m := snd ((constructor ;; set_scale f_2) (boot (fails_at 5))) in
   let m2 := snd (process 160 90 m) in
   _dirty (self m) = true /\
   fst (process 160 90 m) = Throw "Load failed." /\
   _dirty (self m2) = true /\
   fst (process 160 90 m2) = Ok (mk_buffer 320 180 cv_texture_GS_RGBA_UNORM) /\
   _dirty (self (snd (process 160 90 m2))) = false /\
   skipn 6 (trace (snd (process 160 90 m2))) =
     [ (call_load, SUCCESS);
       (call_transfer name_input name_convert_to_fp32, SUCCESS);
       (call_transfer name_convert_to_fp32 name_source, SUCCESS);
       (call_run, SUCCESS);
       (call_transfer name_destination name_convert_to_u8, SUCCESS);
       (call_transfer name_convert_to_u8 name_output, SUCCESS) ]).
Proof.
  split; [|split; [|split]].
  - intros m E. rewrite (load_fails _ E). split; reflexivity.
  - intros w h m m1 R D E. cbv zeta.
    rewrite (process_load_fails _ _ _ _ R D E). cbn [fst snd].
    split; [reflexivity|]. split; [exact D|].
    intros w' h' m3 R'.
    apply (process_reloads_when_dirty _ _ _ _ R').
    match type of R' with
    | resize _ _ ?mm = _ => pose proof (resize_keeps_dirty w' h' mm D) as K
    end.
    rewrite R' in K. exact K.
  - repeat split; intros.
    + apply load_cleared_by_load.
    + apply process_cleared_by_load.
    + apply resize_cleared_by_load.
    + apply size_cleared_by_load.
    + apply set_scale_cleared_by_load.
    + apply set_strength_cleared_by_load.
  - vm_compute. repeat split; reflexivity.
Qed.

(* ================================================================= *)
(** ** Facts about the floating-point operations *)

Lemma digits2_pos_size p : digits2_pos p = Pos.size p.
Proof. induction p; cbn; congruence. Qed.

Lemma digits2_pos_iter_xO p d :
  Zpos (digits2_pos (Pos.iter xO p d)) = Zpos (digits2_pos p) + Zpos d.
Proof.
  induction d as [|d IH] using Pos.peano_ind.
  - cbn. lia.
  - rewrite Pos.iter_succ. cbn [digits2_pos]. lia.
Qed.

Lemma digits2_pos_lt p : Zpos p < 2 ^ Zpos (digits2_pos p).
Proof.
  rewrite digits2_pos_size. pose proof (Pos.size_gt p) as H.
  apply Pos2Z.pos_lt_pos in H. rewrite Pos2Z.inj_pow in H. exact H.
Qed.

Lemma digits2_pos_le p : 2 ^ (Zpos (digits2_pos p) - 1) <= Zpos p.
Proof.
  rewrite digits2_pos_size. pose proof (Pos.size_le p) as H.
  apply Pos2Z.pos_le_pos in H. rewrite Pos2Z.inj_pow in H.
  replace (Zpos (Pos.size p)) with (Z.succ (Zpos (Pos.size p) - 1)) in H by lia.
  rewrite Z.pow_succ_r in H by lia. lia.
Qed.

(** The number of binary digits pins the magnitude. *)
Lemma digits2_pos_bounds p k :
  Zpos (digits2_pos p) = k <-> 2 ^ (k - 1) <= Zpos p < 2 ^ k.
Proof.
  split.
  - intros <-. split; [apply digits2_pos_le | apply digits2_pos_lt].
  - intros [L U]. pose proof (digits2_pos_le p). pose proof (digits2_pos_lt p).
    assert (0 < k).
    { destruct (Z.ltb_spec 0 k); auto. destruct (Z.eq_dec k 0) as [-> | N].
      - cbn in U. lia.
      - rewrite Z.pow_neg_r in U by lia. lia. }
    destruct (Z.lt_trichotomy (Zpos (digits2_pos p)) k) as [C | [C | C]]; auto.
    + assert (2 ^ Zpos (digits2_pos p) <= 2 ^ (k - 1)) by (apply Z.pow_le_mono_r; lia). lia.
    + assert (2 ^ k <= 2 ^ (Zpos (digits2_pos p) - 1)) by (apply Z.pow_le_mono_r; lia). lia.
Qed.

Section Rounding.
Variables prec emax : Z.

(** A mantissa already in canonical position is kept by the rounding. *)
Lemma binary_round_aux_canonical s m e :
  canonical_mantissa prec emax m e = true ->
  e <= emax - prec ->
  binary_round_aux prec emax s (Zpos m) e loc_Exact = S754_finite s m e.
Proof.
  unfold canonical_mantissa. intros C B. apply Z.eqb_eq in C.
  unfold binary_round_aux, shr_fexp. cbn [Zdigits2].
  rewrite C, Z.sub_diag.
  cbn [shr shr_record_of_loc shr_m loc_of_shr_record round_nearest_even Zdigits2].
  rewrite C, Z.sub_diag.
  cbn [shr shr_record_of_loc shr_m].
  apply Z.leb_le in B. rewrite B. reflexivity.
Qed.

(** A value with few enough digits is only re-aligned: [binary_round] is
    exact. *)
Lemma binary_round_exact s m e :
  fexp prec emax (Zpos (digits2_pos m) + e) <= e ->
  fexp prec emax (Zpos (digits2_pos m) + e) <= emax - prec ->
  binary_round prec emax s m e =
    S754_finite s (fst (shl_align m e (fexp prec emax (Zpos (digits2_pos m) + e))))
      (fexp prec emax (Zpos (digits2_pos m) + e)).
Proof.
  intros L B. unfold binary_round.
  set (e' := fexp prec emax (Zpos (digits2_pos m) + e)) in *.
  unfold shl_align. destruct (e' - e) as [|d|d] eqn:D; try lia.
  - assert (E : e' = e) by lia. cbn [fst].
    rewrite binary_round_aux_canonical; [congruence | | lia].
    unfold canonical_mantissa. fold e'. apply Z.eqb_eq. exact E.
  - cbn [fst]. apply binary_round_aux_canonical; auto.
    unfold canonical_mantissa. rewrite digits2_pos_iter_xO.
    replace (Zpos (digits2_pos m) + Zpos d + e') with (Zpos (digits2_pos m) + e) by lia.
    apply Z.eqb_eq. reflexivity.
Qed.
End Rounding.

(** [static_cast<double>] of a positive [uint32_t] is a finite positive
    number. *)
Lemma F64_of_Z_finite n :
  0 < n < 2 ^ 32 -> exists m e, F64.of_Z n = S754_finite false m e.
Proof.
  intros [L U]. destruct n as [|p|p]; try lia.
  unfold F64.of_Z, binary_normalize.
  assert (D : Zpos (digits2_pos p) <= 32).
  { destruct (Z.leb_spec (Zpos (digits2_pos p)) 32); auto.
    pose proof (digits2_pos_le p).
    assert (2 ^ 32 <= 2 ^ (Zpos (digits2_pos p) - 1)) by (apply Z.pow_le_mono_r; lia). lia. }
  rewrite binary_round_exact.
  - eauto.
  - unfold fexp, emin, F64.prec, F64.emax. lia.
  - unfold fexp, emin, F64.prec, F64.emax. lia.
Qed.

(** A finite [double] divided by itself is 1. *)
Lemma F64_div_same s m e :
  F64.div (S754_finite s m e) (S754_finite s m e) = d_1.
Proof.
  unfold F64.div, SFdiv, SFdiv_core_binary. cbn [Zdigits2].
  rewrite !Z.sub_diag.
  change (Z.min (fexp F64.prec F64.emax 0) 0) with (-53).
  change (0 - -53) with 53.
  cbv beta iota zeta.
  assert (E : Z.div_eucl (Z.shiftl (Zpos m) 53) (Zpos m) = (2 ^ 53, 0)).
  { rewrite Z.shiftl_mul_pow2 by lia.
    pose proof (Z.div_eucl_eq (Zpos m * 2 ^ 53) (Zpos m) ltac:(lia)) as Q.
    pose proof (Z.mod_pos_bound (Zpos m * 2 ^ 53) (Zpos m) ltac:(lia)) as R.
    unfold Z.modulo in R.
    destruct (Z.div_eucl (Zpos m * 2 ^ 53) (Zpos m)) as [q r].
    assert (r = 0 /\ q = 2 ^ 53) as [-> ->]; [|reflexivity].
    assert (Zpos m * (2 ^ 53 - q) = r) by lia.
    assert (2 ^ 53 - q = 0) by nia. split; nia. }
  rewrite E.
  assert (N : new_location (Zpos m) 0 = loc_Exact).
  { unfold new_location, new_location_even, new_location_odd.
    destruct (Z.even (Zpos m)); reflexivity. }
  rewrite N. destruct s; reflexivity.
Qed.

Lemma read_write_ref r v m : read_ref r (write_ref r v m) = v.
Proof.
  destruct r; cbn; try reflexivity. rewrite Nat.eqb_refl. reflexivity.
Qed.

Lemma clamp_u32_bounds v lo hi : lo <= hi -> lo <= clamp_u32 v lo hi <= hi.
Proof.
  intros H. unfold clamp_u32.
  destruct (Z.ltb_spec v lo); [lia|]. destruct (Z.ltb_spec hi v); lia.
Qed.

Lemma max_size_cases s :
  max_size s = (960, 540) \/ max_size s = (1280, 720) \/ max_size s = (1920, 1080).
Proof.
  unfold max_size. destruct (F64.ltb d_3 _); auto. destruct (F64.ltb d_2 _); auto.
Qed.

(** Checked on every height the clamp can produce: multiplying by the aspect
    ratio 1 and rounding gives the height back. *)
Lemma lround_times_one h :
  90 <= h <= 1080 -> lround (F64.mul (F64.of_Z h) d_1) = Some h.
Proof.
  intros H.
  assert (A : forallb (fun k => match lround (F64.mul (F64.of_Z (Z.of_nat k)) d_1) with
                                | Some v => v =? Z.of_nat k
                                | None => false
                                end) (seq 90 991) = true) by (vm_compute; reflexivity).
  rewrite forallb_forall in A. specialize (A (Z.to_nat h)).
  rewrite Z2Nat.id in A by lia.
  destruct (lround (F64.mul (F64.of_Z h) d_1)) as [v|].
  - f_equal. apply Z.eqb_eq. apply A. apply in_seq. lia.
  - discriminate A. apply in_seq. lia.
Qed.

(** C10: for a request with equal width and height the comparison
    [input_size.first > input_size.second] is false, so the height is clamped
    into [90, max_height] first and the width is the clamped height times the
    aspect ratio (which is 1), clamped into [160, max_width].  Asked for
    100x100 at scale 1.5, [size] answers input 160x100 and output 240x150. *)
Theorem square_request_is_height_dominant (n : Z) (s : float) (r : pair_ref) (m : machine) :
  0 < n < 2 ^ 32 ->
  read_ref r m = (n, n) ->
  let max_width := fst (max_size s) in
  let max_height := snd (max_size s) in
  let run := calculate_input_size r max_width max_height m in
  fst run = Ok tt /\
  read_ref r (snd run) =
    (clamp_u32 (clamp_u32 n min_height max_height) min_width max_width,
     clamp_u32 n min_height max_height) /\
  (let caller := with_locals (fun k => if Nat.eqb k 0 then (100, 100) else (0, 0)) in
   let m' := snd ((constructor ;; size (ref_local 0) (ref_local 1) (ref_local 2))
                    (caller (boot healthy))) in
   read_ref (ref_local 1) m' = (160, 100) /\ read_ref (ref_local 2) m' = (240, 150)).
Proof.
  intros N R. cbv zeta.
  assert (B : 90 <= clamp_u32 n min_height (snd (max_size s)) <= 1080).
  { pose proof (clamp_u32_bounds n min_height (snd (max_size s))) as C.
    unfold min_height in *.
    destruct (max_size_cases s) as [E | [E | E]]; rewrite E in *; cbn [snd] in *; lia. }
  unfold calculate_input_size. unfold_monad. cbn [fst snd]. rewrite R. cbn [fst snd].
  rewrite Z.ltb_irrefl. rewrite read_write_ref. cbn [fst snd].
  destruct (F64_of_Z_finite n N) as (mn & en & ->). rewrite F64_div_same.
  unfold lround_checked. rewrite (lround_times_one _ B). unfold_monad. cbn [fst snd].
  rewrite !read_write_ref. cbn [fst snd].
  unfold to_uint32. rewrite Z.mod_small by lia.
  split; [reflexivity|]. split; [reflexivity|].
  split; vm_compute; reflexivity.
Qed.

(** The witness of C10: a caller's pair holding 100x100, at scale 1.5. *)
Lemma square_request_witness :
  let m := with_locals (fun _ => (100, 100)) (boot healthy) in
  read_ref (ref_local 1) (snd (calculate_input_size (ref_local 1) 1920 1080 m)) = (160, 100).
Proof.
  cbv zeta.
  refine (proj1 (proj2 (square_request_is_height_dominant 100 f_1_5 (ref_local 1)
            (with_locals (fun _ => (100, 100)) (boot healthy)) _ _))).
  - lia.
  - reflexivity.
Defined.

Lemma closest_index_loop_range factor rest idx minimal :
  let r := fst (closest_index_loop factor rest idx minimal) in
  r = fst minimal \/ (idx <= r < idx + List.length rest)%nat.
Proof.
  revert idx minimal. induction rest as [|delta rest IH]; intros idx minimal; cbn.
  - left; reflexivity.
  - destruct (IH (S idx) (if F32.ltb (F32.abs (F32.sub delta factor)) (snd minimal)
                          then (idx, F32.abs (F32.sub delta factor)) else minimal)) as [E | E].
    + cbv zeta in E. rewrite E.
      destruct (F32.ltb _ _); cbn; [right; lia | left; reflexivity].
    + right. cbv zeta in E. lia.
Qed.

(** The guard [scale_idx < supported_scale_factors.size()] never fails. *)
Lemma find_closest_scale_factor_index_lt factor :
  (find_closest_scale_factor_index factor < List.length supported_scale_factors)%nat.
Proof.
  unfold find_closest_scale_factor_index.
  destruct (closest_index_loop_range factor supported_scale_factors 0 (0%nat, F32.max_value))
    as [E | E]; cbv zeta in E.
  - rewrite E. cbn. lia.
  - cbn in *. lia.
Qed.

Lemma gets_bind {A B} (f : superresolution -> A) (k : A -> M B) m :
  bind (gets f) k m = k (f (self m)) m.
Proof. reflexivity. Qed.

Lemma modify_bind {B} f (k : unit -> M B) m :
  bind (modify f) k m = k tt (with_self (f (self m)) m).
Proof. reflexivity. Qed.

Lemma cache_matches_pure i m : snd (cache_matches i m) = m.
Proof. reflexivity. Qed.

Lemma scale_is_valid_pure i o m : snd (scale_is_valid i o m) = m.
Proof. reflexivity. Qed.

(** C2: when the verification of the ratios fails, [size] reads the entry
    after the closest one and runs again with it as [_scale]; the guard before
    the read always holds, so when the closest entry is the last of the list
    the read is out of bounds. *)
Theorem retry_reads_the_entry_after_the_closest
  (fuel : nat) (sz i o : pair_ref) (m m1 : machine) :
  fst (cache_matches i m) = Ok false ->
  negotiate_once sz i o m = (Ok tt, m1) ->
  fst (scale_is_valid i o m1) = Ok false ->
  let scale_idx := find_closest_scale_factor_index (_scale (self m1)) in
  Nat.ltb scale_idx (List.length supported_scale_factors) = true /\
  (forall next, nth_error supported_scale_factors (scale_idx + 1) = Some next ->
     size_rec (S fuel) sz i o m =
       (size_rec fuel sz i o ;; update_cache i o) (with_self (with_scale next (self m1)) m1)) /\
  (S scale_idx = List.length supported_scale_factors ->
     nth_error supported_scale_factors (scale_idx + 1) = None /\
     size_rec (S fuel) sz i o m =
       (Undefined "supported_scale_factors: index out of range", m1)).
Proof.
  intros C N V. cbv zeta.
  assert (G : Nat.ltb (find_closest_scale_factor_index (_scale (self m1)))
                (List.length supported_scale_factors) = true).
  { apply Nat.ltb_lt, find_closest_scale_factor_index_lt. }
  assert (U : size_rec (S fuel) sz i o m =
    match nth_error supported_scale_factors
            (find_closest_scale_factor_index (_scale (self m1)) + 1) with
    | None => (Undefined "supported_scale_factors: index out of range", m1)
    | Some next =>
        (size_rec fuel sz i o ;; update_cache i o) (with_self (with_scale next (self m1)) m1)
    end).
  { cbn [size_rec].
    rewrite bind_run, C, cache_matches_pure.
    rewrite (bind_ok _ _ _ _ _ N).
    rewrite bind_run, V, scale_is_valid_pure. cbn [negb when].
    rewrite bind_run, !gets_bind, G. cbn [when].
    destruct (nth_error _ _) as [next|].
    - rewrite (bind_run (size_rec fuel sz i o)).
      rewrite !modify_bind.
      destruct (fst (size_rec fuel sz i o _)); reflexivity.
    - reflexivity. }
  split; [exact G|]. split.
  - intros next E. rewrite U, E. reflexivity.
  - intros L.
    assert (E : nth_error supported_scale_factors
                  (find_closest_scale_factor_index (_scale (self m1)) + 1) = None).
    { apply nth_error_None. lia. }
    split; [exact E|]. rewrite U, E. reflexivity.
Qed.

(** The witness of C2: after the constructor and [set_scale(4.f)], [size] is
    called with one pair as [input_size] and as [output_size].  The output
    width 3840 overwrites the input width, the ratio is 1 and not 4, the
    closest entry is the last one, and the retry reads past the end. *)
Lemma retry_out_of_bounds_witness :
  _scale (self at_scale_4) = f_4 /\
  fst (size (ref_local 0) (ref_local 1) (ref_local 1) at_scale_4) =
    Undefined "supported_scale_factors: index out of range".
Proof.
  split; [vm_compute; reflexivity|].
  set (m1 := snd (negotiate_once (ref_local 0) (ref_local 1) (ref_local 1) at_scale_4)).
  pose proof (retry_reads_the_entry_after_the_closest 5 (ref_local 0) (ref_local 1)
                (ref_local 1) at_scale_4 m1) as T.
  cbv zeta in T.
  destruct T as (_ & _ & T).
  - vm_compute; reflexivity.
  - vm_compute; reflexivity.
  - vm_compute; reflexivity.
  - destruct T as [_ T]; [vm_compute; reflexivity|].
    unfold size, size_fuel. cbn [List.length supported_scale_factors].
    rewrite T. reflexivity.
Defined.




Lemma update_cache_ok i o m : fst (update_cache i o m) = Ok tt.
Proof. reflexivity. Qed.

Lemma return_cached_ok i o m : fst (return_cached i o m) = Ok tt.
Proof. reflexivity. Qed.



(* ================================================================= *)
(** ** The scan for the nearest factor *)

Lemma Pos_iter_xO_value p d : Zpos (Pos.iter xO p d) = Zpos p * 2 ^ Zpos d.
Proof.
  induction d as [|d IH] using Pos.peano_ind.
  - cbn. lia.
  - rewrite Pos.iter_succ, Pos2Z.inj_succ, Z.pow_succ_r by lia.
    rewrite Pos2Z.inj_xO, IH. lia.
Qed.

Lemma shl_align_value m e ez :
  ez <= e -> Zpos (fst (shl_align m e ez)) = Zpos m * 2 ^ (e - ez).
Proof.
  intros L. unfold shl_align. destruct (ez - e) as [|d|d] eqn:D; try lia; cbn [fst].
  - replace (e - ez) with 0 by lia. lia.
  - rewrite Pos_iter_xO_value. f_equal. f_equal. lia.
Qed.

(** On regular numbers the comparison of [SpecFloat] is the comparison of
    the values. *)
Lemma SFcompare_regular a b :
  regular a -> regular b -> SFcompare a b = Some (scaled a ?= scaled b).
Proof.
  destruct a as [sa| | |[] ma ea], b as [sb| | |[] mb eb]; cbn [regular]; try tauto.
  - intros _ [Db Eb]. cbn [SFcompare scaled]. rewrite Z.mul_1_l.
    assert (0 < 2 ^ (eb + 149)) by (apply Z.pow_pos_nonneg; lia).
    f_equal. symmetry. apply Z.compare_lt_iff. nia.
  - intros [Da Ea] _. cbn [SFcompare scaled]. rewrite Z.mul_1_l.
    assert (0 < 2 ^ (ea + 149)) by (apply Z.pow_pos_nonneg; lia).
    f_equal. symmetry. apply Z.compare_gt_iff. nia.
  - intros [Da Ea] [Db Eb]. cbn [SFcompare scaled]. f_equal. rewrite !Z.mul_1_l.
    apply digits2_pos_bounds in Da, Db. change (24 - 1) with 23 in *.
    destruct (Z.compare_spec ea eb) as [E | E | E].
    + subst eb. rewrite Pos.compare_cont_spec. cbn [Pos.switch_Eq].
      rewrite <- Zmult_compare_compat_r
        by (apply Z.lt_gt, Z.pow_pos_nonneg; lia).
      cbn [Z.compare]. destruct (ma ?= mb)%positive; reflexivity.
    + symmetry. apply Z.compare_lt_iff.
      replace (eb + 149) with (ea + 149 + (eb - ea)) by lia.
      rewrite (Z.pow_add_r 2 (ea + 149) (eb - ea)) by lia.
      assert (0 < 2 ^ (ea + 149)) by (apply Z.pow_pos_nonneg; lia).
      assert (2 ^ 1 <= 2 ^ (eb - ea)) by (apply Z.pow_le_mono_r; lia).
      change (2 ^ 1) with 2 in *. change (2 ^ 23) with 8388608 in *.
      change (2 ^ 24) with 16777216 in *.
      set (P := 2 ^ (ea + 149)) in *. set (Q := 2 ^ (eb - ea)) in *.
      assert (2 * P <= P * Q) by nia.
      assert (Z.pos ma * P < 16777216 * P) by nia.
      assert (8388608 * (P * Q) <= Z.pos mb * (P * Q)) by nia.
      lia.
    + symmetry. apply Z.compare_gt_iff.
      replace (ea + 149) with (eb + 149 + (ea - eb)) by lia.
      rewrite (Z.pow_add_r 2 (eb + 149) (ea - eb)) by lia.
      assert (0 < 2 ^ (eb + 149)) by (apply Z.pow_pos_nonneg; lia).
      assert (2 ^ 1 <= 2 ^ (ea - eb)) by (apply Z.pow_le_mono_r; lia).
      change (2 ^ 1) with 2 in *. change (2 ^ 23) with 8388608 in *.
      change (2 ^ 24) with 16777216 in *.
      set (P := 2 ^ (eb + 149)) in *. set (Q := 2 ^ (ea - eb)) in *.
      assert (2 * P <= P * Q) by nia.
      assert (Z.pos mb * P < 16777216 * P) by nia.
      assert (8388608 * (P * Q) <= Z.pos ma * (P * Q)) by nia.
      lia.
Qed.

Lemma F32_ltb_regular a b :
  regular a -> regular b -> F32.ltb a b = (scaled a <? scaled b).
Proof.
  intros Ra Rb. unfold F32.ltb, SFltb. rewrite (SFcompare_regular _ _ Ra Rb).
  unfold Z.ltb. destruct (scaled a ?= scaled b); reflexivity.
Qed.

Lemma fexp_normal x : -125 <= x -> fexp 24 128 x = x - 24.
Proof. intros H. unfold fexp, emin. lia. Qed.

(** A difference of fewer than 25 bits is represented exactly. *)
Lemma normalize_exact D ez :
  -23 <= ez <= -21 -> Z.abs D < 2 ^ 24 ->
  let r := F32.abs (binary_normalize 24 128 D ez false) in
  regular r /\ scaled r = Z.abs D * 2 ^ (ez + 149).
Proof.
  intros E B. cbv zeta.
  assert (X : forall s p, Zpos p < 2 ^ 24 ->
            regular (F32.abs (binary_round 24 128 s p ez)) /\
            scaled (F32.abs (binary_round 24 128 s p ez)) = Zpos p * 2 ^ (ez + 149)).
  { intros s p Bp.
    assert (Dp : 1 <= Zpos (digits2_pos p) <= 24).
    { split; [lia|]. destruct (Z.leb_spec (Zpos (digits2_pos p)) 24); auto.
      pose proof (digits2_pos_le p).
      assert (2 ^ 24 <= 2 ^ (Zpos (digits2_pos p) - 1)) by (apply Z.pow_le_mono_r; lia). lia. }
    rewrite binary_round_exact; rewrite fexp_normal by lia; try lia.
    cbn [F32.abs SFabs regular scaled]. split.
    - split; [|lia]. unfold shl_align.
      destruct (Zpos (digits2_pos p) + ez - 24 - ez) as [|d|d] eqn:Dd; cbn [fst]; try lia.
      rewrite digits2_pos_iter_xO. lia.
    - rewrite shl_align_value by lia. rewrite Z.mul_1_l, <- Z.mul_assoc, <- Z.pow_add_r by lia.
      f_equal. f_equal. lia. }
  destruct D as [|p|p]; cbn [binary_normalize].
  - cbn. split; [exact I | reflexivity].
  - apply X. lia.
  - replace (Z.abs (Zneg p)) with (Zpos p) by reflexivity. apply X. lia.
Qed.

(** The second shift of the rounding, on a mantissa of 24 bits or on 2^24. *)
Lemma round_renormalize s q :
  2 ^ 23 <= Zpos q <= 2 ^ 24 ->
  let r :=
    F32.abs
      (let '(mrs, e) :=
         shr {| shr_m := Zpos q; shr_r := false; shr_s := false |} (-22)
           (fexp 24 128 (Zdigits2 (Zpos q) + -22) - -22) in
       match shr_m mrs with
       | 0 => S754_zero s
       | Zpos m => if e <=? 128 - 24 then S754_finite s m e else S754_infinity s
       | Zneg _ => S754_nan
       end) in
  regular r /\ 2 ^ 150 <= scaled r.
Proof.
  intros B. cbv zeta.
  destruct (Z.eq_dec (Zpos q) (2 ^ 24)) as [E | N].
  - assert (q = 16777216%positive) as -> by (change (2 ^ 24) with 16777216 in E; congruence).
    vm_compute. split; [split; [reflexivity | discriminate] | discriminate].
  - assert (Dq : Zpos (digits2_pos q) = 24) by (apply digits2_pos_bounds; change (24 - 1) with 23; lia).
    cbn [Zdigits2]. rewrite Dq.
    change (fexp 24 128 (24 + -22) - -22) with 0.
    cbn [shr shr_m Z.leb Z.compare Z.sub Z.add Z.opp Pos.compare Pos.compare_cont].
    change (-22 <=? IntDef.Z.pos_sub 128 24) with true.
    cbn [F32.abs SFabs regular scaled]. split; [split; [exact Dq | lia]|].
    change (-22 + 149) with 127. change (2 ^ 150) with (2 ^ 23 * 2 ^ 127).
    rewrite Z.mul_1_l. apply Z.mul_le_mono_nonneg_r; lia.
Qed.

(** A difference of 25 bits is rounded to a number that is at least 2. *)
Lemma normalize_inexact D :
  2 ^ 24 <= Z.abs D < 2 ^ 25 ->
  let r := F32.abs (binary_normalize 24 128 D (-23) false) in
  regular r /\ 2 ^ 150 <= scaled r.
Proof.
  intros B. cbv zeta.
  assert (X : forall s p, 2 ^ 24 <= Zpos p < 2 ^ 25 ->
            regular (F32.abs (binary_round 24 128 s p (-23))) /\
            2 ^ 150 <= scaled (F32.abs (binary_round 24 128 s p (-23)))).
  { intros s p Bp.
    assert (Dp : Zpos (digits2_pos p) = 25) by (apply digits2_pos_bounds; exact Bp).
    unfold binary_round. rewrite Dp.
    change (fexp 24 128 (25 + -23)) with (-22).
    change (shl_align p (-23) (-22)) with (p, -23).
    cbv beta iota. unfold binary_round_aux, shr_fexp. cbn [Zdigits2]. rewrite Dp.
    change (fexp 24 128 (25 + -23) - -23) with 1.
    cbn [shr iter_pos shr_record_of_loc Z.add].
    change (IntDef.Z.pos_sub 1 23) with (-22).
    change (2 ^ 24) with 16777216 in Bp. change (2 ^ 25) with 33554432 in Bp.
    destruct p as [q|q|]; [| |lia];
      cbn [shr_1 shr_m orb loc_of_shr_record round_nearest_even].
    - destruct (Z.even (Zpos q)).
      + apply round_renormalize. change (2 ^ 23) with 8388608. change (2 ^ 24) with 16777216. lia.
      + change (Zpos q + 1) with (Zpos (q + 1)).
        apply round_renormalize. change (2 ^ 23) with 8388608. change (2 ^ 24) with 16777216. lia.
    - apply round_renormalize. change (2 ^ 23) with 8388608. change (2 ^ 24) with 16777216. lia. }
  destruct D as [|p|p]; cbn [binary_normalize].
  - cbn in B. lia.
  - apply X. lia.
  - apply X. replace (Z.abs (Zneg p)) with (Zpos p) in B by reflexivity. lia.
Qed.

Lemma in_range_cases x :
  in_range x ->
  exists m e, x = S754_finite false m e /\
    2 ^ 23 <= Zpos m < 2 ^ 24 /\
    (e = -23 \/ e = -22 \/ (e = -21 /\ m = 8388608%positive)).
Proof.
  destruct x as [| | |[] m e]; cbn; try tauto.
  intros (D & E & F). exists m, e. split; [reflexivity|].
  apply digits2_pos_bounds in D. split; [exact D|].
  destruct (Z.eq_dec e (-21)); [right; right; auto | lia].
Qed.

Ltac eval_powers :=
  repeat match goal with
         | |- context [Z.min ?a ?b] =>
             let v := eval vm_compute in (Z.min a b) in change (Z.min a b) with v
         | H : context [Z.min ?a ?b] |- _ =>
             let v := eval vm_compute in (Z.min a b) in change (Z.min a b) with v in H
         | |- context [2 ^ ?k] =>
             let v := eval vm_compute in (2 ^ k) in change (2 ^ k) with v
         | H : context [2 ^ ?k] |- _ =>
             let v := eval vm_compute in (2 ^ k) in change (2 ^ k) with v in H
         end.

(** The distance the scan computes between two numbers of [1, 4]: exact below
    2, and at least 2 otherwise. *)
Lemma sub_distance a b :
  in_range a -> in_range b ->
  let fd := F32.abs (F32.sub a b) in
  regular fd /\
  (distance a b < 2 ^ 150 -> scaled fd = distance a b) /\
  (2 ^ 150 <= distance a b -> 2 ^ 150 <= scaled fd).
Proof.
  intros Ra Rb. cbv zeta.
  destruct (in_range_cases a Ra) as (ma & ea & -> & Ba & Ea).
  destruct (in_range_cases b Rb) as (mb & eb & -> & Bb & Eb).
  change (F32.sub (S754_finite false ma ea) (S754_finite false mb eb)) with
    (binary_normalize 24 128
       (Zpos (fst (shl_align ma ea (Z.min ea eb))) - Zpos (fst (shl_align mb eb (Z.min ea eb))))
       (Z.min ea eb) false).
  remember (Zpos (fst (shl_align ma ea (Z.min ea eb)))
            - Zpos (fst (shl_align mb eb (Z.min ea eb)))) as D eqn:HD.
  rewrite !shl_align_value in HD by lia.
  unfold distance. cbn [scaled]. rewrite !Z.mul_1_l.
  pose proof (normalize_exact D) as X. pose proof (normalize_inexact D) as Y.
  cbv zeta in X, Y.
  destruct Ea as [-> | [-> | [-> ->]]], Eb as [-> | [-> | [-> ->]]]; eval_powers;
    match goal with
    | |- context [binary_normalize 24 128 D ?ez false] =>
        destruct (Z.lt_ge_cases (Z.abs D) 16777216) as [L | G];
        [ destruct (X ez ltac:(lia) L) as [R S]; eval_powers; split; [exact R | lia]
        | first [ exfalso; lia
                | destruct (Y ltac:(lia)) as [R S]; split; [exact R | lia] ] ]
    end.
Qed.

(** The scan keeps the first entry of least computed distance; [minimal] is
    only replaced by a strictly smaller distance. *)
Lemma closest_scan factor l init :
  regular (snd init) ->
  Forall (fun e => regular (F32.abs (F32.sub e factor))) l ->
  let d e := scaled (F32.abs (F32.sub e factor)) in
  let r := fold_left (closest_step factor) l init in
  (r = init /\ forall e, In e l -> scaled (snd init) <= d e) \/
  (exists i, nth_error l i = Some (fst r) /\
             d (fst r) < scaled (snd init) /\
             forall j e, nth_error l j = Some e ->
               d (fst r) <= d e /\ ((j < i)%nat -> d (fst r) < d e)).
Proof.
  cbv zeta. revert init. induction l as [|e l IH]; intros init Ri Rl.
  - left. split; [reflexivity | intros e []].
  - inversion Rl as [|? ? Re Rl']; subst. cbn [fold_left].
    assert (Hs : closest_step factor init e =
                 if scaled (F32.abs (F32.sub e factor)) <? scaled (snd init)
                 then (e, F32.abs (F32.sub e factor)) else init).
    { unfold closest_step. cbv zeta. rewrite (F32_ltb_regular _ _ Re Ri). reflexivity. }
    rewrite Hs. clear Hs.
    destruct (Z.ltb_spec (scaled (F32.abs (F32.sub e factor))) (scaled (snd init))) as [L | G].
    + destruct (IH (e, F32.abs (F32.sub e factor)) Re Rl') as [[E A] | (i & N & Hlt & A)];
        cbn [fst snd] in *.
      * right. exists 0%nat. rewrite E. cbn [fst snd nth_error]. split; [reflexivity|].
        split; [exact L|]. intros [|j] e' Hj; cbn [nth_error] in Hj.
        -- injection Hj as <-. split; [lia | lia].
        -- split; [|lia]. apply A. eapply nth_error_In; eauto.
      * right. exists (S i). cbn [nth_error]. split; [exact N|]. split; [lia|].
        intros [|j] e' Hj; cbn [nth_error] in Hj.
        -- injection Hj as <-. split; lia.
        -- destruct (A j e' Hj). split; [assumption | intros; apply H0; lia].
    + destruct (IH init Ri Rl') as [[E A] | (i & N & Hlt & A)].
      * left. split; [exact E|]. intros e' [<- | I]; [exact G | apply A, I].
      * right. exists (S i). cbn [nth_error]. split; [exact N|]. split; [exact Hlt|].
        intros [|j] e' Hj; cbn [nth_error] in Hj.
        -- injection Hj as <-. split; lia.
        -- destruct (A j e' Hj). split; [assumption | intros; apply H0; lia].
Qed.

Lemma supported_in_range : Forall in_range supported_scale_factors.
Proof.
  unfold supported_scale_factors.
  repeat (apply Forall_cons; [cbn [in_range]; split; [reflexivity | split; [lia | intros; first [reflexivity | lia]]] | ]).
  apply Forall_nil.
Qed.

Lemma clamp_in_range x :
  F32.valid x = true -> is_nan x = false -> in_range (clamp_float x f_1 f_4).
Proof.
  intros V N. unfold clamp_float.
  destruct (F32.ltb x f_1) eqn:L1; [repeat split; try reflexivity; lia|].
  destruct (F32.ltb f_4 x) eqn:L4; [repeat split; try reflexivity; lia|].
  destruct x as [s|s| |s m e]; try discriminate.
  - destruct s; [cbv in L1; discriminate L1 | cbv in L4; discriminate L4].
  - destruct s; [cbv in L1; discriminate L1|].
    unfold F32.ltb, SFltb, SFcompare, f_1, f_4 in L1, L4.
    unfold F32.valid, valid_binary, bounded, canonical_mantissa in V.
    apply andb_true_iff in V. destruct V as [C B]. apply Z.eqb_eq in C.
    assert (E : -23 <= e <= -21).
    { destruct (Z.compare_spec e (-23)); destruct (Z.compare_spec (-21) e);
        try discriminate; lia. }
    assert (D : Zpos (digits2_pos m) = 24).
    { unfold fexp, emin, F32.prec, F32.emax in C. lia. }
    cbn [in_range]. split; [exact D|]. split; [exact E|].
    intros ->. cbn [Z.compare] in L4.
    change (Pos.compare_cont Eq 8388608 m) with (8388608 ?= m)%positive in L4.
    apply digits2_pos_bounds in D.
    change (2 ^ (24 - 1)) with 8388608 in D. change (2 ^ 24) with 16777216 in D.
    destruct (Pos.compare_spec 8388608 m) as [Q | Q | Q]; try discriminate.
    + congruence.
    + apply Pos2Z.pos_lt_pos in Q. clear - D Q. lia.
Qed.

Lemma regular_max_value : regular F32.max_value.
Proof. split; [reflexivity | discriminate]. Qed.

(** Every number of [1, 4] is less than 2 away from the entry 2 or from the
    entry 4. *)
Lemma some_entry_is_close c :
  in_range c ->
  exists e, In e supported_scale_factors /\ distance e c < 2 ^ 150.
Proof.
  intros Rc. destruct (in_range_cases c Rc) as (m & e & -> & B & E).
  change (2 ^ 23) with 8388608 in B. change (2 ^ 24) with 16777216 in B.
  destruct E as [-> | [-> | [-> ->]]].
  - exists (S754_finite false 8388608 (-22)). split; [cbn; tauto|].
    unfold distance. cbn [scaled]. eval_powers. lia.
  - exists (S754_finite false 8388608 (-22)). split; [cbn; tauto|].
    unfold distance. cbn [scaled]. eval_powers. lia.
  - exists (S754_finite false 8388608 (-21)). split; [cbn; tauto|].
    unfold distance. cbn [scaled]. eval_powers. lia.
Qed.

(** The scan of [find_closest_scale_factor], run on a number of [1, 4],
    returns the nearest supported factor, the earlier one on a tie. *)
Lemma find_closest_scale_factor_nearest c :
  in_range c -> nearest_supported c (find_closest_scale_factor c).
Proof.
  intros Rc.
  assert (Rl : Forall (fun e => regular (F32.abs (F32.sub e c))) supported_scale_factors).
  { eapply Forall_impl; [|exact supported_in_range].
    intros e Re. apply (sub_distance e c Re Rc). }
  destruct (some_entry_is_close c Rc) as (ek & Ik & Dk).
  assert (Rk : in_range ek).
  { pose proof supported_in_range as F. rewrite Forall_forall in F. auto. }
  destruct (sub_distance ek c Rk Rc) as (_ & Ek & _). specialize (Ek Dk).
  unfold find_closest_scale_factor.
  destruct (closest_scan c supported_scale_factors (f_0, F32.max_value)
              regular_max_value Rl) as [[_ A] | (i & N & _ & A)].
  - exfalso. specialize (A ek Ik). cbn [snd] in A. rewrite Ek in A.
    change (scaled F32.max_value) with (16777215 * 2 ^ 253) in A.
    eval_powers. lia.
  - set (r := fst (fold_left (closest_step c) supported_scale_factors (f_0, F32.max_value))) in *.
    assert (Rr : in_range r).
    { pose proof supported_in_range as F. rewrite Forall_forall in F.
      eapply F, nth_error_In, N. }
    destruct (sub_distance r c Rr Rc) as (_ & Er & Gr).
    destruct (In_nth_error _ _ Ik) as (k & Nk).
    assert (Dr : distance r c < 2 ^ 150).
    { destruct (Z.lt_ge_cases (distance r c) (2 ^ 150)) as [L | G]; [exact L|].
      specialize (Gr G). destruct (A k ek Nk) as [Ak _]. lia. }
    specialize (Er Dr).
    exists i. split; [exact N|]. intros j e Nj.
    assert (Re : in_range e).
    { pose proof supported_in_range as F. rewrite Forall_forall in F.
      eapply F, nth_error_In, Nj. }
    destruct (sub_distance e c Re Rc) as (_ & Ee & Ge).
    destruct (A j e Nj) as [A1 A2].
    destruct (Z.lt_ge_cases (distance e c) (2 ^ 150)) as [L | G].
    + specialize (Ee L). split; [lia | intros Hj; specialize (A2 Hj); lia].
    + split; [lia | intros _; lia].
Qed.

Lemma set_scale_run x m :
  set_scale x m =
    (Ok tt,
     let factor := find_closest_scale_factor (clamp_float x f_1 f_4) in
     with_self
       (with_scale factor
          (if is_close (_scale (self m)) factor f_0_01 then self m
           else with_dirty true (self m))) m).
Proof.
  unfold set_scale. unfold_monad. cbn.
  destruct (is_close _ _ _); reflexivity.
Qed.

(** C6 (as amended): for every binary32 number [x] that is not a NaN,
    [set_scale] stores the supported factor nearest to [x] clamped into
    [1, 4], the earlier-listed one when two are equally near (2.5 gives 2);
    it sets the dirty flag exactly when the previous factor is not within 0.01
    of the stored one; and it touches no buffer, cached size, engine call or
    log line. *)
Theorem set_scale_snaps_to_nearest (x : float) (m : machine) :
  F32.valid x = true -> is_nan x = false ->
  let m' := snd (set_scale x m) in
  fst (set_scale x m) = Ok tt /\
  nearest_supported (clamp_float x f_1 f_4) (_scale (self m')) /\
  _dirty (self m') =
    (_dirty (self m) || negb (is_close (_scale (self m)) (_scale (self m')) f_0_01)) /\
  setter_frame m m' /\
  _scale (self (snd (set_scale f_2_5 m))) = f_2.
Proof.
  intros V N. cbv zeta. rewrite !set_scale_run. cbn [fst snd]. cbv zeta.
  split; [reflexivity|]. split; [|split; [|split]].
  - cbn [self with_self _scale with_scale].
    apply find_closest_scale_factor_nearest, clamp_in_range; assumption.
  - cbn [self with_self _scale with_scale _dirty].
    destruct (is_close _ _ _); cbn; rewrite ?orb_false_r, ?orb_true_r; reflexivity.
  - unfold setter_frame. destruct (is_close _ _ _); cbn; repeat split; reflexivity.
  - reflexivity.
Qed.

(** The witness of C6: 2.5 lies midway between 2 and 3; the scan keeps 2. *)
Lemma set_scale_tie_witness :
  F32.valid f_2_5 = true /\ is_nan f_2_5 = false /\ nearest_supported f_2_5 f_2.
Proof.
  split; [reflexivity|]. split; [reflexivity|].
  exact (proj1 (proj2 (set_scale_snaps_to_nearest f_2_5 (boot healthy) eq_refl eq_refl))).
Defined.

(** C6 (as stated) fails on a NaN: the clamp lets it through, no distance
    compares below the running minimum, and the scan returns its initial
    0.0, which is no supported factor. *)
Lemma set_scale_nan_stores_zero :
  _scale (self (snd (set_scale S754_nan (boot healthy)))) = f_0 /\
  ~ In f_0 supported_scale_factors.
Proof.
  split; [reflexivity|].
  cbn. intros [H | [H | [H | [H | [H | []]]]]]; discriminate H.
Qed.
(* ================================================================= *)
(** ** One pass of the negotiation *)

Lemma read_write_other r r' v m : r <> r' -> read_ref r (write_ref r' v m) = read_ref r m.
Proof.
  intros N. destruct r, r'; cbn; try reflexivity; try congruence.
  destruct (Nat.eqb_spec n n0); [congruence | reflexivity].
Qed.

Lemma write_ref_scale r v m : _scale (self (write_ref r v m)) = _scale (self m).
Proof. destruct r; reflexivity. Qed.

Lemma read_bind {B} r (k : Z * Z -> M B) m : bind (read r) k m = k (read_ref r m) m.
Proof. reflexivity. Qed.

Lemma write_first_bind {B} r v (k : unit -> M B) m :
  bind (write_first r v) k m = k tt (write_ref r (v, snd (read_ref r m)) m).
Proof. reflexivity. Qed.

Lemma write_second_bind {B} r v (k : unit -> M B) m :
  bind (write_second r v) k m = k tt (write_ref r (fst (read_ref r m), v) m).
Proof. reflexivity. Qed.

Lemma lround_checked_ok_inv {B} x (k : Z -> M B) m b m' :
  bind (lround_checked x) k m = (Ok b, m') ->
  exists v, lround x = Some v /\ k v m = (Ok b, m').
Proof.
  unfold lround_checked. destruct (lround x) as [v|]; [eauto | discriminate].
Qed.

(** What "Calculate Input Size" leaves behind [input_size] when it
    completes: both dimensions clamped. *)
Lemma calculate_input_size_clamps i max_width max_height m m1 :
  calculate_input_size i max_width max_height m = (Ok tt, m1) ->
  _scale (self m1) = _scale (self m) /\
  exists a b,
    read_ref i m1 = (clamp_u32 a min_width max_width, clamp_u32 b min_height max_height).
Proof.
  unfold calculate_input_size. rewrite read_bind.
  destruct (snd (read_ref i m) <? fst (read_ref i m)).
  - rewrite write_first_bind, read_bind. intros H.
    apply lround_checked_ok_inv in H. destruct H as (v & _ & H).
    injection H as <-. rewrite !write_ref_scale, !read_write_ref. cbn [fst snd]. eauto.
  - rewrite write_second_bind, read_bind. intros H.
    apply lround_checked_ok_inv in H. destruct H as (v & _ & H).
    injection H as <-. rewrite !write_ref_scale, !read_write_ref. cbn [fst snd]. eauto.
Qed.

(** What "Calculate Output Size" computes when it completes, for an output
    pair that is not the input pair. *)
Lemma calculate_output_size_rounds i o m m1 :
  i <> o ->
  calculate_output_size i o m = (Ok tt, m1) ->
  read_ref i m1 = read_ref i m /\
  _scale (self m1) = _scale (self m) /\
  exists vw vh,
    lround (F32.mul (F32.of_Z (fst (read_ref i m))) (_scale (self m))) = Some vw /\
    lround (F32.mul (F32.of_Z (snd (read_ref i m))) (_scale (self m))) = Some vh /\
    read_ref o m1 = (to_uint32 vw, to_uint32 vh).
Proof.
  intros N. unfold calculate_output_size. rewrite read_bind, gets_bind. intros H.
  apply lround_checked_ok_inv in H. destruct H as (vw & Ew & H).
  rewrite write_first_bind, read_bind, gets_bind in H.
  rewrite read_write_other, write_ref_scale in H by exact N.
  apply lround_checked_ok_inv in H. destruct H as (vh & Eh & H).
  injection H as <-.
  rewrite !read_write_ref, !read_write_other, !write_ref_scale by exact N.
  cbn [fst snd]. eauto 10.
Qed.

Lemma negotiate_once_inv sz i o m m1 :
  negotiate_once sz i o m = (Ok tt, m1) ->
  exists m' m0,
    _scale (self m') = _scale (self m) /\
    calculate_input_size i (fst (max_size (_scale (self m)))) (snd (max_size (_scale (self m))))
      m' = (Ok tt, m0) /\
    calculate_output_size i o m0 = (Ok tt, m1).
Proof.
  unfold negotiate_once.
  rewrite gets_bind, read_bind, write_first_bind, read_bind, write_second_bind.
  intros H. apply bind_ok_inv in H. destruct H as ([] & m0 & H0 & H1).
  eexists _, m0. split; [|split; [exact H0 | exact H1]].
  rewrite !write_ref_scale. reflexivity.
Qed.

Lemma negotiate_once_bounds sz i o m m1 :
  i <> o ->
  negotiate_once sz i o m = (Ok tt, m1) ->
  _scale (self m1) = _scale (self m) /\
  within_bounds (_scale (self m)) (read_ref i m1) = true.
Proof.
  intros N H. apply negotiate_once_inv in H. destruct H as (m' & m0 & S' & H0 & H1).
  apply calculate_input_size_clamps in H0. destruct H0 as (S0 & a & b & R).
  apply (calculate_output_size_rounds _ _ _ _ N) in H1. destruct H1 as (R1 & S1 & _).
  split; [congruence|].
  rewrite R1, R. unfold within_bounds. cbn [fst snd].
  pose proof (clamp_u32_bounds a min_width (fst (max_size (_scale (self m))))) as Bw.
  pose proof (clamp_u32_bounds b min_height (snd (max_size (_scale (self m))))) as Bh.
  unfold min_width, min_height in *.
  destruct (max_size_cases (_scale (self m))) as [E | [E | E]]; rewrite E in *;
    cbn [fst snd] in *; rewrite !andb_true_iff, !Z.leb_le; lia.
Qed.

(** X3: a pass of the negotiation that completes, on an output pair that is not
    the input pair, keeps [_scale], leaves an input size within the bounds of
    that scale and an output size that is the input size times the scale,
    rounded per axis. *)
Theorem negotiation_pass_clamps_and_scales sz i o m m1 :
  i <> o ->
  negotiate_once sz i o m = (Ok tt, m1) ->
  let s := _scale (self m) in
  let input := read_ref i m1 in
  _scale (self m1) = s /\
  within_bounds s input = true /\
  exists vw vh,
    lround (F32.mul (F32.of_Z (fst input)) s) = Some vw /\
    lround (F32.mul (F32.of_Z (snd input)) s) = Some vh /\
    read_ref o m1 = (to_uint32 vw, to_uint32 vh).
Proof.
  intros N H. cbv zeta.
  destruct (negotiate_once_bounds _ _ _ _ _ N H) as (S1 & B).
  split; [exact S1|]. split; [exact B|].
  apply negotiate_once_inv in H. destruct H as (m' & m0 & S' & H0 & H1).
  apply (calculate_output_size_rounds _ _ _ _ N) in H1.
  destruct H1 as (R1 & S0 & vw & vh & Ew & Eh & Ro).
  exists vw, vh. rewrite R1, <- S1, S0. auto.
Qed.

(** A pass at scale 1.5 on the request 10000x1: the input becomes 1920x90
    and the output 2880x135. *)
Lemma negotiation_pass_witness :
  let m := caller (10000, 1) in
  let m1 := snd (negotiate_once (ref_local 0) (ref_local 1) (ref_local 2) m) in
  read_ref (ref_local 1) m1 = (1920, 90) /\
  read_ref (ref_local 2) m1 = (2880, 135) /\
  within_bounds f_1_5 (read_ref (ref_local 1) m1) = true.
Proof.
  cbv zeta. split; [vm_compute; reflexivity|]. split; [vm_compute; reflexivity|].
  refine (proj1 (proj2 (negotiation_pass_clamps_and_scales (ref_local 0) (ref_local 1)
            (ref_local 2) (caller (10000, 1)) _ _ _))).
  - discriminate.
  - vm_compute; reflexivity.
Defined.

(* ================================================================= *)
(** ** The retry stays inside the table *)

(** Checked on every dimension the clamps can produce. *)
Lemma whole_scales_verify s n :
  In s whole_scales -> 90 <= n <= 1920 -> axis_verifies s n = true.
Proof.
  intros I H.
  assert (A : forallb (fun s => forallb (fun k => axis_verifies s (Z.of_nat k)) (seq 90 1831))
                whole_scales = true) by (vm_compute; reflexivity).
  rewrite forallb_forall in A. specialize (A s I).
  rewrite forallb_forall in A. specialize (A (Z.to_nat n)).
  rewrite Z2Nat.id in A by lia. apply A. apply in_seq. lia.
Qed.

Lemma within_bounds_range s p :
  within_bounds s p = true -> 90 <= fst p <= 1920 /\ 90 <= snd p <= 1920.
Proof.
  unfold within_bounds, min_width, min_height.
  rewrite !andb_true_iff, !Z.leb_le.
  destruct (max_size_cases s) as [E | [E | E]]; rewrite E; cbn [fst snd]; lia.
Qed.

(** After a pass at a whole scale the verification succeeds. *)
Lemma whole_scale_is_valid sz i o m m1 :
  i <> o ->
  In (_scale (self m)) whole_scales ->
  negotiate_once sz i o m = (Ok tt, m1) ->
  scale_is_valid i o m1 = (Ok true, m1).
Proof.
  intros N I H.
  destruct (negotiate_once_bounds _ _ _ _ _ N H) as (S1 & B).
  apply within_bounds_range in B.
  apply negotiate_once_inv in H. destruct H as (m' & m0 & S' & H0 & H1).
  apply (calculate_output_size_rounds _ _ _ _ N) in H1.
  destruct H1 as (R1 & S0 & vw & vh & Ew & Eh & Ro).
  unfold scale_is_valid. rewrite !read_bind, gets_bind. unfold ret.
  rewrite Ro. cbn [fst snd]. rewrite <- R1 in Ew, Eh. rewrite <- S0 in Ew, Eh.
  rewrite <- S1 in I.
  pose proof (whole_scales_verify _ _ I (proj1 B)) as Vw.
  pose proof (whole_scales_verify _ _ I (proj2 B)) as Vh.
  unfold axis_verifies in Vw, Vh. rewrite Ew in Vw. rewrite Eh in Vh.
  rewrite Vw, Vh. reflexivity.
Qed.

Lemma negotiate_once_outcome sz i o m :
  fst (negotiate_once sz i o m) <> out_of_range.
Proof.
  unfold negotiate_once, calculate_input_size, calculate_output_size, lround_checked.
  unfold_monad. cbn [fst snd].
  repeat (destruct_innermost; cbn [fst snd]); discriminate.
Qed.

Lemma storable_cases s :
  storable s ->
  In s whole_scales \/
  exists next, nth_error supported_scale_factors (find_closest_scale_factor_index s + 1) = Some next /\
               storable next.
Proof.
  intros [I | ->]; [|left; left; reflexivity].
  cbn in I. destruct I as [<- | [<- | I]].
  - right. eexists. split; [vm_compute; reflexivity|]. left. cbn. auto.
  - right. eexists. split; [vm_compute; reflexivity|]. left. cbn. auto.
  - left. right. cbn. tauto.
Qed.

(** X4: as long as [_scale] holds a value that [set_scale] can store and the
    output pair is not the input pair, the retry of [size] never reads past
    the end of [supported_scale_factors]: the verification can fail at 4/3
    and at 1.5 only, and never at 2, 3 or 4. *)
Theorem retry_stays_in_the_table (fuel : nat) (sz i o : pair_ref) (m : machine) :
  i <> o ->
  storable (_scale (self m)) ->
  fst (size_rec fuel sz i o m) <> out_of_range.
Proof.
  intros N. revert m. induction fuel as [|fuel IH]; intros m St; [discriminate|].
  cbn [size_rec]. rewrite bind_run. change (fst (cache_matches i m)) with
    (@Ok bool ((fst (read_ref i m) =? fst (_cache_input_size (self m))) &&
               (snd (read_ref i m) =? snd (_cache_input_size (self m))) &&
               F32.eqb (_scale (self m)) (_cache_scale (self m)))).
  rewrite cache_matches_pure.
  destruct (_ && _ && _).
  { rewrite (surjective_pairing (return_cached i o m)), return_cached_ok. discriminate. }
  rewrite bind_run.
  pose proof (negotiate_once_outcome sz i o m) as O.
  destruct (negotiate_once sz i o m) as [[[]|w|w|] m1] eqn:E; cbn [fst snd] in *;
    try discriminate; [|exact O].
  destruct (negotiate_once_bounds _ _ _ _ _ N E) as (S1 & _).
  rewrite bind_run, scale_is_valid_pure.
  destruct (storable_cases _ St) as [W | (next & Nx & St')].
  { rewrite (whole_scale_is_valid _ _ _ _ _ N W E). cbn [fst negb when].
    rewrite bind_run. cbn [fst snd ret].
    rewrite (surjective_pairing (update_cache i o m1)), update_cache_ok. discriminate. }
  change (fst (scale_is_valid i o m1)) with
    (@Ok bool (let o' := read_ref o m1 in let i' := read_ref i m1 in
       is_close (F32.div (F32.of_Z (fst o')) (F32.of_Z (fst i'))) (_scale (self m1)) f_0_00001 &&
       is_close (F32.div (F32.of_Z (snd o')) (F32.of_Z (snd i'))) (_scale (self m1)) f_0_00001)).
  cbv zeta.
  destruct (_ && _); cbn [negb when].
  { rewrite bind_run. cbn [fst snd ret].
    rewrite (surjective_pairing (update_cache i o m1)), update_cache_ok. discriminate. }
  rewrite bind_run, gets_bind, S1, Nx.
  destruct (Nat.ltb _ _); cbn [when].
  2:{ cbn [fst snd ret].
      rewrite (surjective_pairing (update_cache i o m1)), update_cache_ok. discriminate. }
  rewrite modify_bind.
  specialize (IH (with_self (with_scale next (self m1)) m1) St').
  destruct (size_rec fuel sz i o _) as [[[]|w|w|] m3]; cbn [fst snd] in *;
    try discriminate. exact IH.
Qed.

(** [set_scale] always leaves a storable value. *)
Lemma find_closest_scale_factor_storable x : storable (find_closest_scale_factor x).
Proof.
  unfold find_closest_scale_factor, storable.
  assert (G : forall l acc,
             (In (fst acc) supported_scale_factors \/ fst acc = f_0) ->
             (forall y, In y l -> In y supported_scale_factors) ->
             In (fst (fold_left (closest_step x) l acc)) supported_scale_factors \/
             fst (fold_left (closest_step x) l acc) = f_0).
  { induction l as [|d l IHl]; intros acc A Sub; [exact A|].
    cbn [fold_left]. apply IHl.
    - unfold closest_step. destruct (F32.ltb _ _); cbn [fst]; [left; apply Sub; left; reflexivity | exact A].
    - intros y Y. apply Sub. right. exact Y. }
  apply G; [right; reflexivity | auto].
Qed.

(** X5: whatever its argument, [set_scale] leaves a supported factor or 0 in
    [_scale]; so does the constructor. *)
Theorem set_scale_stores_storable (x : float) (m : machine) :
  storable (_scale (self (snd (set_scale x m)))) /\
  storable (_scale (self constructed)).
Proof.
  split.
  - rewrite set_scale_run. cbv zeta. cbn [snd self].
    destruct (is_close _ _ _); apply find_closest_scale_factor_storable.
  - left. vm_compute. tauto.
Qed.

(** At scale 4 and with pairs of its own for the input and the output, the
    request 1280x720 is answered with 960x540 and 3840x2160. *)
Lemma retry_in_the_table_witness :
  fst (size (ref_local 0) (ref_local 1) (ref_local 2) at_scale_4) <> out_of_range /\
  fst (size (ref_local 0) (ref_local 1) (ref_local 2) at_scale_4) = Ok tt.
Proof.
  split; [|vm_compute; reflexivity].
  refine (retry_stays_in_the_table size_fuel (ref_local 0) (ref_local 1) (ref_local 2)
            at_scale_4 _ _).
  - discriminate.
  - left. do 4 right. left. vm_compute; reflexivity.
Defined.
(* ================================================================= *)
(** ** Sizings returned to a caller with pairs of its own *)

Lemma scale_is_valid_run i o m :
  scale_is_valid i o m = (Ok (valid_sizing (read_ref i m) (read_ref o m) (_scale (self m))), m).
Proof. reflexivity. Qed.

Lemma write_local_self n v m : self (write_ref (ref_local n) v m) = self m.
Proof. reflexivity. Qed.

Lemma negotiate_once_local_self sz a b m :
  self (snd (negotiate_once sz (ref_local a) (ref_local b) m)) = self m.
Proof.
  unfold negotiate_once, calculate_input_size, calculate_output_size, lround_checked.
  unfold_monad. cbn [fst snd].
  repeat (destruct_innermost; cbn [fst snd]); reflexivity.
Qed.

Lemma return_cached_local a b m :
  a <> b ->
  let m' := snd (return_cached (ref_local a) (ref_local b) m) in
  read_ref (ref_local a) m' = _cache_input_size (self m) /\
  read_ref (ref_local b) m' = _cache_output_size (self m) /\
  self m' = with_scale (_cache_scale (self m)) (self m).
Proof.
  intros N. cbn. rewrite !Nat.eqb_refl.
  destruct (Nat.eqb_spec a b); [contradiction|]. auto.
Qed.

Lemma update_cache_local a b m :
  let m' := snd (update_cache (ref_local a) (ref_local b) m) in
  locals m' = locals m /\
  _scale (self m') = _scale (self m) /\
  _cache_input_size (self m') = locals m a /\
  _cache_output_size (self m') = locals m b /\
  _cache_scale (self m') = _scale (self m).
Proof. cbn. auto. Qed.

(** X6: on an object whose cached sizing passes the verification, every
    sizing that [size] returns to a caller with pairs of its own passes it
    too, at the scale [size] leaves in [_scale], and the cache stays so. *)
Theorem size_answers_verify (fuel : nat) (sz : pair_ref) (a b : nat) (m m' : machine) :
  a <> b ->
  cache_valid m ->
  size_rec fuel sz (ref_local a) (ref_local b) m = (Ok tt, m') ->
  answer_valid (ref_local a) (ref_local b) m' /\ cache_valid m'.
Proof.
  intros N. revert m m'. induction fuel as [|fuel IH]; intros m m' CV R; [discriminate|].
  cbn [size_rec] in R. rewrite bind_run in R.
  change (fst (cache_matches (ref_local a) m)) with
    (@Ok bool ((fst (read_ref (ref_local a) m) =? fst (_cache_input_size (self m))) &&
               (snd (read_ref (ref_local a) m) =? snd (_cache_input_size (self m))) &&
               F32.eqb (_scale (self m)) (_cache_scale (self m)))) in R.
  rewrite cache_matches_pure in R.
  destruct (_ && _ && _).
  - (* served from the cache *)
    destruct (return_cached_local a b m N) as (Ra & Rb & Rs).
    rewrite (surjective_pairing (return_cached _ _ m)) in R.
    apply (f_equal snd) in R; cbn [snd] in R; subst m'.
    unfold answer_valid, cache_valid. rewrite Ra, Rb, Rs. cbn. split; exact CV.
  - rewrite bind_run in R.
    pose proof (negotiate_once_local_self sz a b m) as S1.
    destruct (negotiate_once sz (ref_local a) (ref_local b) m) as [[[]|w|w|] m1];
      cbn [fst snd] in *; try discriminate.
    rewrite bind_run, scale_is_valid_run in R. cbn [fst snd] in R.
    destruct (valid_sizing _ _ _) eqn:V; cbn [negb when] in R.
    + (* verified at the first pass *)
      rewrite bind_run in R. cbn [fst snd ret] in R.
      rewrite (surjective_pairing (update_cache _ _ m1)) in R.
      apply (f_equal snd) in R; cbn [snd] in R; subst m'.
      destruct (update_cache_local a b m1) as (L & Sc & Ci & Co & Cs).
      unfold answer_valid, cache_valid. cbn [read_ref].
      rewrite L, Sc, Ci, Co, Cs. split; exact V.
    + (* the retry *)
      rewrite bind_run, gets_bind in R.
      rewrite (proj2 (Nat.ltb_lt _ _) (find_closest_scale_factor_index_lt _)) in R.
      cbn [when] in R.
      destruct (nth_error _ _) as [next|]; [|discriminate].
      rewrite modify_bind in R.
      destruct (size_rec fuel sz (ref_local a) (ref_local b) _) as [[[]|w|w|] m3] eqn:R3;
        cbn [fst snd] in R; try discriminate.
      apply IH in R3.
      * destruct R3 as (AV & _).
        rewrite (surjective_pairing (update_cache _ _ m3)) in R.
        apply (f_equal snd) in R; cbn [snd] in R; subst m'.
        destruct (update_cache_local a b m3) as (L & Sc & Ci & Co & Cs).
        unfold answer_valid, cache_valid in *. cbn [read_ref] in *.
        rewrite L, Sc, Ci, Co, Cs. split; exact AV.
      * unfold cache_valid in *. cbn. rewrite S1. exact CV.
Qed.

(** Asked for 161x100 after [set_scale(1.f)], which stores 4/3: the
    verification fails at 4/3 (215/161) and at 1.5 (242/161), and [size]
    answers 161x100 and 322x200 at scale 2. *)
Lemma size_answers_verify_witness :
  let m' := snd (size (ref_local 0) (ref_local 1) (ref_local 2) (prepared f_1 (161, 100))) in
  read_ref (ref_local 1) m' = (161, 100) /\
  read_ref (ref_local 2) m' = (322, 200) /\
  _scale (self m') = f_2 /\
  answer_valid (ref_local 1) (ref_local 2) m'.
Proof.
  cbv zeta. do 3 (split; [vm_compute; reflexivity|]).
  refine (proj1 (size_answers_verify size_fuel (ref_local 0) 1 2
            (prepared f_1 (161, 100)) _ _ _ _)).
  - discriminate.
  - vm_compute; reflexivity.
  - vm_compute; reflexivity.
Defined.

(** The same request through [resize]: the retry at 1.5 finds the cached
    scale 1.5 and the member compared with itself, and returns the output
    computed for 4/3 as the sizing for 1.5. *)
Example resize_retry_is_served_from_the_cache :
  let m' := snd (resize 161 100 (prepared f_1 (161, 100))) in
  _scale (self (prepared f_1 (161, 100))) = nth 0 supported_scale_factors f_0 /\
  fst (resize 161 100 (prepared f_1 (161, 100))) = Ok tt /\
  _cache_input_size (self m') = (161, 100) /\
  _cache_output_size (self m') = (215, 133) /\
  _scale (self m') = f_1_5 /\
  valid_sizing (_cache_input_size (self m')) (_cache_output_size (self m')) (_scale (self m'))
    = false.
Proof. vm_compute. repeat split; reflexivity. Qed.


(* ================================================================= *)
(** ** The cache check of [size] under [resize] *)

(** X2: [resize] stores the request in [_cache_input_size] and passes that member
    as [size] and as [input_size]: the comparison of [input_size] with
    [_cache_input_size] compares the member with itself, so whenever [_scale]
    equals the cached scale [size] returns at once, leaving the request as
    the input size and the old output size in place. *)
Theorem resize_serves_the_cache w h m :
  F32.eqb (_scale (self m)) (_cache_scale (self m)) = true ->
  let m0 := with_self (with_cache_input_size (w, h) (self m)) m in
  let r := size ref_cache_input_size ref_cache_input_size ref_cache_output_size m0 in
  fst r = Ok tt /\
  _cache_input_size (self (snd r)) = (w, h) /\
  _cache_output_size (self (snd r)) = _cache_output_size (self m) /\
  _scale (self (snd r)) = _cache_scale (self m).
Proof.
  intros E. cbv zeta.
  set (m0 := with_self (with_cache_input_size (w, h) (self m)) m).
  assert (C : cache_matches ref_cache_input_size m0 = (Ok true, m0)).
  { unfold cache_matches. unfold_monad. cbn. rewrite !Z.eqb_refl, E. reflexivity. }
  unfold size, size_fuel. cbn [List.length supported_scale_factors size_rec].
  rewrite (bind_ok _ _ _ _ _ C).
  unfold return_cached. unfold_monad. cbn. repeat split; reflexivity.
Qed.

(** The object the constructor leaves, asked for 1920x1080: the answer is
    the request itself with the output size of 160x90. *)
Lemma resize_serves_the_cache_witness :
  let m0 := with_self (with_cache_input_size (1920, 1080) (self constructed)) constructed in
  let r := size ref_cache_input_size ref_cache_input_size ref_cache_output_size m0 in
  _cache_input_size (self (snd r)) = (1920, 1080) /\
  _cache_output_size (self (snd r)) = (240, 135).
Proof.
  cbv zeta.
  destruct (resize_serves_the_cache 1920 1080 constructed) as (_ & I & O & _).
  - vm_compute; reflexivity.
  - split; [exact I | exact O].
Defined.

(** C1 (defect of the code): the constructor has negotiated 160x90 at scale
    1.5 (output 240x135).  A following [resize(1920, 1080)] at the same scale
    does not negotiate: the cached input size becomes the raw request and
    the cached output size stays 240x135, where one pass of the negotiation
    on the same request gives 1920x1080 and 2880x1620. *)
Theorem resize_with_new_size_serves_stale_sizing :
  let m' := snd (resize 1920 1080 constructed) in
  _cache_input_size (self constructed) = (160, 90) /\
  _cache_output_size (self constructed) = (240, 135) /\
  _scale (self constructed) = f_1_5 /\
  fst (resize 1920 1080 constructed) = Ok tt /\
  _scale (self m') = f_1_5 /\
  _cache_input_size (self m') = (1920, 1080) /\
  _cache_output_size (self m') = (240, 135) /\
  (let fresh :=
     snd (negotiate_once ref_cache_input_size ref_cache_input_size ref_cache_output_size
            (with_self (with_cache_input_size (1920, 1080) (self constructed)) constructed)) in
   _cache_input_size (self fresh) = (1920, 1080) /\
   _cache_output_size (self fresh) = (2880, 1620)).
Proof. vm_compute. repeat split; reflexivity. Qed.

(** C4 (defect of the code): after the constructor, [resize(10000, 1)] at the
    unchanged scale 1.5 is served from the cache; the input size stays
    10000x1, outside [160, 1920] x [90, 1080], and the input buffers are
    sized to it. *)
Theorem resize_leaves_request_unclamped :
  let m' := snd (resize 10000 1 constructed) in
  fst (resize 10000 1 constructed) = Ok tt /\
  _scale (self m') = f_1_5 /\
  max_size (_scale (self m')) = (1920, 1080) /\
  _cache_input_size (self m') = (10000, 1) /\
  within_bounds (_scale (self m')) (_cache_input_size (self m')) = false /\
  _input (self m') = Some (mk_buffer 10000 1 cv_texture_GS_RGBA_UNORM) /\
  _convert_to_fp32 (self m') = Some (mk_buffer 10000 1 (cv_image RGBA FP32 PLANAR)) /\
  _source (self m') = Some (mk_buffer 10000 1 (cv_image BGR FP32 PLANAR)).
Proof. vm_compute. repeat split; reflexivity. Qed.

(** C5 (defect of the code): the sizing [resize(1920, 1080)] returns after
    the constructor is input 1920x1080, output 240x135, scale 1.5; the
    ratios are 0.125, and the verification of [size] run on this sizing
    rejects it. *)
Theorem resize_returns_sizing_off_scale :
  let m' := snd (resize 1920 1080 constructed) in
  fst (resize 1920 1080 constructed) = Ok tt /\
  _cache_input_size (self m') = (1920, 1080) /\
  _cache_output_size (self m') = (240, 135) /\
  _scale (self m') = f_1_5 /\
  F32.div (F32.of_Z 240) (F32.of_Z 1920) = F32.dyadic 1 (-3) /\
  is_close (F32.div (F32.of_Z 240) (F32.of_Z 1920)) f_1_5 f_0_00001 = false /\
  fst (scale_is_valid ref_cache_input_size ref_cache_output_size m') = Ok false.
Proof. vm_compute. repeat split; reflexivity. Qed.

(* ================================================================= *)
(** ** The two scans of the table *)

(** The scans make the same comparisons: after any number of entries they
    hold the same distance, and either none has replaced its initial pair or
    the index of the one points at the entry of the other. *)
Lemma scans_in_step factor pre rest (minimal : float * float) (minimal_idx : nat * float) :
  snd minimal = snd minimal_idx ->
  (nth_error (pre ++ rest) (fst minimal_idx) = Some (fst minimal) \/
   (fst minimal = f_0 /\ fst minimal_idx = 0%nat)) ->
  let r := fold_left (closest_step factor) rest minimal in
  let r_idx := closest_index_loop factor rest (List.length pre) minimal_idx in
  nth_error (pre ++ rest) (fst r_idx) = Some (fst r) \/
  (fst r = f_0 /\ fst r_idx = 0%nat).
Proof.
  revert pre minimal minimal_idx.
  induction rest as [|delta rest IH]; intros pre minimal minimal_idx D R; cbn.
  - exact R.
  - specialize (IH (pre ++ [delta])).
    rewrite <- app_assoc in IH. cbn [app] in IH.
    replace (List.length (pre ++ [delta])) with (S (List.length pre)) in IH
      by (rewrite length_app; cbn; lia).
    apply IH; unfold closest_step; rewrite <- D;
      destruct (F32.ltb _ (snd minimal)); cbn [fst snd]; auto.
    left. rewrite nth_error_app2 by lia. rewrite Nat.sub_diag. reflexivity.
Qed.

(** X7: [find_closest_scale_factor_index] gives the position in the table of
    the entry that [find_closest_scale_factor] gives, for every argument on
    which some distance is below [numeric_limits<float>::max()]; on the
    others (a NaN among them) the one gives 0.0 and the other index 0.  The
    index is always inside the table, and each entry of the table is its own
    closest entry. *)
Theorem scans_agree (factor : float) :
  (nth_error supported_scale_factors (find_closest_scale_factor_index factor)
     = Some (find_closest_scale_factor factor) \/
   (find_closest_scale_factor factor = f_0 /\
    find_closest_scale_factor_index factor = 0%nat)) /\
  (find_closest_scale_factor_index factor < List.length supported_scale_factors)%nat /\
  (forall k entry, nth_error supported_scale_factors k = Some entry ->
     find_closest_scale_factor entry = entry /\
     find_closest_scale_factor_index entry = k).
Proof.
  split; [|split].
  - exact (scans_in_step factor [] supported_scale_factors (f_0, F32.max_value)
             (0%nat, F32.max_value) eq_refl (or_intror (conj eq_refl eq_refl))).
  - apply find_closest_scale_factor_index_lt.
  - intros k entry.
    do 5 (destruct k as [|k]; [intros [= <-]; split; vm_compute; reflexivity|]).
    destruct k; discriminate.
Qed.

(* ================================================================= *)
(** ** Setting the scale again *)

Lemma with_self_self m : with_self (self m) m = m.
Proof. destruct m; reflexivity. Qed.

Lemma with_scale_same o : with_scale (_scale o) o = o.
Proof. destruct o; reflexivity. Qed.

(** A storable value is close to itself. *)
Lemma storable_is_close s : storable s -> is_close s s f_0_01 = true.
Proof.
  intros [I | ->]; [|vm_compute; reflexivity].
  cbn in I. repeat (destruct I as [<- | I]; [vm_compute; reflexivity|]). contradiction.
Qed.

(** [set_scale] with the scale in force, when that is a supported factor. *)
Lemma set_scale_same m :
  In (_scale (self m)) supported_scale_factors ->
  set_scale (_scale (self m)) m = (Ok tt, m).
Proof.
  intros I. rewrite set_scale_run. cbv zeta.
  assert (F : find_closest_scale_factor (clamp_float (_scale (self m)) f_1 f_4)
              = _scale (self m)).
  { cbn in I. repeat (destruct I as [<- | I]; [vm_compute; reflexivity|]). contradiction. }
  rewrite F, (storable_is_close _ (or_introl I)).
  rewrite with_scale_same, with_self_self. reflexivity.
Qed.

(** X8: [set_scale] is idempotent: a second call with the same argument,
    a NaN included, leaves the object as the first call left it, and so does
    not mark it dirty. *)
Theorem set_scale_idempotent (x : float) (m : machine) :
  let m1 := snd (set_scale x m) in
  set_scale x m1 = (Ok tt, m1).
Proof.
  cbv zeta. rewrite (set_scale_run x (snd (set_scale x m))). cbv zeta.
  assert (S1 : _scale (self (snd (set_scale x m)))
               = find_closest_scale_factor (clamp_float x f_1 f_4)).
  { rewrite set_scale_run. cbv zeta. cbn [snd self with_self].
    destruct (is_close _ _ _); reflexivity. }
  rewrite <- S1.
  rewrite storable_is_close
    by (rewrite S1; apply find_closest_scale_factor_storable).
  rewrite with_scale_same, with_self_self. reflexivity.
Qed.

(** X9: when [_scale] holds a supported factor, setting the scale to what
    [scale()] returns changes nothing: the factor is stored again as it is and
    the object is not marked dirty. *)
Theorem scale_round_trip (m : machine) :
  In (_scale (self m)) supported_scale_factors ->
  (s <- scale ;; set_scale s) m = (Ok tt, m).
Proof.
  intros I. unfold scale. rewrite gets_bind. apply set_scale_same, I.
Qed.

(** The object the constructor leaves has scale 1.5. *)
Lemma scale_round_trip_witness :
  (s <- scale ;; set_scale s) constructed = (Ok tt, constructed).
Proof.
  apply scale_round_trip. right. left. vm_compute; reflexivity.
Defined.

(* ================================================================= *)
(** ** What a completed [size] leaves in the cache *)

#[global] Instance keeps_sizing_seq : Sequential keeps_sizing.
Proof. split; unfold keeps_sizing; intuition congruence. Qed.

Lemma F32_eqb_refl s : is_nan s = false -> F32.eqb s s = true.
Proof.
  unfold F32.eqb, SFeqb. destruct s as [ss|ss| |ss ms es]; cbn [is_nan SFcompare];
    try discriminate; intros _.
  - reflexivity.
  - destruct ss; reflexivity.
  - rewrite Z.compare_refl.
    change (PosDef.Pos.compare_cont Eq ms ms) with (ms ?= ms)%positive.
    rewrite Pos.compare_refl. destruct ss; reflexivity.
Qed.

Lemma F32_eqb_refl_of a b : F32.eqb a b = true -> F32.eqb b b = true.
Proof.
  intros H. apply F32_eqb_refl. destruct b; try reflexivity.
  destruct a; discriminate H.
Qed.

Lemma is_close_scale_eqb a s d : is_close a s d = true -> F32.eqb s s = true.
Proof.
  intros H. apply F32_eqb_refl. destruct s; try reflexivity.
  destruct a; discriminate H.
Qed.

Lemma return_cached_scales i o m :
  let m' := snd (return_cached i o m) in
  _scale (self m') = _cache_scale (self m) /\ _cache_scale (self m') = _cache_scale (self m).
Proof. destruct i, o; cbn; auto. Qed.

Lemma update_cache_scales i o m :
  let m' := snd (update_cache i o m) in
  _scale (self m') = _scale (self m) /\ _cache_scale (self m') = _scale (self m).
Proof. destruct i, o; cbn; auto. Qed.

(** When [size] returns, [_cache_scale] is [_scale], and it is a number. *)
Lemma size_rec_ok_scale_cached fuel sz i o m m' :
  size_rec fuel sz i o m = (Ok tt, m') ->
  _cache_scale (self m') = _scale (self m') /\
  F32.eqb (_scale (self m')) (_scale (self m')) = true.
Proof.
  revert m m'. induction fuel as [|fuel IH]; intros m m' R; [discriminate|].
  cbn [size_rec] in R. rewrite bind_run in R.
  change (fst (cache_matches i m)) with
    (@Ok bool ((fst (read_ref i m) =? fst (_cache_input_size (self m))) &&
               (snd (read_ref i m) =? snd (_cache_input_size (self m))) &&
               F32.eqb (_scale (self m)) (_cache_scale (self m)))) in R.
  rewrite cache_matches_pure in R.
  destruct (_ && _ && _) eqn:C.
  - apply (f_equal snd) in R; cbn [snd] in R; subst m'.
    destruct (return_cached_scales i o m) as (S1 & S2). rewrite S1, S2.
    split; [reflexivity|].
    apply andb_true_iff in C. destruct C as (_ & C). exact (F32_eqb_refl_of _ _ C).
  - rewrite bind_run in R.
    destruct (negotiate_once sz i o m) as [[[]|w|w|] m1]; cbn [fst snd] in *; try discriminate.
    rewrite bind_run, scale_is_valid_run in R. cbn [fst snd] in R.
    destruct (valid_sizing _ _ _) eqn:V; cbn [negb when] in R.
    + rewrite bind_run in R. cbn [fst snd ret] in R.
      apply (f_equal snd) in R; cbn [snd] in R; subst m'.
      destruct (update_cache_scales i o m1) as (S1 & S2). rewrite S1, S2.
      split; [reflexivity|].
      unfold valid_sizing in V. apply andb_true_iff in V. destruct V as (V & _).
      exact (is_close_scale_eqb _ _ _ V).
    + rewrite bind_run, gets_bind in R.
      rewrite (proj2 (Nat.ltb_lt _ _) (find_closest_scale_factor_index_lt _)) in R.
      cbn [when] in R.
      destruct (nth_error _ _) as [next|]; [|discriminate].
      rewrite modify_bind in R.
      destruct (size_rec fuel sz i o _) as [[[]|w|w|] m3] eqn:R3;
        cbn [fst snd] in R; try discriminate.
      apply IH in R3. destruct R3 as (_ & E3).
      apply (f_equal snd) in R; cbn [snd] in R; subst m'.
      destruct (update_cache_scales i o m3) as (S1 & S2). rewrite S1, S2.
      split; [reflexivity | exact E3].
Qed.

(* ================================================================= *)
(** ** One [resize] after another *)

Ltac sizing_leaf :=
  let m := fresh "m" in
  intro m; unfold keeps_sizing;
  unfold_blocks; unfold_monad;
  repeat destruct_innermost;
  cbn; intuition (try discriminate; try congruence).

Lemma ensure_buffers_keep_sizing : satisfies keeps_sizing ensure_buffers.
Proof.
  unfold ensure_buffers.
  repeat first [ solve [auto 1] | satisfies_step | sizing_leaf ].
Qed.

Lemma resize_run w h m :
  resize w h m =
    (size ref_cache_input_size ref_cache_input_size ref_cache_output_size ;; ensure_buffers)
      (with_self (with_cache_input_size (w, h) (self m)) m).
Proof. reflexivity. Qed.

(** The cache check of [size] on the pairs that [resize] passes. *)
Lemma size_of_resize_hits m :
  F32.eqb (_scale (self m)) (_cache_scale (self m)) = true ->
  size ref_cache_input_size ref_cache_input_size ref_cache_output_size m =
    (Ok tt, with_self (with_scale (_cache_scale (self m)) (self m)) m).
Proof.
  intros E. unfold size, size_fuel. cbn [List.length supported_scale_factors size_rec].
  assert (C : cache_matches ref_cache_input_size m = (Ok true, m)).
  { unfold cache_matches. unfold_monad. cbn. rewrite !Z.eqb_refl, E. reflexivity. }
  rewrite (bind_ok _ _ _ _ _ C).
  unfold return_cached. unfold_monad. cbn.
  destruct m as [o l e t lg]; destruct o; reflexivity.
Qed.



(* ================================================================= *)
(** ** A frame *)

Lemma is_success_SUCCESS r : is_success r = true -> r = SUCCESS.
Proof. destruct r; [reflexivity | discriminate]. Qed.

Lemma checked_ok_inv c line what m m' :
  checked c line what m = (Ok tt, m') ->
  engine m (List.length (trace m)) = SUCCESS /\
  m' = with_trace (trace m ++ [(c, SUCCESS)]) m.
Proof.
  unfold checked. unfold_monad. cbn.
  destruct (is_success (engine m (List.length (trace m)))) eqn:E; [|discriminate].
  apply is_success_SUCCESS in E. rewrite E. intros [= <-]. auto.
Qed.

Lemma checked_ok c line what m :
  engine m (List.length (trace m)) = SUCCESS ->
  checked c line what m = (Ok tt, with_trace (trace m ++ [(c, SUCCESS)]) m).
Proof.
  intros E. unfold checked. unfold_monad. cbn. rewrite E. reflexivity.
Qed.

(** A completed run of the conversions and the inference: five successful
    calls, the object untouched, the output texture returned. *)
Lemma convert_and_run_ok_inv m b m' :
  convert_and_run m = (Ok b, m') ->
  _output (self m) = Some b /\
  (forall k, (k < 5)%nat -> engine m (List.length (trace m) + k) = SUCCESS) /\
  m' = with_trace (trace m ++ passed frame_calls) m.
Proof.
  unfold convert_and_run, transfer. intros H.
  rewrite gets_bind in H.
  apply bind_ok_inv in H. destruct H as (bi & m0 & D & H).
  assert (m0 = m) as ->.
  { unfold deref in D. destruct (_input (self m)); [|discriminate]. injection D; auto. }
  clear D.
  apply bind_ok_inv in H. destruct H as ([] & m1 & C1 & H).
  apply checked_ok_inv in C1. destruct C1 as (E1 & ->).
  apply bind_ok_inv in H. destruct H as ([] & m2 & C2 & H).
  apply checked_ok_inv in C2. destruct C2 as (E2 & ->).
  apply bind_ok_inv in H. destruct H as ([] & m3 & C3 & H).
  apply checked_ok_inv in C3. destruct C3 as (E3 & ->).
  apply bind_ok_inv in H. destruct H as ([] & m4 & C4 & H).
  apply checked_ok_inv in C4. destruct C4 as (E4 & ->).
  apply bind_ok_inv in H. destruct H as ([] & m5 & C5 & H).
  apply checked_ok_inv in C5. destruct C5 as (E5 & ->).
  rewrite gets_bind in H. cbn [self with_trace] in H.
  unfold deref in H. destruct (_output (self m)) as [bo|]; [|discriminate].
  injection H as <- <-.
  cbn [trace with_trace engine] in *.
  rewrite !length_app in *. cbn [List.length] in *.
  split; [reflexivity|]. split.
  - intros k K.
    destruct k as [|[|[|[|[|k]]]]]; try lia.
    + rewrite Nat.add_0_r. exact E1.
    + exact E2.
    + replace (List.length (trace m) + 2)%nat with (List.length (trace m) + 1 + 1)%nat by lia.
      exact E3.
    + replace (List.length (trace m) + 3)%nat with (List.length (trace m) + 1 + 1 + 1)%nat by lia.
      exact E4.
    + replace (List.length (trace m) + 4)%nat with (List.length (trace m) + 1 + 1 + 1 + 1)%nat by lia.
      exact E5.
  - destruct m. cbn. rewrite <- !app_assoc. reflexivity.
Qed.

(** The converse: with buffers in place and an engine that accepts the next
    five calls, the frame completes. *)
Lemma convert_and_run_ok m bi bo :
  _input (self m) = Some bi ->
  _output (self m) = Some bo ->
  (forall k, (k < 5)%nat -> engine m (List.length (trace m) + k) = SUCCESS) ->
  convert_and_run m = (Ok bo, with_trace (trace m ++ passed frame_calls) m).
Proof.
  intros I O E. unfold convert_and_run, transfer.
  rewrite gets_bind, I. unfold deref at 1. unfold bind at 1, ret at 1.
  erewrite bind_ok by (apply checked_ok; rewrite <- (E 0%nat) by lia; f_equal; lia).
  erewrite bind_ok
    by (apply checked_ok; cbn [trace with_trace engine]; rewrite ?length_app;
        cbn [List.length]; rewrite <- (E 1%nat) by lia; f_equal; lia).
  erewrite bind_ok
    by (apply checked_ok; cbn [trace with_trace engine]; rewrite ?length_app;
        cbn [List.length]; rewrite <- (E 2%nat) by lia; f_equal; lia).
  erewrite bind_ok
    by (apply checked_ok; cbn [trace with_trace engine]; rewrite ?length_app;
        cbn [List.length]; rewrite <- (E 3%nat) by lia; f_equal; lia).
  erewrite bind_ok
    by (apply checked_ok; cbn [trace with_trace engine]; rewrite ?length_app;
        cbn [List.length]; rewrite <- (E 4%nat) by lia; f_equal; lia).
  rewrite gets_bind. cbn [self with_trace]. rewrite O. unfold deref, ret.
  destruct m. cbn. rewrite <- !app_assoc. reflexivity.
Qed.

Lemma resize_ok_sized_up w h m m' :
  resize w h m = (Ok tt, m') -> sized_up m'.
Proof.
  intros R. pose proof R as R'.
  rewrite resize_run in R'. apply bind_ok_inv in R'. destruct R' as ([] & m0 & R0 & R1).
  pose proof (size_rec_ok_scale_cached _ _ _ _ _ _ R0) as (C0 & E0).
  pose proof (ensure_buffers_keep_sizing m0) as K. rewrite R1 in K.
  destruct K as (_ & _ & K1 & K2). cbn [snd] in K1, K2.
  apply resize_ok_inv in R.
  destruct R as (m1 & S1 & Ei & Eo & _ & Et & E1 & E2 & E3 & E4 & E5 & E6).
  unfold sized_up. rewrite K1, K2, C0.
  split; [reflexivity|]. split; [exact E0|]. split.
  - rewrite Et. destruct (_tmp (self m1)); eauto.
  - rewrite E1, E2, E3, E4, E5, E6, Ei, Eo.
    repeat split; apply ensure_buffer_sized.
Qed.

Lemma ensure_buffer_in_place k wh cur :
  sized cur wh -> ensure_buffer k wh cur = (cur, false).
Proof.
  intros (b & -> & W & H). unfold ensure_buffer. rewrite W, H, !Z.eqb_refl. reflexivity.
Qed.

Lemma with_input_same o : with_input (_input o) o = o.
Proof. destruct o; reflexivity. Qed.
Lemma with_convert_to_fp32_same o : with_convert_to_fp32 (_convert_to_fp32 o) o = o.
Proof. destruct o; reflexivity. Qed.
Lemma with_convert_to_u8_same o : with_convert_to_u8 (_convert_to_u8 o) o = o.
Proof. destruct o; reflexivity. Qed.
Lemma with_output_same o : with_output (_output o) o = o.
Proof. destruct o; reflexivity. Qed.


(** With every buffer in place the blocks of [resize] do nothing. *)
Lemma ensure_buffers_in_place m :
  sized_up m -> ensure_buffers m = (Ok tt, m).
Proof.
  intros (_ & _ & (bt & T) & I & F & S & D & U & O).
  assert (B1 : ensure_tmp m = (Ok tt, m)).
  { unfold ensure_tmp. rewrite !gets_bind, T. reflexivity. }
  assert (B2 : ensure_input m = (Ok tt, m)).
  { unfold ensure_input. rewrite !gets_bind, (ensure_buffer_in_place _ _ _ I). cbn [fst].
    unfold modify. rewrite with_input_same, with_self_self. reflexivity. }
  assert (B3 : ensure_convert_to_fp32 m = (Ok tt, m)).
  { unfold ensure_convert_to_fp32.
    rewrite !gets_bind, (ensure_buffer_in_place _ _ _ F). cbn [fst].
    unfold modify. rewrite with_convert_to_fp32_same, with_self_self. reflexivity. }
  assert (B4 : ensure_source m = (Ok tt, m)).
  { unfold ensure_source. rewrite !gets_bind, (ensure_buffer_in_place _ _ _ S). reflexivity. }
  assert (B5 : ensure_destination m = (Ok tt, m)).
  { unfold ensure_destination.
    rewrite !gets_bind, (ensure_buffer_in_place _ _ _ D). reflexivity. }
  assert (B6 : ensure_convert_to_u8 m = (Ok tt, m)).
  { unfold ensure_convert_to_u8.
    rewrite !gets_bind, (ensure_buffer_in_place _ _ _ U). cbn [fst].
    unfold modify. rewrite with_convert_to_u8_same, with_self_self. reflexivity. }
  assert (B7 : ensure_output m = (Ok tt, m)).
  { unfold ensure_output. rewrite !gets_bind, (ensure_buffer_in_place _ _ _ O). cbn [fst].
    unfold modify. rewrite with_output_same, with_self_self. reflexivity. }
  unfold ensure_buffers.
  rewrite (bind_ok _ _ _ _ _ B1), (bind_ok _ _ _ _ _ B2), (bind_ok _ _ _ _ _ B3),
    (bind_ok _ _ _ _ _ B4), (bind_ok _ _ _ _ _ B5), (bind_ok _ _ _ _ _ B6).
  exact B7.
Qed.

Lemma resize_in_place m :
  sized_up m ->
  resize (fst (_cache_input_size (self m))) (snd (_cache_input_size (self m))) m = (Ok tt, m).
Proof.
  intros U. pose proof U as (C & E & _).
  rewrite resize_run.
  assert (M0 : with_self (with_cache_input_size
                 (fst (_cache_input_size (self m)), snd (_cache_input_size (self m)))
                 (self m)) m = m).
  { destruct m as [o l e t lg]. destruct o as [? ? ? ? ? ? ? ? ? ? [ciw cih] ? ?].
    reflexivity. }
  rewrite M0.
  rewrite (bind_ok _ _ _ _ _ (size_of_resize_hits m ltac:(rewrite C; exact E))).
  rewrite C, with_scale_same, with_self_self.
  apply ensure_buffers_in_place, U.
Qed.

(** X11: a [resize] to the input size that a completed [resize] has left in
    the cache changes nothing and calls nothing: every buffer is in place. *)
Theorem resize_to_the_cached_size_changes_nothing (w h : Z) (m m1 : machine) :
  resize w h m = (Ok tt, m1) ->
  resize (fst (_cache_input_size (self m1))) (snd (_cache_input_size (self m1))) m1
    = (Ok tt, m1).
Proof.
  intros R. apply resize_in_place. exact (resize_ok_sized_up _ _ _ _ R).
Qed.

(** At scale 2 the request 10000x1 is negotiated to 1920x90; a [resize] to
    1920x90 then changes nothing. *)
Lemma resize_to_the_cached_size_witness :
  let m1 := snd (resize 10000 1 (snd (set_scale f_2 constructed))) in
  _cache_input_size (self m1) = (1920, 90) /\
  resize 1920 90 m1 = (Ok tt, m1).
Proof.
  cbv zeta.
  assert (C : _cache_input_size
                (self (snd (resize 10000 1 (snd (set_scale f_2 constructed))))) = (1920, 90))
    by (vm_compute; reflexivity).
  split; [exact C|].
  pose proof (resize_to_the_cached_size_changes_nothing 10000 1
                (snd (set_scale f_2 constructed))
                (snd (resize 10000 1 (snd (set_scale f_2 constructed))))) as T.
  rewrite C in T. apply T. vm_compute; reflexivity.
Defined.

Lemma when_load_ok_inv d m m' :
  when d load m = (Ok tt, m') ->
  _dirty (self m') = (if d then false else _dirty (self m)) /\
  _output (self m') = _output (self m) /\
  _input (self m') = _input (self m) /\
  _cache_output_size (self m') = _cache_output_size (self m) /\
  exists evs, trace m' = trace m ++ evs.
Proof.
  destruct d; cbn [when].
  - unfold load. intros H. apply bind_ok_inv in H. destruct H as ([] & m0 & C & H).
    apply checked_ok_inv in C. destruct C as (_ & ->).
    unfold modify in H. injection H as <-. cbn. eauto 10.
  - intros [= <-]. repeat split; auto. exists []. rewrite app_nil_r. reflexivity.
Qed.

(** X12: a [process] that returns has left the object clean, returns the
    output texture, which has the cached output size, and has ended with the
    five calls of a frame, in order and all successful: input to FP32, FP32 to
    source, the inference, destination to U8, U8 to output. *)
Theorem process_returns_the_output (w h : Z) (m m' : machine) (b : buffer) :
  process w h m = (Ok b, m') ->
  _dirty (self m') = false /\
  _output (self m') = Some b /\
  (width b, height b) = _cache_output_size (self m') /\
  exists evs, trace m' = trace m ++ evs ++ passed frame_calls.
Proof.
  unfold process. intros H.
  apply bind_ok_inv in H. destruct H as ([] & m1 & R & H).
  rewrite gets_bind in H.
  apply bind_ok_inv in H. destruct H as ([] & m2 & L & H).
  apply when_load_ok_inv in L. destruct L as (D & O & _ & CO & (evs2 & T2)).
  apply convert_and_run_ok_inv in H. destruct H as (Ob & _ & ->).
  cbn [self with_trace trace].
  pose proof (resize_ok_sized_up _ _ _ _ R) as (_ & _ & _ & _ & _ & _ & _ & _ & (bo & Eo & Wo & Ho)).
  destruct (resize_throws_at_failure w h m) as (_ & evs1 & T1 & _). rewrite R in T1. cbn in T1.
  split; [|split; [|split]].
  - rewrite D. destruct (_dirty (self m1)); reflexivity.
  - exact Ob.
  - rewrite CO. rewrite O, Eo in Ob. injection Ob as <-.
    rewrite Wo, Ho. destruct (_cache_output_size (self m1)); reflexivity.
  - exists (evs1 ++ evs2). rewrite T2, T1, <- !app_assoc. reflexivity.
Qed.

Lemma process_returns_the_output_witness :
  exists evs,
    trace (snd (process 160 90 constructed)) = trace constructed ++ evs ++ passed frame_calls.
Proof.
  destruct (process_returns_the_output 160 90 constructed (snd (process 160 90 constructed))
              (mk_buffer 240 135 cv_texture_GS_RGBA_UNORM)) as (_ & _ & _ & T).
  - vm_compute; reflexivity.
  - exact T.
Defined.

(** X13: when a [process] has returned and its request is the cached input
    size, the next [process] of the same size, over an engine that accepts its
    five calls, makes those five calls and nothing else: no buffer is touched,
    nothing is loaded, and the same output texture is returned. *)
Theorem steady_frame (w h : Z) (m m1 : machine) (b : buffer) :
  process w h m = (Ok b, m1) ->
  _cache_input_size (self m1) = (w, h) ->
  (forall k, (k < 5)%nat -> engine m1 (List.length (trace m1) + k) = SUCCESS) ->
  process w h m1 = (Ok b, with_trace (trace m1 ++ passed frame_calls) m1).
Proof.
  intros P C E.
  assert (U : sized_up m1 /\ _dirty (self m1) = false /\ _output (self m1) = Some b).
  { unfold process in P.
    apply bind_ok_inv in P. destruct P as ([] & m0 & R & P).
    rewrite gets_bind in P.
    apply bind_ok_inv in P. destruct P as ([] & m2 & L & P).
    apply convert_and_run_ok_inv in P. destruct P as (O2 & _ & ->).
    pose proof (resize_ok_sized_up _ _ _ _ R) as U0.
    revert U0 O2. unfold sized_up. cbn [self with_trace].
    destruct (_dirty (self m0)) eqn:D0; cbn [when] in L.
    - unfold load in L. apply bind_ok_inv in L. destruct L as ([] & m3 & C3 & L).
      apply checked_ok_inv in C3. destruct C3 as (_ & ->).
      unfold modify in L. injection L as <-. cbn. auto.
    - injection L as <-. auto. }
  destruct U as (U & D & O).
  pose proof (resize_in_place m1 U) as R. rewrite C in R. cbn [fst snd] in R.
  unfold process. rewrite (bind_ok _ _ _ _ _ R), gets_bind, D. cbn [when].
  unfold ret at 1. unfold bind at 1.
  destruct U as (_ & _ & _ & (bi & I & _) & _).
  exact (convert_and_run_ok m1 bi b I O E).
Qed.

Lemma steady_frame_witness :
  let m1 := snd (process 160 90 constructed) in
  process 160 90 m1 =
    (Ok (mk_buffer 240 135 cv_texture_GS_RGBA_UNORM),
     with_trace (trace m1 ++ passed frame_calls) m1).
Proof.
  cbv zeta.
  refine (steady_frame 160 90 constructed _ _ _ _ _).
  - vm_compute; reflexivity.
  - vm_compute; reflexivity.
  - intros k _. reflexivity.
Defined.

(* ================================================================= *)
(** ** What [resize] tells the engine *)

(** A block that is entered changes its buffer. *)
Lemma ensure_buffer_entered k wh cur :
  snd (ensure_buffer k wh cur) = true -> fst (ensure_buffer k wh cur) <> cur.
Proof.
  unfold ensure_buffer. destruct cur as [b|]; cbn; [|discriminate].
  destruct (width b =? fst wh) eqn:W; destruct (height b =? snd wh) eqn:H; cbn;
    try discriminate; intros _ [= E]; destruct b as [bw bh bk]; cbn in *;
    injection E as E1 E2; subst; rewrite ?Z.eqb_refl in *; discriminate.
Qed.

Lemma ensure_buffer_some k wh cur : exists b, fst (ensure_buffer k wh cur) = Some b.
Proof.
  unfold ensure_buffer. destruct cur as [b|]; cbn; eauto.
  destruct (negb _ || negb _); cbn; eauto.
Qed.

Lemma ensure_source_ok_inv m m' :
  ensure_source m = (Ok tt, m') ->
  let e := ensure_buffer (cv_image BGR FP32 PLANAR) (_cache_input_size (self m))
             (_source (self m)) in
  _source (self m') = fst e /\
  _destination (self m') = _destination (self m) /\
  _dirty (self m') = _dirty (self m) || snd e /\
  trace m' = trace m ++ binding PARAMETER_INPUT_IMAGE_0 (fst e) (snd e) /\
  keeps_sizing m st_ok m'.
Proof.
  cbv zeta. unfold ensure_source. rewrite !gets_bind. cbv zeta.
  destruct (ensure_buffer_some (cv_image BGR FP32 PLANAR) (_cache_input_size (self m))
              (_source (self m))) as (b & E).
  destruct (snd (ensure_buffer _ _ _)) eqn:S; cbn [when].
  - rewrite modify_bind, E. unfold set_image, deref. unfold ret at 1. unfold bind at 2.
    intros H. apply bind_ok_inv in H. destruct H as ([] & m1 & C & H).
    apply checked_ok_inv in C. destruct C as (_ & ->).
    unfold modify in H. injection H as <-. cbn. rewrite orb_true_r.
    unfold keeps_sizing. cbn. auto 10.
  - intros [= <-]. rewrite (ensure_buffer_skipped _ _ _ S), orb_false_r.
    rewrite (ensure_buffer_skipped _ _ _ S) in E. rewrite E. cbn. rewrite app_nil_r.
    unfold keeps_sizing. auto 10.
Qed.

Lemma ensure_destination_ok_inv m m' :
  ensure_destination m = (Ok tt, m') ->
  let e := ensure_buffer (cv_image BGR FP32 PLANAR) (_cache_output_size (self m))
             (_destination (self m)) in
  _source (self m') = _source (self m) /\
  _destination (self m') = fst e /\
  _dirty (self m') = _dirty (self m) || snd e /\
  trace m' = trace m ++ binding PARAMETER_OUTPUT_IMAGE_0 (fst e) (snd e) /\
  keeps_sizing m st_ok m'.
Proof.
  cbv zeta. unfold ensure_destination. rewrite !gets_bind. cbv zeta.
  destruct (ensure_buffer_some (cv_image BGR FP32 PLANAR) (_cache_output_size (self m))
              (_destination (self m))) as (b & E).
  destruct (snd (ensure_buffer _ _ _)) eqn:S; cbn [when].
  - rewrite modify_bind, E. unfold set_image, deref. unfold ret at 1. unfold bind at 2.
    intros H. apply bind_ok_inv in H. destruct H as ([] & m1 & C & H).
    apply checked_ok_inv in C. destruct C as (_ & ->).
    unfold modify in H. injection H as <-. cbn. rewrite orb_true_r.
    unfold keeps_sizing. cbn. auto 10.
  - intros [= <-]. rewrite (ensure_buffer_skipped _ _ _ S), orb_false_r.
    rewrite (ensure_buffer_skipped _ _ _ S) in E. rewrite E. cbn. rewrite app_nil_r.
    unfold keeps_sizing. auto 10.
Qed.

Ltac binding_leaf :=
  let m := fresh "m" in
  intro m; unfold keeps_binding, keeps_sizing;
  unfold_blocks; unfold_monad;
  repeat destruct_innermost;
  cbn; intuition (try discriminate; try congruence).

#[global] Instance keeps_binding_seq : Sequential keeps_binding.
Proof. split; unfold keeps_binding, keeps_sizing; intuition congruence. Qed.

Lemma ensure_tmp_keeps_binding : satisfies keeps_binding ensure_tmp.
Proof. binding_leaf. Qed.
Lemma ensure_input_keeps_binding : satisfies keeps_binding ensure_input.
Proof. binding_leaf. Qed.
Lemma ensure_convert_to_fp32_keeps_binding : satisfies keeps_binding ensure_convert_to_fp32.
Proof. binding_leaf. Qed.
Lemma ensure_convert_to_u8_keeps_binding : satisfies keeps_binding ensure_convert_to_u8.
Proof. binding_leaf. Qed.
Lemma ensure_output_keeps_binding : satisfies keeps_binding ensure_output.
Proof. binding_leaf. Qed.

(** The buffer blocks, run to completion: what they leave in [_source],
    [_destination] and [_dirty], and the calls they make. *)
Lemma ensure_buffers_ok_inv m m' :
  ensure_buffers m = (Ok tt, m') ->
  let es := ensure_buffer (cv_image BGR FP32 PLANAR) (_cache_input_size (self m))
              (_source (self m)) in
  let ed := ensure_buffer (cv_image BGR FP32 PLANAR) (_cache_output_size (self m))
              (_destination (self m)) in
  _source (self m') = fst es /\
  _destination (self m') = fst ed /\
  _dirty (self m') = _dirty (self m) || snd es || snd ed /\
  trace m' = trace m ++ binding PARAMETER_INPUT_IMAGE_0 (fst es) (snd es)
                     ++ binding PARAMETER_OUTPUT_IMAGE_0 (fst ed) (snd ed).
Proof.
  intros H. cbv zeta. unfold ensure_buffers in H.
  apply bind_ok_inv in H. destruct H as ([] & m1 & B1 & H).
  pose proof (ensure_tmp_keeps_binding m) as K1. rewrite B1 in K1.
  apply bind_ok_inv in H. destruct H as ([] & m2 & B2 & H).
  pose proof (ensure_input_keeps_binding m1) as K2. rewrite B2 in K2.
  apply bind_ok_inv in H. destruct H as ([] & m3 & B3 & H).
  pose proof (ensure_convert_to_fp32_keeps_binding m2) as K3. rewrite B3 in K3.
  apply bind_ok_inv in H. destruct H as ([] & m4 & B4 & H).
  apply ensure_source_ok_inv in B4.
  apply bind_ok_inv in H. destruct H as ([] & m5 & B5 & H).
  apply ensure_destination_ok_inv in B5.
  apply bind_ok_inv in H. destruct H as ([] & m6 & B6 & B7).
  pose proof (ensure_convert_to_u8_keeps_binding m5) as K6. rewrite B6 in K6.
  pose proof (ensure_output_keeps_binding m6) as K7. rewrite B7 in K7.
  unfold keeps_binding, keeps_sizing in *. cbn [fst snd status_of] in *. cbv zeta in *.
  destruct K1 as (a1 & a2 & a3 & a4 & a5 & a6 & _).
  destruct K2 as (b1 & b2 & b3 & b4 & b5 & b6 & _).
  destruct K3 as (c1 & c2 & c3 & c4 & c5 & c6 & _).
  destruct B4 as (d1 & d2 & d3 & d4 & d5 & d6 & _).
  destruct B5 as (e1 & e2 & e3 & e4 & e5 & e6 & _).
  destruct K6 as (f1 & f2 & f3 & f4 & f5 & f6 & _).
  destruct K7 as (g1 & g2 & g3 & g4 & g5 & g6 & _).
  rewrite ?g1, ?g2, ?g3, ?g4, ?g5, ?g6.
  rewrite ?f1, ?f2, ?f3, ?f4, ?f5, ?f6.
  rewrite ?e1, ?e2, ?e3, ?e4, ?e5, ?e6.
  rewrite ?d1, ?d2, ?d3, ?d4, ?d5, ?d6.
  rewrite ?c1, ?c2, ?c3, ?c4, ?c5, ?c6.
  rewrite ?b1, ?b2, ?b3, ?b4, ?b5, ?b6.
  rewrite ?a1, ?a2, ?a3, ?a4, ?a5, ?a6.
  rewrite <- app_assoc. auto.
Qed.

(** X14: a completed [resize] has made a set-image call for the source
    buffer exactly when it has allocated or resized [_source], and for the
    destination buffer exactly when it has allocated or resized
    [_destination]; these are its only engine calls, in this order, and the
    object is dirty afterwards exactly when it was dirty before or one of the
    two buffers has changed. *)
Theorem resize_binds_what_it_changes (w h : Z) (m m' : machine) :
  resize w h m = (Ok tt, m') ->
  exists bs bd evs_s evs_d,
    _source (self m') = Some bs /\
    _destination (self m') = Some bd /\
    trace m' = trace m ++ evs_s ++ evs_d /\
    (_source (self m') = _source (self m) /\ evs_s = [] \/
     _source (self m') <> _source (self m) /\
     evs_s = [(call_set_image PARAMETER_INPUT_IMAGE_0 bs, SUCCESS)]) /\
    (_destination (self m') = _destination (self m) /\ evs_d = [] \/
     _destination (self m') <> _destination (self m) /\
     evs_d = [(call_set_image PARAMETER_OUTPUT_IMAGE_0 bd, SUCCESS)]) /\
    (_dirty (self m') = true <->
     _dirty (self m) = true \/ evs_s <> [] \/ evs_d <> []).
Proof.
  intros R. rewrite resize_run in R.
  apply bind_ok_inv in R. destruct R as ([] & m0 & R0 & R1).
  pose proof (size_rec_frame size_fuel ref_cache_input_size ref_cache_input_size
                ref_cache_output_size
                (with_self (with_cache_input_size (w, h) (self m)) m)) as F.
  unfold size in R0. rewrite R0 in F. unfold size_frame in F. cbn in F.
  destruct F as (Fd & _ & _ & Fs & Fdst & _ & _ & _ & _ & _ & Ft & _).
  apply ensure_buffers_ok_inv in R1. cbv zeta in R1.
  destruct R1 as (S & D & Dy & T).
  rewrite Fs in S, Dy, T. rewrite Fdst in D, Dy, T. rewrite Fd in Dy. rewrite Ft in T.
  set (es := ensure_buffer (cv_image BGR FP32 PLANAR) (_cache_input_size (self m0))
               (_source (self m))) in *.
  set (ed := ensure_buffer (cv_image BGR FP32 PLANAR) (_cache_output_size (self m0))
               (_destination (self m))) in *.
  destruct (ensure_buffer_some (cv_image BGR FP32 PLANAR) (_cache_input_size (self m0))
              (_source (self m))) as (bs & Es).
  destruct (ensure_buffer_some (cv_image BGR FP32 PLANAR) (_cache_output_size (self m0))
              (_destination (self m))) as (bd & Ed).
  fold es in Es. fold ed in Ed.
  exists bs, bd, (binding PARAMETER_INPUT_IMAGE_0 (fst es) (snd es)),
    (binding PARAMETER_OUTPUT_IMAGE_0 (fst ed) (snd ed)).
  split; [congruence|]. split; [congruence|]. split; [exact T|].
  rewrite S, D, Dy, Es, Ed. unfold binding.
  pose proof (ensure_buffer_entered (cv_image BGR FP32 PLANAR) (_cache_input_size (self m0))
                (_source (self m))) as Cs.
  pose proof (ensure_buffer_skipped (cv_image BGR FP32 PLANAR) (_cache_input_size (self m0))
                (_source (self m))) as Ks.
  pose proof (ensure_buffer_entered (cv_image BGR FP32 PLANAR) (_cache_output_size (self m0))
                (_destination (self m))) as Cd.
  pose proof (ensure_buffer_skipped (cv_image BGR FP32 PLANAR) (_cache_output_size (self m0))
                (_destination (self m))) as Kd.
  fold es in Cs, Ks. fold ed in Cd, Kd. rewrite Es in Cs, Ks. rewrite Ed in Cd, Kd.
  destruct (snd es), (snd ed); rewrite ?orb_true_r, ?orb_false_r.
  - split; [right; auto|]. split; [right; auto|]. split; auto. intros _. right. left. discriminate.
  - split; [right; auto|]. split; [left; auto|]. split; auto. intros _. right. left. discriminate.
  - split; [left; auto|]. split; [right; auto|]. split; auto. intros _. right. right. discriminate.
  - split; [left; auto|]. split; [left; auto|]. split; [tauto|].
    intros [H | [H | H]]; [exact H | contradiction | contradiction].
Qed.

(** After the constructor and [set_scale(2)], [resize(160, 90)] keeps the
    source buffer and resizes the destination buffer to 320x180: one
    set-image call, for the output image. *)
Lemma resize_binds_witness :
  let m := snd (set_scale f_2 constructed) in
  let m' := snd (resize 160 90 m) in
  exists bs bd evs_s evs_d,
    _source (self m') = Some bs /\
    _destination (self m') = Some bd /\
    trace m' = trace m ++ evs_s ++ evs_d.
Proof.
  cbv zeta.
  destruct (resize_binds_what_it_changes 160 90 (snd (set_scale f_2 constructed))
              (snd (resize 160 90 (snd (set_scale f_2 constructed)))))
    as (bs & bd & evs_s & evs_d & S & D & T & _).
  - vm_compute; reflexivity.
  - exists bs, bd, evs_s, evs_d. auto.
Defined.

(* ================================================================= *)
(** ** The constructor over any engine *)

Lemma bind_assoc {A B C} (c : M A) (k1 : A -> M B) (k2 : B -> M C) m :
  bind (bind c k1) k2 m = bind c (fun a => bind (k1 a) k2) m.
Proof. unfold bind. destruct (c m) as [[a|w|w|] m1]; reflexivity. Qed.

Lemma bind_throw {A B} (c : M A) (k : A -> M B) m w m' :
  c m = (Throw w, m') -> bind c k m = (Throw w, m').
Proof. intros H. unfold bind. rewrite H. reflexivity. Qed.

Lemma checked_fails c line what m :
  is_success (engine m (List.length (trace m))) = false ->
  checked c line what m =
    (Throw what,
     with_log (log m ++ [line])
       (with_trace (trace m ++ [(c, engine m (List.length (trace m)))]) m)).
Proof. intros E. unfold checked. unfold_monad. cbn. rewrite E. reflexivity. Qed.

(** One statement of a run over an engine that is a variable: a call of the
    engine is answered from the hypotheses, anything else is computed. *)
Ltac run_checked :=
  match goal with
  | |- context [bind (checked ?c ?l ?w) ?k ?m] =>
      first
        [ rewrite (bind_ok (checked c l w) k m tt _
                     (checked_ok c l w m ltac:(eassumption)))
        | rewrite (bind_throw (checked c l w) k m _ _
                     (checked_fails c l w m ltac:(eassumption))) ]
  | |- context [checked ?c ?l ?w ?m] =>
      first
        [ rewrite (checked_ok c l w m ltac:(eassumption))
        | rewrite (checked_fails c l w m ltac:(eassumption)) ]
  end.

Ltac run_pure :=
  match goal with
  | |- context [bind ?c ?k ?m] =>
      lazymatch c with
      | checked _ _ _ => fail
      | bind _ _ => fail
      | _ =>
        let r := eval vm_compute in (c m) in
        lazymatch r with
        | (Ok ?a, ?m') =>
            rewrite (bind_ok c k m a m' ltac:(vm_compute; reflexivity)); cbv beta
        end
      end
  end.

Ltac run_when :=
  match goal with
  | |- context [when ?b ?c] =>
      lazymatch b with
      | true => fail
      | false => fail
      | _ => let v := eval vm_compute in b in change (when b c) with (when v c)
      end
  end.

Ltac run :=
  repeat first
    [ rewrite bind_assoc
    | run_when
    | progress cbn [when]
    | progress cbv zeta
    | run_checked
    | run_pure ].

Lemma constructor_after_strength (e : nat -> cv_result) :
  constructor (boot e) =
    (s <- gets _scale ;; set_scale s ;; resize 160 90 ;; load)
      (snd (set_strength f_1 (boot e))).
Proof.
  unfold constructor. rewrite gets_bind.
  change (_strength (self (boot e))) with f_1.
  rewrite bind_run, set_strength_run. reflexivity.
Qed.

Theorem constructor_over_any_engine (e : nat -> cv_result) :
  let r := constructor (boot e) in
  (e 1%nat = SUCCESS -> e 2%nat = SUCCESS -> e 3%nat = SUCCESS ->
   fst r = Ok tt /\ self (snd r) = self constructed /\
   trace (snd r) = constructor_calls (e 0%nat)) /\
  (is_success (e 1%nat) = false ->
   fst r = Throw "SetImage failed." /\ List.length (trace (snd r)) = 2%nat) /\
  (e 1%nat = SUCCESS -> is_success (e 2%nat) = false ->
   fst r = Throw "SetImage failed." /\ List.length (trace (snd r)) = 3%nat) /\
  (e 1%nat = SUCCESS -> e 2%nat = SUCCESS -> is_success (e 3%nat) = false ->
   fst r = Throw "Load failed." /\ List.length (trace (snd r)) = 4%nat /\
   _dirty (self (snd r)) = true).
Proof.
  cbv zeta. rewrite constructor_after_strength, set_strength_run. cbv zeta.
  change (engine (boot e) (List.length (trace (boot e)))) with (e 0%nat).
  let v := eval vm_compute in (self constructed) in change (self constructed) with v.
  destruct (e 0%nat) as [|c0]; cbn [is_success snd];
    (split; [|split; [|split]]); intros;
    unfold resize, ensure_tmp, ensure_input, ensure_convert_to_fp32, ensure_source,
      ensure_destination, ensure_convert_to_u8, ensure_output, set_image, load;
    run; vm_compute; repeat split; reflexivity.
Qed.

(** An engine that refuses the strength call only: the constructor
    completes, with the object it leaves over an engine that accepts every
    call. *)
Lemma constructor_survives_the_strength_call :
  fst (constructor (boot (fails_at 0))) = Ok tt /\
  self (snd (constructor (boot (fails_at 0)))) = self constructed.
Proof.
  destruct (constructor_over_any_engine (fails_at 0)) as (H & _).
  destruct H as (R & S & _); try reflexivity.
  split; [exact R | exact S].
Defined.

(* ================================================================= *)
(** ** What [size] and [set_strength] leave alone *)

(** X16: [size] is a computation on the sizing only, whatever pairs it is
    given: it makes no engine call, logs nothing, throws nothing, and leaves
    the dirty flag, the strength and all seven buffers as they are. *)
Theorem size_touches_the_sizing_only (sz i o : pair_ref) (m : machine) :
  let r := size sz i o m in
  size_frame m (status_of (fst r)) (snd r) /\
  forall what, fst r <> Throw what.
Proof.
  cbv zeta. split.
  - exact (size_rec_frame size_fuel sz i o m).
  - intros what E.
    pose proof (size_rec_never_throws size_fuel sz i o m) as N.
    unfold never_throws, size in *. rewrite E in N. apply N. reflexivity.
Qed.

(** X17: every [set_strength] tells the engine the strength it has stored,
    1 for 1.0 and 0 for 0.0, in one call, whether or not the value has
    changed; it returns normally whatever the engine answers, and a second
    call with the same argument leaves the object as it is. *)
Theorem set_strength_pushes_the_stored_value (x : float) (m : machine) :
  let m1 := snd (set_strength x m) in
  fst (set_strength x m) = Ok tt /\
  (exists v,
     trace m1 = trace m ++ [(call_set_strength v, engine m (List.length (trace m)))] /\
     (v = 1 /\ _strength (self m1) = f_1 \/ v = 0 /\ _strength (self m1) = f_0)) /\
  self (snd (set_strength x m1)) = self m1.
Proof.
  cbv zeta. split; [rewrite set_strength_run; reflexivity|]. split.
  - rewrite set_strength_run. cbv zeta.
    exists (if F32.leb f_half (binarize x) then 1 else 0). split.
    + destruct (is_success _); reflexivity.
    + assert (S : forall o : unit, _strength (if is_close (binarize x) (_strength (self m)) f_0_01
                               then with_strength (binarize x) (self m)
                               else with_dirty true (with_strength (binarize x) (self m)))
                  = binarize x) by (destruct (is_close _ _ _); reflexivity).
      destruct (is_success _); cbn [snd self with_self with_trace with_log];
        rewrite (S tt); destruct (binarize_cases x) as [-> | ->];
        [right | left | right | left]; split; vm_compute; reflexivity.
  - rewrite (set_strength_run x (snd (set_strength x m))). cbv zeta.
    assert (S1 : _strength (self (snd (set_strength x m))) = binarize x).
    { rewrite set_strength_run. cbv zeta.
      destruct (is_close _ _ _), (is_success _); reflexivity. }
    rewrite S1.
    assert (C : is_close (binarize x) (binarize x) f_0_01 = true).
    { destruct (binarize_cases x) as [-> | ->]; vm_compute; reflexivity. }
    rewrite C.
    destruct (is_success _); cbn [snd self with_self with_trace with_log];
      rewrite <- S1; destruct (self (snd (set_strength x m))); reflexivity.
Qed.

(* ================================================================= *)
(** ** Rounding to nearest, within one unit in the last place *)

Lemma shr_1_m mrs : 0 <= shr_m mrs -> shr_m (shr_1 mrs) = shr_m mrs / 2.
Proof.
  destruct mrs as [m r s]. cbn [shr_m]. intros P.
  destruct m as [|[p|p|]|p]; cbn [shr_1 shr_m]; try lia; try reflexivity;
    first [apply (Z.div_unique _ _ _ 1); lia | apply (Z.div_unique _ _ _ 0); lia].
Qed.

Lemma pow2_xO p : 2 ^ Zpos p~0 = 2 ^ Zpos p * 2 ^ Zpos p.
Proof. rewrite <- Z.pow_add_r by lia. f_equal. lia. Qed.

Lemma pow2_xI p : 2 ^ Zpos p~1 = 2 * (2 ^ Zpos p * 2 ^ Zpos p).
Proof.
  rewrite <- Z.pow_add_r by lia. rewrite <- (Z.pow_succ_r 2) by lia. f_equal. lia.
Qed.

Lemma shr_m_iter p mrs :
  0 <= shr_m mrs -> shr_m (iter_pos shr_1 p mrs) = shr_m mrs / 2 ^ Zpos p.
Proof.
  revert mrs. induction p as [p IH|p IH|]; intros mrs P; cbn [iter_pos].
  - assert (Pp : 0 < 2 ^ Zpos p) by (apply Z.pow_pos_nonneg; lia).
    assert (P1 : 0 <= shr_m (shr_1 mrs)) by (rewrite shr_1_m by lia; apply Z.div_pos; lia).
    assert (P2 : 0 <= shr_m (iter_pos shr_1 p (shr_1 mrs)))
      by (rewrite IH by lia; apply Z.div_pos; lia).
    rewrite IH, IH, shr_1_m by lia.
    rewrite !Z.div_div by lia. rewrite pow2_xI. reflexivity.
  - assert (Pp : 0 < 2 ^ Zpos p) by (apply Z.pow_pos_nonneg; lia).
    assert (P2 : 0 <= shr_m (iter_pos shr_1 p mrs))
      by (rewrite IH by lia; apply Z.div_pos; lia).
    rewrite IH, IH by lia.
    rewrite !Z.div_div by lia. rewrite pow2_xO. reflexivity.
  - rewrite shr_1_m by lia. reflexivity.
Qed.

Lemma shr_record_of_loc_m m l : shr_m (shr_record_of_loc m l) = m.
Proof. destruct l as [|[]]; reflexivity. Qed.

Lemma shr_m_shr m l e n :
  0 <= m -> 0 <= n ->
  shr_m (fst (shr (shr_record_of_loc m l) e n)) = m / 2 ^ n /\
  snd (shr (shr_record_of_loc m l) e n) = e + n.
Proof.
  intros P N. destruct n as [|p|p]; cbn [shr fst snd]; try lia.
  - rewrite shr_record_of_loc_m, Z.div_1_r. split; lia.
  - rewrite shr_m_iter by (rewrite shr_record_of_loc_m; lia).
    rewrite shr_record_of_loc_m. split; reflexivity.
Qed.

Lemma round_nearest_even_cases m l :
  round_nearest_even m l = m \/ round_nearest_even m l = m + 1.
Proof.
  destruct l as [|[]]; cbn; auto. destruct (Z.even m); auto.
Qed.

Lemma Zdigits2_bounds m k : 0 < m -> (Zdigits2 m = k <-> 2 ^ (k - 1) <= m < 2 ^ k).
Proof.
  intros P. destruct m as [|p|p]; try lia. cbn [Zdigits2]. apply digits2_pos_bounds.
Qed.

Section RoundingBracket.
Variables prec emax : Z.
Hypothesis prec_pos : 0 < prec.

(** A mantissa of at least [prec] digits, whose magnitude is in the range of
    the normal numbers, is rounded to a normal number that lies within one
    unit of its last place: the mantissa is the truncated one or the next. *)
Lemma binary_round_aux_bracket s mx ex l :
  let d := Zpos (digits2_pos mx) in
  prec <= d ->
  3 - emax - prec <= d + ex - prec ->
  d + ex + 1 <= emax ->
  exists m e t,
    binary_round_aux prec emax s (Zpos mx) ex l = S754_finite s m e /\
    (t = 0 \/ t = 1) /\
    e = ex + (d - prec) + t /\
    (Zpos m * 2 ^ t = Zpos mx / 2 ^ (d - prec) \/
     Zpos m * 2 ^ t = Zpos mx / 2 ^ (d - prec) + 1) /\
    Zpos (digits2_pos m) = prec.
Proof.
  intros d Hd Hmin Hmax.
  pose proof (digits2_pos_le mx) as Dl. pose proof (digits2_pos_lt mx) as Du. fold d in Dl, Du.
  set (n := d - prec) in *.
  assert (Pn : 0 < 2 ^ n) by (apply Z.pow_pos_nonneg; lia).
  set (m1 := Zpos mx / 2 ^ n).
  assert (B1 : 2 ^ (prec - 1) <= m1 < 2 ^ prec).
  { unfold m1. split.
    - apply Z.div_le_lower_bound; [lia|].
      rewrite <- Z.pow_add_r by lia. replace (n + (prec - 1)) with (d - 1) by lia. exact Dl.
    - apply Z.div_lt_upper_bound; [lia|].
      rewrite <- Z.pow_add_r by lia. replace (n + prec) with d by lia. exact Du. }
  assert (Pp : 0 < 2 ^ (prec - 1)) by (apply Z.pow_pos_nonneg; lia).
  assert (P2 : 2 ^ prec = 2 * 2 ^ (prec - 1)).
  { replace prec with (1 + (prec - 1)) at 1 by lia. rewrite Z.pow_add_r by lia. reflexivity. }
  unfold binary_round_aux.
  assert (F1 : fexp prec emax (Zdigits2 (Zpos mx) + ex) - ex = n).
  { cbn [Zdigits2]. fold d. unfold fexp, emin, n. lia. }
  unfold shr_fexp. rewrite F1.
  destruct (shr_m_shr (Zpos mx) l ex n ltac:(lia) ltac:(lia)) as (M1 & E1).
  destruct (shr (shr_record_of_loc (Zpos mx) l) ex n) as [mrs' e'].
  cbn [fst snd] in M1, E1. fold m1 in M1. subst e'.
  set (m2 := round_nearest_even (shr_m mrs') (loc_of_shr_record mrs')).
  assert (C2 : m2 = m1 \/ m2 = m1 + 1).
  { unfold m2. rewrite <- M1. apply round_nearest_even_cases. }
  destruct (Z.eq_dec m2 (2 ^ prec)) as [E2 | N2].
  - (* the rounding carried into the next binade *)
    assert (F2 : fexp prec emax (Zdigits2 m2 + (ex + n)) - (ex + n) = 1).
    { assert (D2 : Zdigits2 m2 = prec + 1).
      { apply Zdigits2_bounds; [lia|]. rewrite E2. replace (prec + 1 - 1) with prec by lia.
        split; [lia|]. rewrite Z.pow_add_r by lia. lia. }
      rewrite D2. unfold fexp, emin. lia. }
    rewrite F2.
    destruct (shr_m_shr m2 loc_Exact (ex + n) 1 ltac:(lia) ltac:(lia)) as (M3 & E3).
    destruct (shr (shr_record_of_loc m2 loc_Exact) (ex + n) 1) as [mrs'' e''].
    cbn [fst snd] in M3, E3. rewrite M3, E2.
    assert (Q : 2 ^ prec / 2 ^ 1 = 2 ^ (prec - 1)).
    { rewrite P2. change (2 ^ 1) with 2. rewrite Z.mul_comm. apply Z.div_mul. lia. }
    rewrite Q.
    destruct (2 ^ (prec - 1)) as [|p|p] eqn:Ep; try lia.
    assert (L : (e'' <=? emax - prec) = true) by (apply Z.leb_le; lia).
    rewrite L. exists p, e'', 1. split; [reflexivity|]. split; [auto|]. split; [lia|].
    split.
    + change (2 ^ 1) with 2. fold m1. lia.
    + apply digits2_pos_bounds. rewrite Ep. lia.
  - assert (B2 : 2 ^ (prec - 1) <= m2 < 2 ^ prec) by lia.
    assert (F2 : fexp prec emax (Zdigits2 m2 + (ex + n)) - (ex + n) = 0).
    { assert (D2 : Zdigits2 m2 = prec) by (apply Zdigits2_bounds; lia).
      rewrite D2. unfold fexp, emin. lia. }
    rewrite F2. cbn [shr]. rewrite shr_record_of_loc_m.
    destruct m2 as [|p|p] eqn:Ep; try lia.
    assert (L : (ex + n <=? emax - prec) = true) by (apply Z.leb_le; lia).
    rewrite L. exists p, (ex + n), 0. split; [reflexivity|]. split; [auto|]. split; [lia|].
    split.
    + rewrite Z.pow_0_r, Z.mul_1_r. fold m1. lia.
    + apply digits2_pos_bounds. lia.
Qed.
End RoundingBracket.

(* ================================================================= *)
(** ** The aspect ratio in binary64 *)

Lemma pow2_pos k : 0 <= k -> 0 < 2 ^ k.
Proof. intros. apply Z.pow_pos_nonneg; lia. Qed.

(** [static_cast<double>] of a positive integer below 2^53: the integer
    itself, with a mantissa of 53 digits. *)
Lemma F64_of_Z_canonical a :
  0 < a < 2 ^ 53 ->
  exists m k,
    F64.of_Z a = S754_finite false m (- k) /\
    0 <= k <= 52 /\
    Zpos m = a * 2 ^ k /\
    Zpos (digits2_pos m) = 53 /\
    2 ^ (52 - k) <= a < 2 ^ (53 - k).
Proof.
  intros [L U]. destruct a as [|p|p]; try lia.
  unfold F64.of_Z, binary_normalize.
  pose proof (digits2_pos_le p) as Dl. pose proof (digits2_pos_lt p) as Du.
  set (d := Zpos (digits2_pos p)) in *.
  assert (D : 1 <= d <= 53).
  { split; [unfold d; lia|]. destruct (Z.leb_spec d 53); auto.
    assert (2 ^ 53 <= 2 ^ (d - 1)) by (apply Z.pow_le_mono_r; lia). lia. }
  assert (F : fexp F64.prec F64.emax (d + 0) = d - 53).
  { unfold fexp, emin, F64.prec, F64.emax. lia. }
  rewrite binary_round_exact; fold d; rewrite F; try lia;
    [|unfold F64.emax, F64.prec; lia].
  exists (fst (shl_align p 0 (d - 53))), (53 - d).
  split; [f_equal; lia|]. split; [lia|].
  assert (V : Zpos (fst (shl_align p 0 (d - 53))) = Zpos p * 2 ^ (53 - d)).
  { rewrite shl_align_value by lia. f_equal. f_equal. lia. }
  split; [exact V|]. split.
  - apply digits2_pos_bounds. rewrite V. change (53 - 1) with 52.
    assert (P : 0 < 2 ^ (53 - d)) by (apply pow2_pos; lia).
    split.
    + replace 52 with ((d - 1) + (53 - d)) by lia. rewrite Z.pow_add_r by lia.
      apply Z.mul_le_mono_nonneg_r; lia.
    + replace 53 with (d + (53 - d)) at 2 by lia. rewrite Z.pow_add_r by lia.
      apply Z.mul_lt_mono_pos_r; lia.
  - replace (52 - (53 - d)) with (d - 1) by lia. replace (53 - (53 - d)) with d by lia. lia.
Qed.

(** The quotient of two normal numbers: within one unit in the last place of
    the exact quotient. *)
Lemma F64_div_bracket ma ea mb eb :
  Zpos (digits2_pos ma) = 53 -> Zpos (digits2_pos mb) = 53 ->
  -100 <= ea <= 100 -> -100 <= eb <= 100 ->
  exists mq eq n t q1,
    F64.div (S754_finite false ma ea) (S754_finite false mb eb) = S754_finite false mq eq /\
    (n = 0 \/ n = 1) /\ (t = 0 \/ t = 1) /\
    eq = ea - eb - 53 + n + t /\
    Zpos (digits2_pos mq) = 53 /\
    (Zpos mq * 2 ^ t = q1 \/ Zpos mq * 2 ^ t = q1 + 1) /\
    q1 * 2 ^ n * Zpos mb <= Zpos ma * 2 ^ 53 < (q1 + 1) * 2 ^ n * Zpos mb.
Proof.
  intros Da Db Ea Eb.
  pose proof (proj1 (digits2_pos_bounds ma 53) Da) as Ba.
  pose proof (proj1 (digits2_pos_bounds mb 53) Db) as Bb.
  change (53 - 1) with 52 in *.
  unfold F64.div, SFdiv, SFdiv_core_binary. cbn [Zdigits2 xorb]. rewrite Da, Db.
  assert (E' : Z.min (fexp F64.prec F64.emax (53 + ea - (53 + eb))) (ea - eb) = ea - eb - 53).
  { unfold fexp, emin, F64.prec, F64.emax. lia. }
  rewrite E'. replace (ea - eb - (ea - eb - 53)) with 53 by lia.
  rewrite Z.shiftl_mul_pow2 by lia.
  pose proof (Z.div_eucl_eq (Zpos ma * 2 ^ 53) (Zpos mb) ltac:(lia)) as Q.
  pose proof (Z.mod_pos_bound (Zpos ma * 2 ^ 53) (Zpos mb) ltac:(lia)) as R.
  unfold Z.modulo in R.
  destruct (Z.div_eucl (Zpos ma * 2 ^ 53) (Zpos mb)) as [q0 r].
  assert (P53 : 2 ^ 53 = 2 * 2 ^ 52) by reflexivity.
  assert (P54 : 2 ^ 54 = 4 * 2 ^ 52) by reflexivity.
  assert (P52 : 0 < 2 ^ 52) by reflexivity.
  assert (Bq : 2 ^ 52 <= q0 < 2 ^ 54).
  { rewrite P53 in Q, Ba, Bb. rewrite P54. set (T := 2 ^ 52) in *. split.
    - destruct (Z.lt_ge_cases q0 T) as [C|C]; [exfalso | lia].
      assert (Zpos mb * (q0 + 1) <= Zpos mb * T) by (apply Z.mul_le_mono_nonneg_l; lia).
      assert (Zpos mb * T < 2 * T * T) by nia.
      assert (2 * T * T <= Zpos ma * (2 * T)) by nia.
      lia.
    - destruct (Z.lt_ge_cases q0 (4 * T)) as [C|C]; [lia | exfalso].
      assert (Zpos mb * (4 * T) <= Zpos mb * q0) by (apply Z.mul_le_mono_nonneg_l; lia).
      assert (T * (4 * T) <= Zpos mb * (4 * T)) by nia.
      assert (Zpos ma * (2 * T) < 2 * T * (2 * T)) by nia.
      lia. }
  destruct q0 as [|pq|pq]; try lia.
  set (d := Zpos (digits2_pos pq)).
  assert (Dq : d = 53 \/ d = 54).
  { unfold d. destruct (Z.lt_ge_cases (Zpos pq) (2 ^ 53)).
    - left. apply digits2_pos_bounds. change (53 - 1) with 52. lia.
    - right. apply digits2_pos_bounds. change (54 - 1) with 53. lia. }
  destruct (binary_round_aux_bracket F64.prec F64.emax ltac:(reflexivity) false pq
              (ea - eb - 53) (new_location (Zpos mb) r))
    as (mq & eq & t & Rq & Ht & He & Hm & Hd);
    fold d; unfold F64.prec, F64.emax; try lia.
  fold d in He, Hm. unfold F64.prec in He, Hm, Hd.
  exists mq, eq, (d - 53), t, (Zpos pq / 2 ^ (d - 53)).
  split; [exact Rq|]. split; [lia|]. split; [exact Ht|]. split; [lia|].
  split; [exact Hd|]. split; [exact Hm|].
  assert (Pn : 0 < 2 ^ (d - 53)) by (apply pow2_pos; lia).
  pose proof (Z.div_mod (Zpos pq) (2 ^ (d - 53)) ltac:(lia)) as DM.
  pose proof (Z.mod_pos_bound (Zpos pq) (2 ^ (d - 53)) Pn) as MB.
  set (q1 := Zpos pq / 2 ^ (d - 53)) in *.
  set (N := 2 ^ (d - 53)) in *. set (rr := Zpos pq mod N) in *.
  split.
  - assert (q1 * N <= Zpos pq) by lia.
    apply Z.le_trans with (Zpos pq * Zpos mb); [nia | lia].
  - assert (Zpos pq + 1 <= (q1 + 1) * N) by lia.
    apply Z.lt_le_trans with ((Zpos pq + 1) * Zpos mb); [lia | nia].
Qed.

(** The product of two normal numbers: within one unit in the last place of
    the exact product. *)
Lemma F64_mul_bracket mb eb mq eq :
  Zpos (digits2_pos mb) = 53 -> Zpos (digits2_pos mq) = 53 ->
  -200 <= eb <= 100 -> -200 <= eq <= 100 ->
  exists mp ep n t p1,
    F64.mul (S754_finite false mb eb) (S754_finite false mq eq) = S754_finite false mp ep /\
    (n = 52 \/ n = 53) /\ (t = 0 \/ t = 1) /\
    ep = eb + eq + n + t /\
    (Zpos mp * 2 ^ t = p1 \/ Zpos mp * 2 ^ t = p1 + 1) /\
    p1 * 2 ^ n <= Zpos mb * Zpos mq < (p1 + 1) * 2 ^ n.
Proof.
  intros Db Dq Eb Eq.
  pose proof (proj1 (digits2_pos_bounds mb 53) Db) as Bb.
  pose proof (proj1 (digits2_pos_bounds mq 53) Dq) as Bq.
  change (53 - 1) with 52 in *.
  unfold F64.mul, SFmul. cbn [xorb].
  set (d := Zpos (digits2_pos (mb * mq))).
  assert (BM : 2 ^ 104 <= Zpos (mb * mq) < 2 ^ 106).
  { rewrite Pos2Z.inj_mul. change (2 ^ 104) with (2 ^ 52 * 2 ^ 52).
    change (2 ^ 106) with (2 ^ 53 * 2 ^ 53).
    assert (0 < 2 ^ 52) by reflexivity. assert (0 < 2 ^ 53) by reflexivity.
    set (T := 2 ^ 52) in *. set (T' := 2 ^ 53) in *. split; nia. }
  assert (Dm : d = 105 \/ d = 106).
  { unfold d. destruct (Z.lt_ge_cases (Zpos (mb * mq)) (2 ^ 105)).
    - left. apply digits2_pos_bounds. change (105 - 1) with 104. lia.
    - right. apply digits2_pos_bounds. change (106 - 1) with 105. lia. }
  destruct (binary_round_aux_bracket F64.prec F64.emax ltac:(reflexivity) false (mb * mq)
              (eb + eq) loc_Exact)
    as (mp & ep & t & Rp & Ht & He & Hm & Hd);
    fold d; unfold F64.prec, F64.emax; try lia.
  fold d in He, Hm. unfold F64.prec in He, Hm, Hd.
  exists mp, ep, (d - 53), t, (Zpos (mb * mq) / 2 ^ (d - 53)).
  split; [exact Rp|]. split; [lia|]. split; [exact Ht|]. split; [lia|].
  split; [exact Hm|].
  assert (Pn : 0 < 2 ^ (d - 53)) by (apply pow2_pos; lia).
  pose proof (Z.div_mod (Zpos (mb * mq)) (2 ^ (d - 53)) ltac:(lia)) as DM.
  pose proof (Z.mod_pos_bound (Zpos (mb * mq)) (2 ^ (d - 53)) Pn) as MB.
  rewrite <- Pos2Z.inj_mul. lia.
Qed.

(** [std::lround] of a positive number that is less than one half away
    from an integer. *)
Lemma lround_near m e a :
  e < 0 -> 0 <= a < 2 ^ 31 ->
  2 * Z.abs (Zpos m - a * 2 ^ (- e)) < 2 ^ (- e) ->
  lround (S754_finite false m e) = Some a.
Proof.
  intros E A H. unfold lround. destruct e as [|pe|pe]; try lia.
  change (- Zneg pe) with (Zpos pe) in H.
  assert (Pd : 0 < 2 ^ Zpos pe) by (apply pow2_pos; lia).
  set (d := 2 ^ Zpos pe) in *.
  pose proof (Z.div_mod (Zpos m) d ltac:(lia)) as DM.
  pose proof (Z.mod_pos_bound (Zpos m) d Pd) as MB.
  set (q := Zpos m / d) in *. set (r := Zpos m mod d) in *.
  cbv zeta.
  assert (V : (if d <=? 2 * r then q + 1 else q) = a).
  { destruct (Z.leb_spec d (2 * r)).
    - assert (q = a - 1) by nia. lia.
    - assert (q = a) by nia. lia. }
  rewrite V.
  assert (R : (LONG_MIN <=? a) && (a <=? LONG_MAX) = true).
  { unfold LONG_MIN, LONG_MAX. apply andb_true_iff. split; apply Z.leb_le; lia. }
  rewrite R. reflexivity.
Qed.

(** A dimension times the aspect ratio that was computed by dividing by
    that dimension, rounded: the other dimension, for all dimensions below
    2048. *)
Lemma aspect_round_trip a b :
  1 <= a < 2 ^ 11 -> 1 <= b < 2 ^ 11 ->
  lround (F64.mul (F64.of_Z b) (F64.div (F64.of_Z a) (F64.of_Z b))) = Some a.
Proof.
  intros Ha Hb.
  destruct (F64_of_Z_canonical a) as (ma & ka & Ea & Ka & Va & Da & Ra);
    [change (2 ^ 53) with (2 ^ 11 * 2 ^ 42); lia|].
  destruct (F64_of_Z_canonical b) as (mb & kb & Eb & Kb & Vb & Db & Rb);
    [change (2 ^ 53) with (2 ^ 11 * 2 ^ 42); lia|].
  assert (Ka' : 42 <= ka).
  { destruct (Z.le_gt_cases 42 ka); auto.
    assert (2 ^ 11 <= 2 ^ (52 - ka)) by (apply Z.pow_le_mono_r; lia). lia. }
  assert (Kb' : 42 <= kb).
  { destruct (Z.le_gt_cases 42 kb); auto.
    assert (2 ^ 11 <= 2 ^ (52 - kb)) by (apply Z.pow_le_mono_r; lia). lia. }
  rewrite Ea, Eb.
  destruct (F64_div_bracket ma (- ka) mb (- kb) Da Db ltac:(lia) ltac:(lia))
    as (mq & eq & n & t & q1 & Eq & Hn & Ht & Heq & Dq & Hq & Bq).
  rewrite Eq.
  destruct (F64_mul_bracket mb (- kb) mq eq Db Dq ltac:(lia) ltac:(lia))
    as (mp & ep & n' & t' & p1 & Ep & Hn' & Ht' & Hep & Hp & Bp).
  rewrite Ep.
  set (J := ka + 53 - n - t - n' - t').
  assert (HJ : 39 <= J <= 53) by (unfold J; lia).
  assert (EJ : ep = - J) by (unfold J; lia).
  rewrite EJ. apply lround_near; [lia | change (2 ^ 31) with (2 ^ 11 * 2 ^ 20); lia |].
  replace (- - J) with J by lia.
  (* the powers of two, as symbols *)
  assert (R0 : 2 ^ ka * 2 ^ 53 = 2 ^ J * 2 ^ t' * 2 ^ n' * 2 ^ t * 2 ^ n).
  { rewrite <- !Z.pow_add_r by lia. f_equal. unfold J. lia. }
  assert (PJ : 2 ^ 39 <= 2 ^ J) by (apply Z.pow_le_mono_r; lia).
  assert (PN : 2 ^ n = 1 \/ 2 ^ n = 2) by (destruct Hn as [-> | ->]; auto).
  assert (PT : 2 ^ t = 1 \/ 2 ^ t = 2) by (destruct Ht as [-> | ->]; auto).
  assert (PT' : 2 ^ t' = 1 \/ 2 ^ t' = 2) by (destruct Ht' as [-> | ->]; auto).
  assert (PN' : 2 ^ 52 <= 2 ^ n') by (apply Z.pow_le_mono_r; lia).
  pose proof (proj1 (digits2_pos_bounds mb 53) Db) as Bb. change (53 - 1) with 52 in Bb.
  change (2 ^ 53) with (2 * 2 ^ 52) in Bb.
  change (2 ^ 39) with 549755813888 in PJ.
  set (X := a * 2 ^ J).
  assert (EX : Zpos ma * 2 ^ 53 = X * 2 ^ t' * 2 ^ n' * 2 ^ t * 2 ^ n).
  { rewrite Va, <- Z.mul_assoc, R0. unfold X. ring. }
  rewrite EX in Bq. clear EX.
  clearbody X. clear R0 Va Vb Ea Eb Eq Ep Ra Rb Da Dq Hep Heq EJ.
  set (N := 2 ^ n) in *. set (T := 2 ^ t) in *. set (N' := 2 ^ n') in *.
  set (T' := 2 ^ t') in *. set (P := 2 ^ J) in *. set (H52 := 2 ^ 52) in *.
  set (MB := Zpos mb) in *. set (MQ := Zpos mq) in *. set (MP := Zpos mp) in *.
  assert (H52p : 0 < H52) by reflexivity.
  clearbody N T N' T' P MB MQ MP H52.
  clear - PJ PN PT PT' PN' Bb Bq Hq Bp Hp H52p.
  (* cancel 2^n *)
  assert (S5 : q1 * MB <= X * T' * N' * T < (q1 + 1) * MB).
  { destruct PN as [E | E]; rewrite E in Bq; lia. }
  clear Bq PN N.
  (* the product in units of the quotient *)
  set (Y := N' * T) in *.
  assert (HY : H52 <= Y) by (unfold Y; nia).
  assert (S3 : (MP * T' - 1) * Y <= MB * (MQ * T) /\ MB * (MQ * T) < (MP * T' + 1) * Y).
  { unfold Y. split.
    - apply Z.le_trans with (p1 * N' * T); [nia|]. nia.
    - apply Z.lt_le_trans with ((p1 + 1) * N' * T); [nia|]. nia. }
  assert (S4 : MB * q1 <= MB * (MQ * T) <= MB * q1 + MB).
  { destruct Hq as [-> | ->]; lia. }
  assert (S6 : (MP * T' - 1) * Y <= X * T' * Y + MB /\
               X * T' * Y - MB < (MP * T' + 1) * Y).
  { unfold Y in *. split; nia. }
  clear S3 S4 S5 Bp Hp Hq.
  assert (S7 : (MP - X) * T' * Y <= 3 * Y /\ -3 * Y <= (MP - X) * T' * Y) by (split; nia).
  assert (S8 : -3 <= (MP - X) * T' <= 3) by nia.
  assert (S9 : -3 <= MP - X <= 3) by (destruct PT' as [E | E]; rewrite E in S8; lia).
  lia.
Qed.

(* ================================================================= *)
(** ** Requests within the bounds *)

Lemma clamp_u32_inside v lo hi : lo <= v <= hi -> clamp_u32 v lo hi = v.
Proof.
  intros H. unfold clamp_u32.
  destruct (Z.ltb_spec v lo); [lia|]. destruct (Z.ltb_spec hi v); [lia | reflexivity].
Qed.

Lemma to_uint32_small v : 0 <= v < 2 ^ 32 -> to_uint32 v = v.
Proof. intros H. unfold to_uint32. apply Z.mod_small, H. Qed.

Lemma lround_checked_bind {B} x v (k : Z -> M B) m :
  lround x = Some v -> bind (lround_checked x) k m = k v m.
Proof. intros E. unfold lround_checked. rewrite E. reflexivity. Qed.

(** "Calculate Input Size" on a pair within the bounds: both dimensions come
    out as they went in. *)
Lemma calculate_input_size_inside i max_width max_height m :
  min_width <= fst (read_ref i m) <= max_width ->
  min_height <= snd (read_ref i m) <= max_height ->
  max_width < 2 ^ 11 -> max_height < 2 ^ 11 ->
  exists m',
    calculate_input_size i max_width max_height m = (Ok tt, m') /\
    read_ref i m' = read_ref i m /\
    (forall r, r <> i -> read_ref r m' = read_ref r m) /\
    (forall n, i = ref_local n -> self m' = self m).
Proof.
  unfold min_width, min_height. intros W H MW MH.
  destruct (read_ref i m) as [w h] eqn:R. cbn [fst snd] in *.
  unfold calculate_input_size. rewrite read_bind, R. cbn [fst snd].
  destruct (h <? w).
  - rewrite write_first_bind, read_bind, R. cbn [fst snd].
    rewrite (clamp_u32_inside w) by (unfold min_width; lia).
    rewrite read_write_ref. cbn [fst snd].
    rewrite (lround_checked_bind _ h) by (apply aspect_round_trip; lia).
    rewrite to_uint32_small by (change (2 ^ 32) with (2 ^ 11 * 2 ^ 21); lia).
    rewrite (clamp_u32_inside h) by (unfold min_height; lia).
    eexists. split; [reflexivity|].
    unfold write_second. cbn [snd]. rewrite !read_write_ref. cbn [fst].
    split; [reflexivity|]. split.
    + intros r N. rewrite !read_write_other by exact N. reflexivity.
    + intros n ->. reflexivity.
  - rewrite write_second_bind, read_bind, R. cbn [fst snd].
    rewrite (clamp_u32_inside h) by (unfold min_height; lia).
    rewrite read_write_ref. cbn [fst snd].
    rewrite (lround_checked_bind _ w) by (apply aspect_round_trip; lia).
    rewrite to_uint32_small by (change (2 ^ 32) with (2 ^ 11 * 2 ^ 21); lia).
    rewrite (clamp_u32_inside w) by (unfold min_width; lia).
    eexists. split; [reflexivity|].
    unfold write_first. cbn [snd]. rewrite !read_write_ref. cbn [snd].
    split; [reflexivity|]. split.
    + intros r N. rewrite !read_write_other by exact N. reflexivity.
    + intros n ->. reflexivity.
Qed.

Lemma within_bounds_inv s p :
  within_bounds s p = true ->
  min_width <= fst p <= fst (max_size s) /\
  min_height <= snd p <= snd (max_size s) /\
  fst (max_size s) < 2 ^ 11 /\ snd (max_size s) < 2 ^ 11.
Proof.
  unfold within_bounds. rewrite !andb_true_iff, !Z.leb_le. intros H.
  destruct (max_size_cases s) as [E | [E | E]]; rewrite E in *; cbn [fst snd] in *;
    change (2 ^ 11) with 2048; lia.
Qed.

(** X18: a request that lies within the bounds of the scale in force is kept
    as it is by "Calculate Input Size": the rounding of the dominant dimension
    times the aspect ratio gives the other dimension back, for every such
    request, in binary64. *)
Theorem request_within_bounds_is_kept (s : float) (i : pair_ref) (m : machine) :
  within_bounds s (read_ref i m) = true ->
  let r := calculate_input_size i (fst (max_size s)) (snd (max_size s)) m in
  fst r = Ok tt /\ read_ref i (snd r) = read_ref i m.
Proof.
  intros B. cbv zeta. apply within_bounds_inv in B. destruct B as (W & H & MW & MH).
  destruct (calculate_input_size_inside i _ _ m W H MW MH) as (m' & E & R & _).
  rewrite E. split; [reflexivity | exact R].
Qed.

(** The request 1280x720 at scale 1.5. *)
Lemma request_within_bounds_witness :
  let m := with_locals (fun _ => (1280, 720)) (boot healthy) in
  read_ref (ref_local 1)
    (snd (calculate_input_size (ref_local 1) 1920 1080 m)) = (1280, 720).
Proof.
  cbv zeta.
  refine (proj2 (request_within_bounds_is_kept f_1_5 (ref_local 1)
            (with_locals (fun _ => (1280, 720)) (boot healthy)) _)).
  vm_compute; reflexivity.
Defined.

(* ================================================================= *)
(** ** The answer of [size] to a request that fits *)

(** Checked on every dimension the bounds admit, for each supported factor:
    when the denominator of the factor divides the dimension, the output
    dimension is the exact product and the ratio verifies. *)
Lemma fitting_product j s p q n :
  nth_error supported_scale_factors j = Some s ->
  nth_error ratios j = Some (p, q) ->
  90 <= n < 2048 -> n mod q = 0 ->
  lround (F32.mul (F32.of_Z n) s) = Some (p * n / q) /\
  is_close (F32.div (F32.of_Z (p * n / q)) (F32.of_Z n)) s f_0_00001 = true.
Proof.
  intros Hs Hr N D.
  assert (A : forallb (fun sp => forallb (fun n => fits (fst sp) (snd sp) (Z.of_nat n))
                                   (seq 90 1958))
                (combine supported_scale_factors ratios) = true) by (vm_compute; reflexivity).
  rewrite forallb_forall in A.
  assert (I : In (s, (p, q)) (combine supported_scale_factors ratios)).
  { revert Hs Hr. clear.
    do 5 (destruct j as [|j]; [intros [= <-] [= <- <-]; cbn; tauto|]).
    destruct j; discriminate. }
  specialize (A _ I). cbn [fst snd] in A.
  rewrite forallb_forall in A.
  specialize (A (Z.to_nat n) ltac:(apply in_seq; lia)).
  rewrite Z2Nat.id in A by lia. unfold fits in A. cbn [fst snd] in A.
  rewrite D, Z.eqb_refl in A. cbn [negb orb] in A.
  destruct (lround _) as [v|]; [|discriminate A].
  apply andb_true_iff in A. destruct A as (A1 & A2).
  apply Z.eqb_eq in A1. subst v. auto.
Qed.

Lemma ratios_bounds j p q : nth_error ratios j = Some (p, q) -> 1 <= q <= 3 /\ 2 <= p <= 4.
Proof.
  do 5 (destruct j as [|j]; [intros [= <- <-]; lia|]). destruct j; discriminate.
Qed.

Lemma restore_input_size sz i m :
  let m0 := write_ref i (fst (read_ref sz m), snd (read_ref i m)) m in
  let m1 := write_ref i (fst (read_ref i m0), snd (read_ref sz m0)) m0 in
  read_ref i m1 = read_ref sz m /\
  (forall r, r <> i -> read_ref r m1 = read_ref r m) /\
  _scale (self m1) = _scale (self m).
Proof.
  cbv zeta. split; [|split].
  - rewrite !read_write_ref. cbn [fst].
    assert (D : sz = i \/ sz <> i).
    { destruct sz as [| |a], i as [| |b]; try (left; reflexivity); try (right; discriminate).
      destruct (Nat.eq_dec a b) as [-> | N]; [left; reflexivity | right; congruence]. }
    destruct D as [-> | N].
    + rewrite read_write_ref. cbn [snd]. destruct (read_ref i m); reflexivity.
    + rewrite read_write_other by exact N. destruct (read_ref sz m); reflexivity.
  - intros r N. rewrite !read_write_other by exact N. reflexivity.
  - rewrite !write_ref_scale. reflexivity.
Qed.

(** "Calculate Output Size", given the roundings. *)
Lemma calculate_output_size_run i o m vw vh :
  i <> o ->
  lround (F32.mul (F32.of_Z (fst (read_ref i m))) (_scale (self m))) = Some vw ->
  lround (F32.mul (F32.of_Z (snd (read_ref i m))) (_scale (self m))) = Some vh ->
  exists m',
    calculate_output_size i o m = (Ok tt, m') /\
    read_ref i m' = read_ref i m /\
    read_ref o m' = (to_uint32 vw, to_uint32 vh) /\
    _scale (self m') = _scale (self m) /\
    _cache_scale (self m') = _cache_scale (self m).
Proof.
  intros N Ew Eh.
  unfold calculate_output_size. rewrite read_bind, gets_bind.
  rewrite (lround_checked_bind _ vw) by exact Ew.
  rewrite write_first_bind, read_bind, gets_bind.
  rewrite read_write_other by exact N. rewrite write_ref_scale.
  rewrite (lround_checked_bind _ vh) by exact Eh.
  eexists. split; [reflexivity|]. split; [|split; [|split]].
  - rewrite !read_write_other by exact N. reflexivity.
  - rewrite !read_write_ref. cbn [fst]. reflexivity.
  - rewrite !write_ref_scale. reflexivity.
  - destruct o; reflexivity.
Qed.

(** "Update last stored values" on proper pairs. *)
Lemma update_cache_proper i o m :
  proper_pairs i o ->
  let m' := snd (update_cache i o m) in
  read_ref i m' = read_ref i m /\
  read_ref o m' = read_ref o m /\
  _scale (self m') = _scale (self m) /\
  _cache_input_size (self m') = read_ref i m /\
  _cache_output_size (self m') = read_ref o m /\
  _cache_scale (self m') = _scale (self m).
Proof.
  intros (N1 & N2 & N3).
  destruct i as [| |a], o as [| |b]; try congruence; cbn; auto 10.
Qed.

(** One pass answers a request that fits. *)
Lemma size_fitting (j : nat) (p q : Z) (sz i o : pair_ref) (m : machine) :
  nth_error supported_scale_factors j = Some (_scale (self m)) ->
  nth_error ratios j = Some (p, q) ->
  proper_pairs i o ->
  within_bounds (_scale (self m)) (read_ref sz m) = true ->
  fst (read_ref sz m) mod q = 0 ->
  snd (read_ref sz m) mod q = 0 ->
  fst (cache_matches i m) = Ok false ->
  let request := read_ref sz m in
  let answer := (p * fst request / q, p * snd request / q) in
  let r := size sz i o m in
  fst r = Ok tt /\
  read_ref i (snd r) = request /\
  read_ref o (snd r) = answer /\
  _scale (self (snd r)) = _scale (self m) /\
  _cache_input_size (self (snd r)) = request /\
  _cache_output_size (self (snd r)) = answer /\
  _cache_scale (self (snd r)) = _scale (self m).
Proof.
  intros Hs Hr PP B Dw Dh C. cbv zeta.
  pose proof PP as (N & _ & _).
  pose proof (within_bounds_inv _ _ B) as (W & H & MW & MH).
  pose proof (ratios_bounds _ _ _ Hr) as (Q & P).
  (* one pass of the negotiation *)
  destruct (restore_input_size sz i m) as (R1 & O1 & S1). cbv zeta in R1, O1, S1.
  set (m1 := write_ref i _ (write_ref i _ m)) in *.
  rewrite <- R1 in W, H, Dw, Dh.
  destruct (calculate_input_size_inside i _ _ m1 W H MW MH) as (m2 & E2 & R2 & O2 & _).
  assert (Sc2 : _scale (self m2) = _scale (self m)).
  { rewrite <- S1.
    destruct (calculate_input_size_clamps _ _ _ _ _ E2) as (K & _). exact K. }
  unfold min_width, min_height in W, H. change (2 ^ 11) with 2048 in MW, MH.
  rewrite <- R2 in W, H, Dw, Dh.
  destruct (fitting_product j _ p q (fst (read_ref i m2)) Hs Hr ltac:(lia) Dw) as (Lw & Vw).
  destruct (fitting_product j _ p q (snd (read_ref i m2)) Hs Hr ltac:(lia) Dh) as (Lh & Vh).
  rewrite <- Sc2 in Lw, Lh.
  destruct (calculate_output_size_run i o m2 _ _ N Lw Lh) as (m3 & E3 & R3 & Ro3 & S3 & _).
  assert (U : forall n, 90 <= n < 2048 -> 0 <= p * n / q < 2 ^ 32).
  { intros n Hn. change (2 ^ 32) with 4294967296. split.
    - apply Z.div_pos; nia.
    - apply Z.div_lt_upper_bound; nia. }
  rewrite !to_uint32_small in Ro3 by (apply U; lia).
  assert (E : negotiate_once sz i o m = (Ok tt, m3)).
  { unfold negotiate_once.
    rewrite gets_bind, read_bind, write_first_bind, read_bind, write_second_bind.
    fold m1. rewrite (bind_ok _ _ _ _ _ E2). exact E3. }
  assert (V : valid_sizing (read_ref i m3) (read_ref o m3) (_scale (self m3)) = true).
  { unfold valid_sizing. rewrite Ro3, R3, S3, Sc2. cbn [fst snd]. rewrite Vw, Vh. reflexivity. }
  unfold size, size_fuel. cbn [List.length supported_scale_factors size_rec].
  rewrite bind_run, C, cache_matches_pure.
  rewrite (bind_ok _ _ _ _ _ E).
  rewrite bind_run, scale_is_valid_run. cbn [fst snd]. rewrite V. cbn [negb when].
  rewrite bind_run. cbn [fst snd ret].
  destruct (update_cache_proper i o m3 PP) as (Ri & Ro & Sc & Ci & Co & Cs).
  cbv zeta in Ri, Ro, Sc, Ci, Co, Cs.
  rewrite (surjective_pairing (update_cache i o m3)).
  cbn [fst snd]. rewrite update_cache_ok.
  rewrite Ri, Ro, Sc, Ci, Co, Cs, S3, Sc2, Ro3, R3, R2, R1.
  repeat split; reflexivity.
Qed.

(** X19: a request within the bounds whose dimensions the denominator of
    the scale in force divides (any request at 2, 3 or 4, even dimensions at
    1.5, multiples of 3 at 4/3), when it is not served from the cache, is
    answered in one pass: the input size is the request, the output size is
    the request times the scale, exactly, the scale stays, and the answer is
    what the cache then holds. *)
Theorem size_of_a_fitting_request (j : nat) (p q : Z) (sz i o : pair_ref) (m : machine) :
  nth_error supported_scale_factors j = Some (_scale (self m)) ->
  nth_error ratios j = Some (p, q) ->
  proper_pairs i o ->
  within_bounds (_scale (self m)) (read_ref sz m) = true ->
  fst (read_ref sz m) mod q = 0 ->
  snd (read_ref sz m) mod q = 0 ->
  fst (cache_matches i m) = Ok false ->
  let request := read_ref sz m in
  let answer := (p * fst request / q, p * snd request / q) in
  let r := size sz i o m in
  fst r = Ok tt /\
  read_ref i (snd r) = request /\
  read_ref o (snd r) = answer /\
  _scale (self (snd r)) = _scale (self m) /\
  _cache_input_size (self (snd r)) = request /\
  _cache_output_size (self (snd r)) = answer /\
  _cache_scale (self (snd r)) = _scale (self m).
Proof.
  intros Hs Hr PP B Dw Dh C. cbv zeta.
  apply (size_fitting j p q sz i o m); assumption.
Qed.


(** At the scale of the constructor, 1.5, the request 1280x720 is answered
    with 1280x720 and 1920x1080. *)
Lemma size_of_a_fitting_request_witness :
  let r := size (ref_local 0) (ref_local 1) (ref_local 2) (prepared f_1_5 (1280, 720)) in
  read_ref (ref_local 1) (snd r) = (1280, 720) /\
  read_ref (ref_local 2) (snd r) = (1920, 1080).
Proof.
  cbv zeta.
  destruct (size_of_a_fitting_request 1 3 2 (ref_local 0) (ref_local 1) (ref_local 2)
              (prepared f_1_5 (1280, 720)))
    as (_ & I & O & _).
  - vm_compute; reflexivity.
  - reflexivity.
  - repeat split; discriminate.
  - vm_compute; reflexivity.
  - reflexivity.
  - reflexivity.
  - vm_compute; reflexivity.
  - split; [exact I | exact O].
Defined.

(** X20: a [resize] that finds the scale changed since the cache was
    filled, to a size within the bounds that fits the scale in force, leaves
    that size as the cached input size and the size times the scale as the
    cached output size; when it completes, the input, FP32 and source buffers
    have the one and the destination, U8 and output buffers the other. *)
Theorem resize_of_a_fitting_request (j : nat) (p q w h : Z) (m : machine) :
  nth_error supported_scale_factors j = Some (_scale (self m)) ->
  nth_error ratios j = Some (p, q) ->
  within_bounds (_scale (self m)) (w, h) = true ->
  w mod q = 0 -> h mod q = 0 ->
  F32.eqb (_scale (self m)) (_cache_scale (self m)) = false ->
  let m' := snd (resize w h m) in
  let answer := (p * w / q, p * h / q) in
  _cache_input_size (self m') = (w, h) /\
  _cache_output_size (self m') = answer /\
  _scale (self m') = _scale (self m) /\
  (fst (resize w h m) = Ok tt ->
   sized (_input (self m')) (w, h) /\
   sized (_convert_to_fp32 (self m')) (w, h) /\
   sized (_source (self m')) (w, h) /\
   sized (_destination (self m')) answer /\
   sized (_convert_to_u8 (self m')) answer /\
   sized (_output (self m')) answer).
Proof.
  intros Hs Hr B Dw Dh E. cbv zeta.
  set (m0 := with_self (with_cache_input_size (w, h) (self m)) m).
  assert (PP : proper_pairs ref_cache_input_size ref_cache_output_size)
    by (repeat split; discriminate).
  assert (C : fst (cache_matches ref_cache_input_size m0) = Ok false).
  { unfold cache_matches. unfold_monad. cbn. rewrite E, andb_false_r. reflexivity. }
  destruct (size_fitting j p q ref_cache_input_size ref_cache_input_size
              ref_cache_output_size m0 Hs Hr PP B Dw Dh C)
    as (R & _ & _ & Sc & Ci & Co & _).
  cbn [read_ref m0 self with_self _cache_input_size with_cache_input_size fst snd] in Ci, Co.
  rewrite resize_run. fold m0. rewrite bind_run, R.
  pose proof (ensure_buffers_keep_sizing
                (snd (size ref_cache_input_size ref_cache_input_size ref_cache_output_size m0)))
    as (Ki & Ko & Ks & _).
  assert (I' : _cache_input_size (self (snd (ensure_buffers
                 (snd (size ref_cache_input_size ref_cache_input_size
                         ref_cache_output_size m0))))) = (w, h)) by congruence.
  assert (O' : _cache_output_size (self (snd (ensure_buffers
                 (snd (size ref_cache_input_size ref_cache_input_size
                         ref_cache_output_size m0))))) = (p * w / q, p * h / q)) by congruence.
  split; [exact I'|]. split; [exact O'|]. split; [rewrite Ks, Sc; reflexivity|].
  intros Ok'.
  assert (Rz : resize w h m =
               (Ok tt, snd (ensure_buffers
                  (snd (size ref_cache_input_size ref_cache_input_size
                          ref_cache_output_size m0))))).
  { rewrite resize_run. fold m0. rewrite bind_run, R.
    rewrite (surjective_pairing (ensure_buffers _)). rewrite Ok'. reflexivity. }
  pose proof (resize_ok_sized_up _ _ _ _ Rz) as (_ & _ & _ & U).
  rewrite I', O' in U. exact U.
Qed.

(** After the constructor, [set_scale(2)] and [resize(1280, 720)]: the
    cached sizing is 1280x720 to 2560x1440. *)
Lemma resize_of_a_fitting_request_witness :
  let m' := snd (resize 1280 720 (snd (set_scale f_2 constructed))) in
  _cache_input_size (self m') = (1280, 720) /\
  _cache_output_size (self m') = (2560, 1440).
Proof.
  cbv zeta.
  destruct (resize_of_a_fitting_request 2 2 1 1280 720 (snd (set_scale f_2 constructed)))
    as (I & O & _).
  - vm_compute; reflexivity.
  - reflexivity.
  - vm_compute; reflexivity.
  - reflexivity.
  - reflexivity.
  - vm_compute; reflexivity.
  - split; [exact I | exact O].
Defined.
